(** * pdf-to-markdown: the conversion pipeline of [src/main.ts]

    A shallow embedding of the command line tool that sends a PDF to an OCR
    service, publishes the embedded images to an S3 compatible bucket and
    writes one Markdown file per page plus a combined one.

    Conventions of the embedding.
    - A JavaScript string is a [string] holding its UTF-8 encoding.  Literals
      of the source are copied as they are; the program only concatenates and
      compares them, except for the two regular expressions of
      [uploadImages], whose character classes are written out on the encoding.
    - A JavaScript number that holds a page index or a calendar field is a
      [Z]; [String(n)] is the decimal rendering of the integer.
    - The outside world (arguments, environment, file system, clock, OCR
      service, bucket) is a [Host]: a record of oracles the program queries.
      Every call into the runtime or the network is appended to a trace of
      [Event]s, threaded through a state and exception monad [Eff]. *)

From Stdlib Require Import ZArith Ascii String List Lia.
From stdpp Require Import base option list sorting strings gmap pretty.

Open Scope string_scope.
Open Scope Z_scope.

(* ===================================================================== *)
(** * JavaScript values used by the program *)
(* ===================================================================== *)

Module Js.

(** [!x] on a [string | undefined | null]: only a non-empty string is
    truthy. *)
Definition truthy (x : option string) : bool :=
  match x with
  | Some (String _ _) => true
  | _ => false
  end.

(** [String(n)] and [`${n}`] for an integer valued number. *)
Definition String_of_number (n : Z) : string := pretty n.

(** [Array.prototype.join]. *)
Fixpoint Array_join (sep : string) (l : list string) : string :=
  match l with
  | [] => ""
  | x :: rest =>
      match rest with
      | [] => x
      | _ :: _ => x +:+ sep +:+ Array_join sep rest
      end
  end.

(** [String.prototype.padStart]: the filler repeats [pad] and is cut to the
    missing length; an empty [pad] or a long enough string changes
    nothing. *)
Definition padStart (target : nat) (pad : string) (s : string) : string :=
  let len := String.length s in
  if (target <=? len)%nat then s
  else match pad with
       | "" => s
       | _ =>
           let missing := (target - len)%nat in
           substring 0 missing (String.concat "" (replicate missing pad)) +:+ s
       end.

(** A thrown value.  Everything the runtime and the client libraries throw
    here is an [Error]: a name and a message. *)
Record Error := mkError { error_name : string; error_message : string }.

(** [Error.prototype.toString], which [`${e}`] calls. *)
Definition Error_toString (e : Error) : string :=
  match error_name e, error_message e with
  | "", msg => msg
  | name, "" => name
  | name, msg => name +:+ ": " +:+ msg
  end.

(** The local calendar fields of a [Date]. *)
Record Date := mkDate {
  getFullYear : Z;
  getMonth : Z;   (* 0 .. 11 *)
  getDate : Z     (* 1 .. 31 *)
}.

(** How a piece of code completes: with a value, or by throwing. *)
Inductive Completion (A : Type) : Type :=
| Return (a : A)
| Throw (e : Error).
Global Arguments Return {A} a.
Global Arguments Throw {A} e.

End Js.
Export Js.

(* ===================================================================== *)
(** * [result.ts]: the error classes *)
(* ===================================================================== *)

(** [BaseError] sets [name] to the name of the constructing class; the three
    subclasses differ in that name and in the prefix they put before the
    message. *)
Inductive ErrorClass := ValidationErrorC | NotFoundErrorC | SystemErrorC.

Global Instance ErrorClass_eq_dec : EqDecision ErrorClass.
Proof. solve_decision. Defined.

Record AppError := mkAppError { class : ErrorClass; message : string }.

Global Instance AppError_eq_dec : EqDecision AppError.
Proof. solve_decision. Defined.

Definition name (e : AppError) : string :=
  match class e with
  | ValidationErrorC => "ValidationError"
  | NotFoundErrorC => "NotFoundError"
  | SystemErrorC => "SystemError"
  end.

Definition ValidationError (message : string) : AppError :=
  mkAppError ValidationErrorC ("バリデーションエラー: " +:+ message).

Definition NotFoundError (entityName id : string) : AppError :=
  mkAppError NotFoundErrorC (entityName +:+ "(ID: " +:+ id +:+ ")が見つかりません").

Definition SystemError (message : string) : AppError :=
  mkAppError SystemErrorC ("システムエラー: " +:+ message).

(* ===================================================================== *)
(** * neverthrow: [Result] and [ResultAsync.fromPromise] *)
(* ===================================================================== *)

Inductive Result (T E : Type) : Type :=
| Ok (value : T)
| Err (error : E).
Global Arguments Ok {T E} value.
Global Arguments Err {T E} error.

(* ===================================================================== *)
(** * Library functions the program imports *)
(* ===================================================================== *)

(** ** [node:util]: [parseArgs] in its default strict mode

    The library is not part of the repository.  The model follows its two
    phases: the arguments are first cut into tokens, then every token is
    checked and stored in order, and the first offending token throws. *)
Module NodeUtil.

Inductive OptionType := TString | TBoolean.

Global Instance OptionType_eq_dec : EqDecision OptionType.
Proof. solve_decision. Defined.

Record OptionConfig := mkOption { type : OptionType; short : option ascii }.

(** The [options] object, as its entries in order. *)
Definition Options := list (string * OptionConfig).

(** A parsed value is the string given on the command line, or [true] for
    an option given without one. *)
Inductive ArgValue := VString (s : string) | VBoolean (b : bool).

Inductive Token :=
| TokOption (name rawName : string) (value : option (string * bool))
    (* the value comes with its [inlineValue] flag *)
| TokPositional (value : string)
| TokTerminator.

Definition nl : string := String "010" "".

(** The three errors of the parser, all of them [TypeError]s; the wording
    of the messages is the library's. *)
Definition ERR_PARSE_ARGS_UNEXPECTED_POSITIONAL (x : string) : Js.Error :=
  mkError "TypeError"
    ("Unexpected argument '" +:+ x +:+
     "'. This command does not take positional arguments").

Definition ERR_PARSE_ARGS_UNKNOWN_OPTION (option : string) : Js.Error :=
  mkError "TypeError" ("Unknown option '" +:+ option +:+ "'").

Definition ERR_PARSE_ARGS_INVALID_OPTION_VALUE (msg : string) : Js.Error :=
  mkError "TypeError" msg.

Definition string_drop (n : nat) (s : string) : string :=
  substring n (String.length s - n) s.

Definition optionConfig (options : Options) (longOption : string)
  : option OptionConfig :=
  snd <$> List.find (λ entry, bool_decide (entry.1 = longOption)) options.

Definition optionType (options : Options) (longOption : string)
  : option OptionType :=
  type <$> optionConfig options longOption.

Definition findLongOptionForShort (shortOption : ascii) (options : Options)
  : string :=
  match List.find (λ entry, bool_decide (short entry.2 = Some shortOption))
          options with
  | Some entry => entry.1
  | None => String shortOption ""
  end.

(** ['-f'] *)
Definition isLoneShortOption (arg : string) : bool :=
  match arg with
  | String "-" (String c "") => negb (Ascii.eqb c "-")
  | _ => false
  end.

(** The character after the dash of an argument longer than two that
    starts with a single dash. *)
Definition shortStart (arg : string) : option ascii :=
  match arg with
  | String "-" (String c (String _ _)) =>
      if Ascii.eqb c "-" then None else Some c
  | _ => None
  end.

(** ['-fXzy'], where [f] is not a string option. *)
Definition isShortOptionGroup (arg : string) (options : Options) : bool :=
  match shortStart arg with
  | Some firstShort =>
      negb (bool_decide
        (optionType options (findLongOptionForShort firstShort options)
         = Some TString))
  | None => false
  end.

(** ['-fFILE'], where [f] is a string option. *)
Definition isShortOptionAndValue (arg : string) (options : Options) : bool :=
  match shortStart arg with
  | Some shortOption =>
      bool_decide
        (optionType options (findLongOptionForShort shortOption options)
         = Some TString)
  | None => false
  end.

(** [arg.includes('=', 3)] *)
Definition includesEqualFrom3 (arg : string) : bool :=
  match index 3 "=" arg with Some _ => true | None => false end.

Definition longStart (arg : string) : bool :=
  (2 <? String.length arg)%nat && String.prefix "--" arg.

(** ['--foo'] *)
Definition isLoneLongOption (arg : string) : bool :=
  longStart arg && negb (includesEqualFrom3 arg).

(** ['--foo=bar'] *)
Definition isLongOptionAndValue (arg : string) : bool :=
  longStart arg && includesEqualFrom3 arg.

(** One turn of the tokenizer loop on an argument that is neither the
    terminator nor a short option group; [nextArg] is the argument after
    it, and the flag tells whether it was taken as the value. *)
Definition tokenizeArg (options : Options) (arg : string)
    (nextArg : option string) : Token * bool :=
  if isLoneShortOption arg then
    let longOption :=
      match arg with
      | String _ (String c _) => findLongOptionForShort c options
      | _ => arg
      end in
    match optionType options longOption, nextArg with
    | Some TString, Some value =>
        (TokOption longOption arg (Some (value, false)), true)
    | _, _ => (TokOption longOption arg None, false)
    end
  else if isShortOptionAndValue arg options then
    match arg with
    | String _ (String shortOption value) =>
        (TokOption (findLongOptionForShort shortOption options)
           (String "-" (String shortOption "")) (Some (value, true)), false)
    | _ => (TokPositional arg, false)
    end
  else if isLoneLongOption arg then
    let longOption := string_drop 2 arg in
    match optionType options longOption, nextArg with
    | Some TString, Some value =>
        (TokOption longOption arg (Some (value, false)), true)
    | _, _ => (TokOption longOption arg None, false)
    end
  else if isLongOptionAndValue arg then
    match index 0 "=" arg with
    | Some equalIndex =>
        let longOption := substring 2 (equalIndex - 2) arg in
        (TokOption longOption ("--" +:+ longOption)
           (Some (string_drop (S equalIndex) arg, true)), false)
    | None => (TokPositional arg, false)
    end
  else (TokPositional arg, false).

(** ['-fXzy'] becomes ['-f' '-X' '-z' '-y']; a string option in the middle
    keeps the rest as its value.  [chars] is what follows the dash. *)
Fixpoint expandGroup (options : Options) (chars : string) : list string :=
  match chars with
  | "" => []
  | String shortOption rest =>
      let longOption := findLongOptionForShort shortOption options in
      if negb (bool_decide (optionType options longOption = Some TString))
         || bool_decide (rest = "")
      then String "-" (String shortOption "") :: expandGroup options rest
      else [String "-" chars]
  end.

(** The arguments put back in front by a group are consumed before the
    remaining ones; only the last of them can take the next remaining
    argument as its value.  [k0] and [k1] continue on the remaining
    arguments, without and with their head consumed. *)
Fixpoint tokensOfFront (options : Options) (front remaining : list string)
    (k0 k1 : unit → list Token) : list Token :=
  match front with
  | [] => k0 ()
  | arg :: front' =>
      if bool_decide (arg = "--")
      then TokTerminator :: (TokPositional <$> (front' ++ remaining)%list)
      else
        match front' with
        | [] =>
            let '(tok, taken) := tokenizeArg options arg (head remaining) in
            tok :: (if taken then k1 () else k0 ())
        | nextArg :: front'' =>
            let '(tok, taken) := tokenizeArg options arg (Some nextArg) in
            tok :: (if taken
                    then tokensOfFront options front'' remaining k0 k1
                    else tokensOfFront options front' remaining k0 k1)
        end
  end.

Fixpoint argsToTokens (options : Options) (args : list string) : list Token :=
  match args with
  | [] => []
  | arg :: remaining =>
      let front :=
        if bool_decide (arg = "--") then [arg]
        else if isLoneShortOption arg then [arg]
        else if isShortOptionGroup arg options
             then expandGroup options (string_drop 1 arg)
             else [arg] in
      tokensOfFront options front remaining
        (λ _, argsToTokens options remaining)
        (λ _, match remaining with
              | [] => []
              | _ :: remaining' => argsToTokens options remaining'
              end)
  end.

(** Strict mode: the option must be declared and its value must fit its
    type. *)
Definition checkOptionUsage (options : Options) (name rawName : string)
    (value : option (string * bool)) : option Js.Error :=
  match optionConfig options name with
  | None => Some (ERR_PARSE_ARGS_UNKNOWN_OPTION rawName)
  | Some cfg =>
      let shortAndLong :=
        match short cfg with
        | Some c => "-" +:+ String c "" +:+ ", --" +:+ name
        | None => "--" +:+ name
        end in
      match type cfg, value with
      | TString, None =>
          Some (ERR_PARSE_ARGS_INVALID_OPTION_VALUE
                  ("Option '" +:+ shortAndLong +:+ " <value>' argument missing"))
      | TBoolean, Some _ =>
          Some (ERR_PARSE_ARGS_INVALID_OPTION_VALUE
                  ("Option '" +:+ shortAndLong +:+ "' does not take an argument"))
      | _, _ => None
      end
  end.

Definition isOptionLikeValue (value : string) : bool :=
  (1 <? String.length value)%nat && String.prefix "-" value.

(** Strict mode: a value taken from the next argument must not look like
    an option. *)
Definition checkOptionLikeValue (name rawName : string)
    (value : option (string * bool)) : option Js.Error :=
  match value with
  | Some (v, false) =>
      if isOptionLikeValue v then
        let example :=
          if String.prefix "--" rawName
          then "'" +:+ rawName +:+ "=-XYZ'"
          else "'--" +:+ name +:+ "=-XYZ' or '" +:+ rawName +:+ "-XYZ'" in
        Some (ERR_PARSE_ARGS_INVALID_OPTION_VALUE
                ("Option '" +:+ rawName +:+ "' argument is ambiguous." +:+ nl +:+
                 "Did you forget to specify the option argument for '" +:+
                 rawName +:+ "'?" +:+ nl +:+
                 "To specify an option argument starting with a dash use " +:+
                 example +:+ "."))
      else None
  | _ => None
  end.

Definition storeOption (longOption : string) (value : option (string * bool))
    (values : gmap string ArgValue) : gmap string ArgValue :=
  if bool_decide (longOption = "__proto__") then values
  else <[longOption := match value with
                       | Some (v, _) => VString v
                       | None => VBoolean true
                       end]> values.

Fixpoint processTokens (options : Options) (allowPositionals : bool)
    (tokens : list Token) (values : gmap string ArgValue)
    (positionals : list string)
  : Completion (gmap string ArgValue * list string) :=
  match tokens with
  | [] => Return (values, positionals)
  | TokOption name rawName value :: tokens' =>
      match checkOptionUsage options name rawName value with
      | Some e => Throw e
      | None =>
          match checkOptionLikeValue name rawName value with
          | Some e => Throw e
          | None =>
              processTokens options allowPositionals tokens'
                (storeOption name value values) positionals
          end
      end
  | TokPositional value :: tokens' =>
      if allowPositionals
      then processTokens options allowPositionals tokens' values
             (positionals ++ [value])%list
      else Throw (ERR_PARSE_ARGS_UNEXPECTED_POSITIONAL value)
  | TokTerminator :: tokens' =>
      processTokens options allowPositionals tokens' values positionals
  end.

Definition parseArgs (args : list string) (options : Options)
    (allowPositionals : bool)
  : Completion (gmap string ArgValue * list string) :=
  processTokens options allowPositionals (argsToTokens options args) ∅ [].

End NodeUtil.

(** ** [std/encoding/base64]: [decodeBase64], which is [atob] followed by a
    copy of the character codes into a byte array *)
Module DenoStd.

(** TAB, LF, FF, CR and SPACE. *)
Definition isAsciiWhitespace (c : ascii) : bool :=
  match c with
  | "009" | "010" | "012" | "013" | " " => true
  | _ => false
  end%char.

Definition base64Value (c : ascii) : option N :=
  let n := N_of_ascii c in
  if (65 <=? n)%N && (n <=? 90)%N then Some (n - 65)%N
  else if (97 <=? n)%N && (n <=? 122)%N then Some (n - 71)%N
  else if (48 <=? n)%N && (n <=? 57)%N then Some (n + 4)%N
  else if (n =? 43)%N then Some 62%N
  else if (n =? 47)%N then Some 63%N
  else None.

(** One or two trailing ['='] are dropped when the length is a multiple of
    four. *)
Definition removePadding (data : list ascii) : list ascii :=
  if (length data mod 4 =? 0)%nat then
    match rev data with
    | "="%char :: "="%char :: r => rev r
    | "="%char :: r => rev r
    | _ => data
    end
  else data.

Fixpoint decodeSextets (l : list N) : list ascii :=
  match l with
  | a :: b :: c :: d :: rest =>
      let n := (a * 262144 + b * 4096 + c * 64 + d)%N in
      ascii_of_N (n / 65536) :: ascii_of_N ((n / 256) mod 256)
        :: ascii_of_N (n mod 256) :: decodeSextets rest
  | [a; b; c] =>
      let n := ((a * 4096 + b * 64 + c) / 4)%N in
      [ascii_of_N (n / 256); ascii_of_N (n mod 256)]
  | [a; b] => [ascii_of_N ((a * 64 + b) / 16)]
  | _ => []
  end.

(** The [DOMException] of [atob]; the wording of its message is the
    runtime's. *)
Definition InvalidCharacterError : Js.Error :=
  mkError "InvalidCharacterError" "Failed to decode base64".

(** [atob]: the forgiving base64 decoding; the result is a string of
    character codes below 256, kept as a list. *)
Definition atob (data : string) : Completion (list ascii) :=
  let data := filter (λ c, isAsciiWhitespace c = false)
                (list_ascii_of_string data) in
  let data := removePadding data in
  if (length data mod 4 =? 1)%nat then Throw InvalidCharacterError
  else match mapM base64Value data with
       | Some sextets => Return (decodeSextets sextets)
       | None => Throw InvalidCharacterError
       end.

Definition decodeBase64 (b64 : string) : Completion (list Byte.byte) :=
  match atob b64 with
  | Return binString => Return (byte_of_ascii <$> binString)
  | Throw e => Throw e
  end.

(** [std/path]: [join(dir, name)] for a plain file name.  The joined path
    is kept as its two components: it denotes the entry [name] of the
    directory [dir]. *)
Record Path := mkPath { path_dir : string; path_name : string }.

Global Instance Path_eq_dec : EqDecision Path.
Proof. solve_decision. Defined.

Definition join (dir name : string) : Path := mkPath dir name.

End DenoStd.
Export DenoStd.

(* ===================================================================== *)
(** * [main.ts]: data *)
(* ===================================================================== *)

Record Args := mkArgs { input : string; outDir : string }.

Record Env := mkEnv {
  MISTRAL_OCR_API_KEY : string;
  R2_S3_URL : string;
  R2_ACCESS_KEY_ID : string;
  R2_SECRET_ACCESS_KEY : string;
  R2_BUCKET_NAME : string;
  R2_PUBLIC_URL : string
}.

(** An element of the [images] of an [OCRPageObject].  [imageBase64] is
    [None] when the field is absent or [null]; the corners of the bounding
    box, which the program never reads, are kept as integers. *)
Record OCRImage := mkImage {
  id : string;
  imageBase64 : option string;
  bottomRightX : option Z;
  bottomRightY : option Z;
  topLeftX : option Z;
  topLeftY : option Z
}.

Record Dimensions := mkDimensions {
  dpi : option Z; height : option Z; width : option Z
}.

Record OCRPageObject := mkPage {
  index : Z;
  markdown : string;
  images : list OCRImage;
  dimensions : option Dimensions
}.

(** An element of [ImageMap]; [uploaded_id] is its [id] field. *)
Record Uploaded := mkUploaded { uploaded_id : string; url : string }.

Abbreviation ImageMap := (list Uploaded).

(* ===================================================================== *)
(** * The outside world *)
(* ===================================================================== *)

Record FileInfo := mkFileInfo { isFile : bool; isDirectory : bool }.

Record S3Client := mkS3Client {
  region : string;
  endpoint : string;
  accessKeyId : string;
  secretAccessKey : string
}.

Record PutObjectCommand := mkPutObject {
  Bucket : string;
  Key : string;
  Body : list Byte.byte;
  ContentType : string;
  ACL : string
}.

(** Every call the program makes into the runtime, the file system or the
    network, with its arguments. *)
Inductive Event :=
| EvStatSync (path : string)
| EvEnvGet (key : string)
| EvEnsureDir (dir : string)
| EvReadFile (path : string)
| EvFilesUpload (apiKey fileName fileType : string) (content : list Byte.byte)
    (purpose : string)
| EvGetSignedUrl (apiKey fileId : string)
| EvOcrProcess (apiKey model documentUrl : string) (includeImageBase64 : bool)
| EvNewDate
| EvS3Send (client : S3Client) (command : PutObjectCommand)
| EvWriteTextFile (path : Path) (content : string)
| EvConsoleError (e : AppError)
| EvExit (code : Z)
| EvUncaught (e : Js.Error).

(** The calls that go over the network. *)
Definition is_network (ev : Event) : bool :=
  match ev with
  | EvFilesUpload _ _ _ _ _ | EvGetSignedUrl _ _ | EvOcrProcess _ _ _ _
  | EvS3Send _ _ => true
  | _ => false
  end.

(** What the world answers.  The clock, the bucket and the file writes are
    asked many times in a run, so their answer may depend on everything that
    happened before (the trace so far). *)
Record Host := mkHost {
  Deno_args : list string;
  Deno_env : gmap string string;
  Deno_statSync : string → Completion FileInfo;
  ensureDir : string → Completion ();
  Deno_readFile : string → Completion (list Byte.byte);
  basename : string → string;
  files_upload : string → string → list Byte.byte → Completion string;
  files_getSignedUrl : string → string → Completion string;
  ocr_process : string → string → Completion (list OCRPageObject);
  new_Date : list Event → Date;
  client_send : list Event → S3Client → PutObjectCommand → Completion ();
  Deno_writeTextFile : list Event → Path → string → Completion ()
}.

(** ** The effect monad: a trace of events, and exceptions *)

Definition Eff (A : Type) : Type := list Event → Completion A * list Event.

Definition ret {A} (a : A) : Eff A := λ t, (Return a, t).

Definition bind {A B} (m : Eff A) (k : A → Eff B) : Eff B :=
  λ t, match m t with
       | (Return a, t') => k a t'
       | (Throw e, t') => (Throw e, t')
       end.

Notation "'let*' x := m 'in' k" := (bind m (λ x, k))
  (at level 10, x name, m at level 200, k at level 200, only parsing).

(** A call into the world: the call is recorded, then the world answers. *)
Definition call {A} (ev : Event) (answer : list Event → Completion A) : Eff A :=
  λ t, (answer t, (t ++ [ev])%list).

(** A completion computed by a library function, taken into the monad. *)
Definition lift {A} (c : Completion A) : Eff A := λ t, (c, t).

(** [try { m } catch { handler }] *)
Definition try_catch {A} (m : Eff A) (handler : Js.Error → Eff A) : Eff A :=
  λ t, match m t with
       | (Return a, t') => (Return a, t')
       | (Throw e, t') => handler e t'
       end.

(** [ResultAsync.fromPromise(promise, errorFn)]: a rejection becomes an
    [Err], and nothing is thrown any more. *)
Definition fromPromise {A E} (promise : Eff A) (errorFn : Js.Error → E)
  : Eff (Result A E) :=
  λ t, match promise t with
       | (Return a, t') => (Return (Ok a), t')
       | (Throw e, t') => (Return (Err (errorFn e)), t')
       end.

(* ===================================================================== *)
(** * [main.ts]: the program *)
(* ===================================================================== *)

(** ** [getCliArgs] *)

Definition cliOptions : NodeUtil.Options :=
  [ ("input", NodeUtil.mkOption NodeUtil.TString (Some "i"%char));
    ("outDir", NodeUtil.mkOption NodeUtil.TString (Some "o"%char)) ].

(** [values.input] at its declared type [string | undefined]: for the
    options of this program the parser only stores strings
    ([parseArgs_values_are_strings]). *)
Definition stringValue (values : gmap string NodeUtil.ArgValue) (key : string)
  : option string :=
  match values !! key with
  | Some (NodeUtil.VString s) => Some s
  | _ => None
  end.

Definition statSync (h : Host) (path : string) : Eff FileInfo :=
  call (EvStatSync path) (λ _, Deno_statSync h path).

(** The two [try] blocks return from the function on a failed check and fall
    through otherwise: [Some r] stands for [return r].  Past the two [!]
    tests [input] and [outDir] are strings, which [default ""] unwraps. *)
Definition getCliArgs (h : Host) : Eff (Result Args AppError) :=
  let* parsed := lift (NodeUtil.parseArgs (Deno_args h) cliOptions false) in
  let input := stringValue parsed.1 "input" in
  let outDir := stringValue parsed.1 "outDir" in
  if negb (truthy input)
  then ret (Err (ValidationError "args.input が見つかりません"))
  else if negb (truthy outDir)
  then ret (Err (ValidationError "args.outDir が見つかりません"))
  else
    let input := default "" input in
    let outDir := default "" outDir in
    let* returned :=
      try_catch
        (let* statIn := statSync h input in
         if negb (isFile statIn)
         then ret (Some (Err (ValidationError "args.input はファイルではありません")))
         else ret None)
        (λ _, ret (Some (Err (ValidationError "args.input が存在しません")))) in
    match returned with
    | Some r => ret r
    | None =>
        let* returned :=
          try_catch
            (let* statOut := statSync h outDir in
             if negb (isDirectory statOut)
             then ret (Some (Err (ValidationError
                                    "args.outDir はディレクトリではありません")))
             else ret None)
            (λ _, ret (Some (Err (ValidationError "args.outDir が存在しません")))) in
        match returned with
        | Some r => ret r
        | None => ret (Ok (mkArgs input outDir))
        end
    end.

(** ** [getEnvs] *)

Definition env_get (h : Host) (key : string) : Eff (option string) :=
  call (EvEnvGet key) (λ _, Return (Deno_env h !! key)).

Definition getEnvs (h : Host) : Eff (Result Env AppError) :=
  let* MISTRAL_OCR_API_KEY := env_get h "MISTRAL_OCR_API_KEY" in
  let* R2_S3_URL := env_get h "R2_S3_URL" in
  let* R2_ACCESS_KEY_ID := env_get h "R2_ACCESS_KEY_ID" in
  let* R2_SECRET_ACCESS_KEY := env_get h "R2_SECRET_ACCESS_KEY" in
  let* R2_BUCKET_NAME := env_get h "R2_BUCKET_NAME" in
  let* R2_PUBLIC_URL := env_get h "R2_PUBLIC_URL" in
  if negb (truthy MISTRAL_OCR_API_KEY)
  then ret (Err (ValidationError "MISTRAL_OCR_API_KEY が見つかりません"))
  else if negb (truthy R2_S3_URL)
  then ret (Err (ValidationError "R2_S3_URL が見つかりません"))
  else if negb (truthy R2_ACCESS_KEY_ID)
  then ret (Err (ValidationError "R2_ACCESS_KEY_ID が見つかりません"))
  else if negb (truthy R2_SECRET_ACCESS_KEY)
  then ret (Err (ValidationError "R2_SECRET_ACCESS_KEY が見つかりません"))
  else if negb (truthy R2_BUCKET_NAME)
  then ret (Err (ValidationError "R2_BUCKET_NAME が見つかりません"))
  else if negb (truthy R2_PUBLIC_URL)
  then ret (Err (ValidationError "R2_PUBLIC_URL が見つかりません"))
  else ret (Ok (mkEnv (default "" MISTRAL_OCR_API_KEY) (default "" R2_S3_URL)
                  (default "" R2_ACCESS_KEY_ID) (default "" R2_SECRET_ACCESS_KEY)
                  (default "" R2_BUCKET_NAME) (default "" R2_PUBLIC_URL))).

(** ** [processOcr] *)

Definition processOcr (h : Host) (apiKey pdfPath : string)
  : Eff (Result (list OCRPageObject) AppError) :=
  fromPromise
    (let* pdfBytes := call (EvReadFile pdfPath) (λ _, Deno_readFile h pdfPath) in
     let fileName := basename h pdfPath in
     let* uploaded :=
       call (EvFilesUpload apiKey fileName "application/pdf" pdfBytes "ocr")
         (λ _, files_upload h apiKey fileName pdfBytes) in
     let* signed :=
       call (EvGetSignedUrl apiKey uploaded)
         (λ _, files_getSignedUrl h apiKey uploaded) in
     call (EvOcrProcess apiKey "mistral-ocr-latest" signed true)
       (λ _, ocr_process h apiKey signed))
    (λ _err, SystemError "OCR 処理に失敗しました").

(** ** [uploadImages] *)

(** [\w] of a regular expression without flags. *)
Definition isWordChar (c : ascii) : bool :=
  let n := N_of_ascii c in
  ((65 <=? n)%N && (n <=? 90)%N) || ((97 <=? n)%N && (n <=? 122)%N)
  || ((48 <=? n)%N && (n <=? 57)%N) || (n =? 95)%N.

(** The longest run of word characters at the start, and what follows it. *)
Fixpoint spanWord (s : string) : string * string :=
  match s with
  | "" => ("", "")
  | String c rest =>
      if isWordChar c
      then let '(w, r) := spanWord rest in (String c w, r)
      else ("", s)
  end.

(** [s] without the prefix [p], when it starts with it. *)
Fixpoint stripPrefix (p s : string) : option string :=
  match p with
  | "" => Some s
  | String a p' =>
      match s with
      | String b s' => if Ascii.eqb a b then stripPrefix p' s' else None
      | "" => None
      end
  end.

(** What follows a match of [/^data:image\/\w+;base64,/], if there is one.
    [\w+] is greedy and [';'] is not a word character, so the run of word
    characters is matched whole. *)
Definition matchDataUriPrefix (s : string) : option string :=
  match stripPrefix "data:image/" s with
  | Some rest =>
      match spanWord rest with
      | ("", _) => None
      | (_, rest') => stripPrefix ";base64," rest'
      end
  | None => None
  end.

(** [.replace(/^data:image\/\w+;base64,/, "")] *)
Definition replaceDataUriPrefix (s : string) : string :=
  default s (matchDataUriPrefix s).

(** [\s] on the first bytes of a string: the length of the encoding of the
    white space or line terminator character that starts it, or 0.
    TAB LF VT FF CR SPACE; U+00A0; U+1680; U+2000..U+200A, U+2028, U+2029,
    U+202F, U+205F; U+3000; U+FEFF. *)
Definition whiteSpaceAt (s : string) : nat :=
  match s with
  | String c1 s1 =>
      let n1 := N_of_ascii c1 in
      if ((9 <=? n1)%N && (n1 <=? 13)%N) || (n1 =? 32)%N then 1%nat
      else match s1 with
           | String c2 s2 =>
               let n2 := N_of_ascii c2 in
               if (n1 =? 194)%N && (n2 =? 160)%N then 2%nat
               else match s2 with
                    | String c3 _ =>
                        let n3 := N_of_ascii c3 in
                        if (n1 =? 225)%N && (n2 =? 154)%N && (n3 =? 128)%N
                        then 3%nat
                        else if (n1 =? 226)%N && (n2 =? 128)%N &&
                                (((128 <=? n3)%N && (n3 <=? 138)%N)
                                 || (n3 =? 168)%N || (n3 =? 169)%N
                                 || (n3 =? 175)%N)
                        then 3%nat
                        else if (n1 =? 226)%N && (n2 =? 129)%N && (n3 =? 159)%N
                        then 3%nat
                        else if (n1 =? 227)%N && (n2 =? 128)%N && (n3 =? 128)%N
                        then 3%nat
                        else if (n1 =? 239)%N && (n2 =? 187)%N && (n3 =? 191)%N
                        then 3%nat
                        else 0%nat
                    | "" => 0%nat
                    end
           | "" => 0%nat
           end
  | "" => 0%nat
  end.

(** [.replace(/\s+/g, "")] *)
Fixpoint replaceWhiteSpace (s : string) : string :=
  match s with
  | "" => ""
  | String c1 s1 =>
      match whiteSpaceAt s with
      | 0%nat => String c1 (replaceWhiteSpace s1)
      | 1%nat => replaceWhiteSpace s1
      | 2%nat =>
          match s1 with
          | String _ s2 => replaceWhiteSpace s2
          | "" => ""
          end
      | _ =>
          match s1 with
          | String _ (String _ s3) => replaceWhiteSpace s3
          | _ => ""
          end
      end
  end.

(** [yyyy-mm-dd] of the local date. *)
Definition ymd_of (today : Date) : string :=
  let yyyy := getFullYear today in
  let mm := padStart 2 "0" (String_of_number (getMonth today + 1)) in
  let dd := padStart 2 "0" (String_of_number (getDate today)) in
  String_of_number yyyy +:+ "-" +:+ mm +:+ "-" +:+ dd.

(** The [for] loop over the images; [uploaded] is the array built so far. *)
Fixpoint uploadLoop (h : Host) (client : S3Client)
    (bucketName publicUrl ymd : string) (images : list OCRImage)
    (uploaded : ImageMap) : Eff ImageMap :=
  match images with
  | [] => ret uploaded
  | img :: images' =>
      if negb (truthy (imageBase64 img))
      then uploadLoop h client bucketName publicUrl ymd images' uploaded
      else
        let base64 :=
          replaceWhiteSpace
            (replaceDataUriPrefix (default "" (imageBase64 img))) in
        let* body := lift (decodeBase64 base64) in
        let key := "paper/" +:+ ymd +:+ "/" +:+ id img +:+ ".png" in
        let command := mkPutObject bucketName key body "image/png" "public-read" in
        let* _ := call (EvS3Send client command)
                    (λ t, client_send h t client command) in
        uploadLoop h client bucketName publicUrl ymd images'
          (uploaded ++ [mkUploaded (id img) (publicUrl +:+ "/" +:+ key)])%list
  end.

Definition uploadImages (h : Host)
    (bucketName s3Url accessKeyId secretAccessKey publicUrl : string)
    (images : list OCRImage) : Eff (Result ImageMap AppError) :=
  let client := mkS3Client "auto" s3Url accessKeyId secretAccessKey in
  fromPromise
    (let* today := call EvNewDate (λ t, Return (new_Date h t)) in
     let ymd := ymd_of today in
     uploadLoop h client bucketName publicUrl ymd images [])
    (λ e, SystemError ("画像のアップロードに失敗しました: " +:+ Error_toString e)).

(** ** [generateMarkdown] *)

Definition LF : string := String "010" "".

(** The inner [for] loop: the lines pushed for the images of one page.  The
    argument [images] of the source is called [imageMap] here, next to the
    field [images] of a page. *)
Definition pushImages (imageMap : ImageMap) (imgs : list OCRImage)
    (lines : list string) : list string :=
  fold_left
    (λ lines img,
       match List.find (λ u, bool_decide (uploaded_id u = id img)) imageMap with
       | None => lines
       | Some uploaded =>
           (lines ++ ["![" +:+ id img +:+ "](" +:+ url uploaded +:+ ")"; ""])%list
       end)
    imgs lines.

(** The array [lines] of one page when it is written. *)
Definition pageLines (imageMap : ImageMap) (object : OCRPageObject)
  : list string :=
  pushImages imageMap (images object)
    ["# Page " +:+ String_of_number (index object + 1); ""; markdown object; ""].

Definition writeTextFile (h : Host) (path : Path) (content : string) : Eff () :=
  call (EvWriteTextFile path content) (λ t, Deno_writeTextFile h t path content).

(** The outer [for] loop; [combinedLines] is the array built so far. *)
Fixpoint pagesLoop (h : Host) (imageMap : ImageMap) (outDir : string)
    (objects : list OCRPageObject) (combinedLines : list string)
  : Eff (list string) :=
  match objects with
  | [] => ret combinedLines
  | object :: objects' =>
      let lines := pageLines imageMap object in
      let filePath :=
        join outDir ("page-" +:+ String_of_number (index object + 1) +:+ ".md") in
      let* _ := writeTextFile h filePath (Array_join LF lines) in
      pagesLoop h imageMap outDir objects' (combinedLines ++ lines ++ [""])%list
  end.

Definition generateMarkdown (h : Host) (objects : list OCRPageObject)
    (imageMap : ImageMap) (outDir : string) : Eff (Result () AppError) :=
  fromPromise
    (let* combinedLines := pagesLoop h imageMap outDir objects [] in
     let combinedPath := join outDir "all-pages.md" in
     writeTextFile h combinedPath (Array_join LF combinedLines))
    (λ e, SystemError ("マークダウンの生成に失敗しました: " +:+ Error_toString e)).

(** ** [main] and the module's top level *)

Definition main (h : Host) : Eff (Result () AppError) :=
  let* cli := getCliArgs h in
  match cli with
  | Err error => ret (Err error)
  | Ok args =>
      let* envs := getEnvs h in
      match envs with
      | Err error => ret (Err error)
      | Ok env =>
          let* dirResult :=
            fromPromise
              (call (EvEnsureDir (outDir args)) (λ _, ensureDir h (outDir args)))
              (λ _err, SystemError "ディレクトリの作成に失敗しました") in
          match dirResult with
          | Err error => ret (Err error)
          | Ok _ =>
              let* ocrResult :=
                processOcr h (MISTRAL_OCR_API_KEY env) (input args) in
              match ocrResult with
              | Err error => ret (Err error)
              | Ok ocrPageObject =>
                  let* imageUploadResult :=
                    uploadImages h (R2_BUCKET_NAME env) (R2_S3_URL env)
                      (R2_ACCESS_KEY_ID env) (R2_SECRET_ACCESS_KEY env)
                      (R2_PUBLIC_URL env)
                      (flat_map images ocrPageObject) in
                  match imageUploadResult with
                  | Err error => ret (Err error)
                  | Ok imageMap =>
                      let* mdResult :=
                        generateMarkdown h ocrPageObject imageMap (outDir args) in
                      match mdResult with
                      | Err error => ret (Err error)
                      | Ok _ => ret (Ok ())
                      end
                  end
              end
          end
      end
  end.

(** The process: [main] is awaited; an [Err] is printed and the process
    exits with 1; an exception nobody catches ends the process with 1 as
    well; otherwise the process ends by itself, with 0.  The result is the
    exit code and the complete trace. *)
Definition run (h : Host) : Z * list Event :=
  match main h [] with
  | (Return (Ok _), t) => (0, t)
  | (Return (Err err), t) => (1, (t ++ [EvConsoleError err; EvExit 1])%list)
  | (Throw e, t) => (1, (t ++ [EvUncaught e])%list)
  end.

(* ===================================================================== *)
(** * Vocabulary of the statements *)
(* ===================================================================== *)

(** An embedded image has inline bytes when its payload is a non-empty
    string. *)
Definition hasBytes (img : OCRImage) : Prop := truthy (imageBase64 img) = true.

Global Instance hasBytes_dec img : Decision (hasBytes img).
Proof. unfold hasBytes. apply _. Defined.

(** The string handed to the decoder for an image. *)
Definition cleaned (img : OCRImage) : string :=
  replaceWhiteSpace (replaceDataUriPrefix (default "" (imageBase64 img))).

Definition keyOf (ymd : string) (img : OCRImage) : string :=
  "paper/" +:+ ymd +:+ "/" +:+ id img +:+ ".png".

(** [<publicBaseUrl>/paper/<date>/<id>.png] *)
Definition urlOf (publicUrl ymd : string) (img : OCRImage) : string :=
  publicUrl +:+ "/paper/" +:+ ymd +:+ "/" +:+ id img +:+ ".png".

Definition published (publicUrl ymd : string) (img : OCRImage) : Uploaded :=
  mkUploaded (id img) (urlOf publicUrl ymd img).

Definition commandOf (bucketName ymd : string) (img : OCRImage)
    (body : list Byte.byte) : PutObjectCommand :=
  mkPutObject bucketName (keyOf ymd img) body "image/png" "public-read".

(** The upload of the decoded bytes of [img]. *)
Definition uploadOf (client : S3Client) (bucketName ymd : string)
    (img : OCRImage) (ev : Event) : Prop :=
  ∃ body, decodeBase64 (cleaned img) = Return body ∧
    ev = EvS3Send client (commandOf bucketName ymd img body).

(** An upload for some image of [imgs] that has bytes, under the date
    [ymd]. *)
Definition sendOf (client : S3Client) (bucketName ymd : string)
    (imgs : list OCRImage) (ev : Event) : Prop :=
  ∃ img body, img ∈ imgs ∧ hasBytes img ∧
    ev = EvS3Send client (commandOf bucketName ymd img body).

(** The url the mapping gives for an id: that of the first entry with it. *)
Definition lookupUrl (imageMap : ImageMap) (i : string) : option string :=
  url <$> List.find (λ u, bool_decide (uploaded_id u = i)) imageMap.

(** [![<id>](<url>)] *)
Definition imageRef (i u : string) : string := "![" +:+ i +:+ "](" +:+ u +:+ ")".

(** The references of the images of a page, in the order of the page, for
    the images whose id the mapping knows. *)
Definition imageRefs (imageMap : ImageMap) (imgs : list OCRImage) : list string :=
  omap (λ img, imageRef (id img) <$> lookupUrl imageMap (id img)) imgs.

Definition pageFile (outDir : string) (object : OCRPageObject) : Path :=
  join outDir ("page-" +:+ String_of_number (index object + 1) +:+ ".md").

Definition pageContent (imageMap : ImageMap) (object : OCRPageObject) : string :=
  Array_join LF (pageLines imageMap object).

(** The content of [all-pages.md] for the contents of the pages: they are
    concatenated with two line breaks in between, and a line break ends the
    file. *)
Definition combinedContent (contents : list string) : string :=
  match contents with
  | [] => ""
  | _ :: _ => Array_join (LF +:+ LF) contents +:+ LF
  end.

(** The write of the file of a page. *)
Definition pageWrite (imageMap : ImageMap) (outDir : string)
    (object : OCRPageObject) : Event :=
  EvWriteTextFile (pageFile outDir object) (pageContent imageMap object).

(** The files a trace writes, in order. *)
Definition filesWritten (tr : list Event) : list Path :=
  omap (λ ev, match ev with EvWriteTextFile p _ => Some p | _ => None end) tr.

Definition isPageFile (p : Path) : Prop :=
  String.prefix "page-" (path_name p) = true.

Global Instance isPageFile_dec p : Decision (isPageFile p).
Proof. unfold isPageFile. apply _. Defined.

Global Instance Path_countable : Countable Path.
Proof.
  apply (inj_countable' (λ p, (path_dir p, path_name p))
                        (λ '(d, n), mkPath d n)).
  by intros [].
Qed.

(** The stages of the pipeline, and the stage a call belongs to. *)
Inductive Stage :=
| StCli | StEnv | StDir | StOcr | StUpload | StMarkdown | StBoundary.

Definition stage_of (ev : Event) : Stage :=
  match ev with
  | EvStatSync _ => StCli
  | EvEnvGet _ => StEnv
  | EvEnsureDir _ => StDir
  | EvReadFile _ | EvFilesUpload _ _ _ _ _ | EvGetSignedUrl _ _
  | EvOcrProcess _ _ _ _ => StOcr
  | EvNewDate | EvS3Send _ _ => StUpload
  | EvWriteTextFile _ _ => StMarkdown
  | EvConsoleError _ | EvExit _ | EvUncaught _ => StBoundary
  end.

Definition rank (s : Stage) : nat :=
  match s with
  | StCli => 0 | StEnv => 1 | StDir => 2 | StOcr => 3 | StUpload => 4
  | StMarkdown => 5 | StBoundary => 6
  end.

(** The short-circuiting composition of two stages: the second runs on the
    value of the first, and an error of the first is the result. *)
Definition andThen {A B E} (m : Eff (Result A E)) (k : A → Eff (Result B E))
  : Eff (Result B E) :=
  let* r := m in
  match r with
  | Ok a => k a
  | Err e => ret (Err e)
  end.

(** The creation of the output directory, as [main] wraps it. *)
Definition ensureOutDir (h : Host) (outDir : string) : Eff (Result () AppError) :=
  fromPromise (call (EvEnsureDir outDir) (λ _, ensureDir h outDir))
    (λ _err, SystemError "ディレクトリの作成に失敗しました").

(** The pipeline in the words of the design: six stages composed in this
    order, each running on what the earlier ones returned. *)
Definition pipeline (h : Host) : Eff (Result () AppError) :=
  andThen (getCliArgs h) (λ args,
  andThen (getEnvs h) (λ env,
  andThen (ensureOutDir h (outDir args)) (λ _,
  andThen (processOcr h (MISTRAL_OCR_API_KEY env) (input args)) (λ ocrPageObject,
  andThen (uploadImages h (R2_BUCKET_NAME env) (R2_S3_URL env)
             (R2_ACCESS_KEY_ID env) (R2_SECRET_ACCESS_KEY env)
             (R2_PUBLIC_URL env) (flat_map images ocrPageObject)) (λ imageMap,
  generateMarkdown h ocrPageObject imageMap (outDir args)))))).

(** The configuration values in the order they are checked. *)
Definition requiredKeys : list string :=
  [ "MISTRAL_OCR_API_KEY"; "R2_S3_URL"; "R2_ACCESS_KEY_ID";
    "R2_SECRET_ACCESS_KEY"; "R2_BUCKET_NAME"; "R2_PUBLIC_URL" ].

(** A value is missing when it is unset or empty. *)
Definition missing (h : Host) (key : string) : bool :=
  negb (truthy (Deno_env h !! key)).

Definition no_network (tr : list Event) : Prop :=
  Forall (λ ev, is_network ev = false) tr.

(** A string of word characters. *)
Fixpoint allWord (s : string) : bool :=
  match s with
  | "" => true
  | String c s' => isWordChar c && allWord s'
  end.

(** A character of a base64 text: the alphabet and the padding. *)
Definition isBase64Char (c : ascii) : bool :=
  match base64Value c with Some _ => true | None => Ascii.eqb c "=" end.

Fixpoint allBase64 (s : string) : bool :=
  match s with
  | "" => true
  | String c s' => isBase64Char c && allBase64 s'
  end.

(** Calls in the order of the stages. *)
Definition stage_le (ev1 ev2 : Event) : Prop :=
  (rank (stage_of ev1) ≤ rank (stage_of ev2))%nat.

Definition inStageOrder (tr : list Event) : Prop := StronglySorted stage_le tr.

(** A computation whose calls all belong to the stage [s]. *)
Definition emits {A} (m : Eff A) (s : Stage) : Prop :=
  ∀ t, ∃ evs, (m t).2 = (t ++ evs)%list ∧ Forall (λ ev, stage_of ev = s) evs.

(** A computation whose calls are in stage order, from rank [n] on. *)
Definition orderedFrom {A} (m : Eff A) (n : nat) : Prop :=
  ∀ t, ∃ evs, (m t).2 = (t ++ evs)%list ∧ inStageOrder evs ∧
              Forall (λ ev, (n ≤ rank (stage_of ev))%nat) evs.

(* ===================================================================== *)
(** * A world to run the program in *)
(* ===================================================================== *)

(** The scenario of the design: a PDF of two pages, the first with one
    image that comes with bytes, the second with one that comes without. *)
Definition demoEnv : gmap string string :=
  list_to_map
    [ ("MISTRAL_OCR_API_KEY", "key"); ("R2_S3_URL", "https://s3.example");
      ("R2_ACCESS_KEY_ID", "ak"); ("R2_SECRET_ACCESS_KEY", "sk");
      ("R2_BUCKET_NAME", "bucket"); ("R2_PUBLIC_URL", "https://pub.example") ].

Definition demoImage1 : OCRImage :=
  mkImage "img-1" (Some "data:image/png;base64,QUJD") None None None None.

Definition demoImage2 : OCRImage := mkImage "img-2" None None None None None.

Definition demoPages : list OCRPageObject :=
  [ mkPage 0 "hello" [demoImage1] None; mkPage 1 "world" [demoImage2] None ].

Definition demoArgs : list string := ["-i"; "in.pdf"; "-o"; "out"].

(** [in.pdf] is a file, [out] a directory, and nothing else exists. *)
Definition demoStat (path : string) : Completion FileInfo :=
  if bool_decide (path = "in.pdf") then Return (mkFileInfo true false)
  else if bool_decide (path = "out") then Return (mkFileInfo false true)
  else Throw (mkError "NotFound" "No such file or directory").

Definition demoDate : Date := mkDate 2025 0 5.

(** A world where every service answers, but for the given arguments,
    environment, pages, clock, bucket and file writes. *)
Definition demoHost (args : list string) (env : gmap string string)
    (pages : list OCRPageObject) (clock : list Event → Date)
    (send : list Event → S3Client → PutObjectCommand → Completion ())
    (write : list Event → Path → string → Completion ()) : Host :=
  {| Deno_args := args;
     Deno_env := env;
     Deno_statSync := demoStat;
     ensureDir := λ _, Return ();
     Deno_readFile := λ _, Return [];
     basename := λ path, path;
     files_upload := λ _ _ _, Return "file-1";
     files_getSignedUrl := λ _ _, Return "https://signed.example";
     ocr_process := λ _ _, Return pages;
     new_Date := clock;
     client_send := send;
     Deno_writeTextFile := write |}.

Definition demoWorld : Host :=
  demoHost demoArgs demoEnv demoPages (λ _, demoDate)
    (λ _ _ _, Return ()) (λ _ _ _, Return ()).

(** A clock that passes midnight after the first upload: the year changes
    as soon as the trace holds more than the reading of the clock. *)
Definition midnightClock (t : list Event) : Date :=
  if (length t <=? 1)%nat then mkDate 2025 11 31 else mkDate 2026 0 1.

Definition demoImage3 : OCRImage :=
  mkImage "img-3" (Some "QUJD") None None None None.

Definition midnightWorld : Host :=
  demoHost demoArgs demoEnv demoPages midnightClock
    (λ _ _ _, Return ()) (λ _ _ _, Return ()).

(** The six white space characters below 128: TAB, LF, VT, FF, CR, SPACE. *)
Definition isSpaceChar (c : ascii) : bool :=
  let n := N_of_ascii c in
  ((9 <=? n)%N && (n <=? 13)%N) || (n =? 32)%N.

Fixpoint removeSpaceChars (s : string) : string :=
  match s with
  | "" => ""
  | String c s' =>
      if isSpaceChar c then removeSpaceChars s' else String c (removeSpaceChars s')
  end.

(** A string of characters below 128. *)
Fixpoint allAscii (s : string) : bool :=
  match s with
  | "" => true
  | String c s' => (N_of_ascii c <? 128)%N && allAscii s'
  end.

Definition svgImage : OCRImage :=
  mkImage "img-4" (Some "data:image/svg+xml;base64,QUJD") None None None None.

(** A bucket that refuses every upload, for the given reason. *)
Definition refusingWorld (reason : string) : Host :=
  demoHost demoArgs demoEnv demoPages (λ _, demoDate)
    (λ _ _ _, Throw (mkError "Error" reason)) (λ _ _ _, Return ()).

(** The demo world without the key of the OCR service. *)
Definition keylessWorld : Host :=
  demoHost demoArgs (delete "MISTRAL_OCR_API_KEY" demoEnv) demoPages
    (λ _, demoDate) (λ _ _ _, Return ()) (λ _ _ _, Return ()).

(** How far a run that starts with an empty trace has come: every stage
    starts on the trace the stage before it left on its success. *)
Definition cliOk (h : Host) (args : Args) (t1 : list Event) : Prop :=
  getCliArgs h [] = (Return (Ok args), t1).

Definition envOk (h : Host) (args : Args) (env : Env) (t2 : list Event) : Prop :=
  ∃ t1, cliOk h args t1 ∧ getEnvs h t1 = (Return (Ok env), t2).

Definition dirOk (h : Host) (args : Args) (env : Env) (t3 : list Event) : Prop :=
  ∃ t2, envOk h args env t2 ∧
        ensureOutDir h (outDir args) t2 = (Return (Ok ()), t3).

Definition ocrOk (h : Host) (args : Args) (env : Env)
    (pages : list OCRPageObject) (t4 : list Event) : Prop :=
  ∃ t3, dirOk h args env t3 ∧
        processOcr h (MISTRAL_OCR_API_KEY env) (input args) t3
        = (Return (Ok pages), t4).

Definition publish (h : Host) (env : Env) (pages : list OCRPageObject)
  : Eff (Result ImageMap AppError) :=
  uploadImages h (R2_BUCKET_NAME env) (R2_S3_URL env) (R2_ACCESS_KEY_ID env)
    (R2_SECRET_ACCESS_KEY env) (R2_PUBLIC_URL env) (flat_map images pages).

Definition uploadOk (h : Host) (args : Args) (env : Env)
    (pages : list OCRPageObject) (imageMap : ImageMap) (t5 : list Event) : Prop :=
  ∃ t4, ocrOk h args env pages t4 ∧
        publish h env pages t4 = (Return (Ok imageMap), t5).

Definition markdownOk (h : Host) (t6 : list Event) : Prop :=
  ∃ args env pages imageMap t5,
    uploadOk h args env pages imageMap t5 ∧
    generateMarkdown h pages imageMap (outDir args) t5 = (Return (Ok ()), t6).

(** Some stage has returned the error [e] after the success of all the
    stages before it, and has left the trace [t]. *)
Definition stoppedBy (h : Host) (e : AppError) (t : list Event) : Prop :=
  getCliArgs h [] = (Return (Err e), t)
  ∨ (∃ args t1, cliOk h args t1 ∧ getEnvs h t1 = (Return (Err e), t))
  ∨ (∃ args env t2, envOk h args env t2 ∧
                    ensureOutDir h (outDir args) t2 = (Return (Err e), t))
  ∨ (∃ args env t3, dirOk h args env t3 ∧
                    processOcr h (MISTRAL_OCR_API_KEY env) (input args) t3
                    = (Return (Err e), t))
  ∨ (∃ args env pages t4, ocrOk h args env pages t4 ∧
                          publish h env pages t4 = (Return (Err e), t))
  ∨ (∃ args env pages imageMap t5,
       uploadOk h args env pages imageMap t5 ∧
       generateMarkdown h pages imageMap (outDir args) t5 = (Return (Err e), t)).

(** The result of [main] when [getCliArgs] has not returned arguments. *)
Definition sameFailure (r : Completion (Result Args AppError))
  : Completion (Result () AppError) :=
  match r with
  | Return (Err e) => Return (Err e)
  | Throw e => Throw e
  | Return (Ok _) => Return (Ok ())
  end.

(** The demo world called with one more argument, a positional one. *)
Definition positionalWorld : Host :=
  demoHost ["-i"; "in.pdf"; "-o"; "out"; "notes.txt"] demoEnv demoPages
    (λ _, demoDate) (λ _ _ _, Return ()) (λ _ _ _, Return ()).

(** The checks of [getCliArgs] on the parsed values, in their order, with
    the trace each one leaves. *)
Definition cliChecks (h : Host) (values : gmap string NodeUtil.ArgValue)
    (t : list Event) : Completion (Result Args AppError) * list Event :=
  let input := stringValue values "input" in
  let outDir := stringValue values "outDir" in
  let i := default "" input in
  let o := default "" outDir in
  if negb (truthy input)
  then (Return (Err (ValidationError "args.input が見つかりません")), t)
  else if negb (truthy outDir)
  then (Return (Err (ValidationError "args.outDir が見つかりません")), t)
  else match Deno_statSync h i with
       | Throw _ =>
           (Return (Err (ValidationError "args.input が存在しません")),
            (t ++ [EvStatSync i])%list)
       | Return statIn =>
           if negb (isFile statIn)
           then (Return (Err (ValidationError
                                "args.input はファイルではありません")),
                 (t ++ [EvStatSync i])%list)
           else match Deno_statSync h o with
                | Throw _ =>
                    (Return (Err (ValidationError "args.outDir が存在しません")),
                     (t ++ [EvStatSync i; EvStatSync o])%list)
                | Return statOut =>
                    if negb (isDirectory statOut)
                    then (Return (Err (ValidationError
                                 "args.outDir はディレクトリではありません")),
                          (t ++ [EvStatSync i; EvStatSync o])%list)
                    else (Return (Ok (mkArgs i o)),
                          (t ++ [EvStatSync i; EvStatSync o])%list)
                end
       end.

(** The same world with another environment. *)
Definition withEnv (h : Host) (env : gmap string string) : Host :=
  {| Deno_args := Deno_args h;
     Deno_env := env;
     Deno_statSync := Deno_statSync h;
     ensureDir := ensureDir h;
     Deno_readFile := Deno_readFile h;
     basename := basename h;
     files_upload := files_upload h;
     files_getSignedUrl := files_getSignedUrl h;
     ocr_process := ocr_process h;
     new_Date := new_Date h;
     client_send := client_send h;
     Deno_writeTextFile := Deno_writeTextFile h |}.

(** The demo world with an empty bucket name. *)
Definition emptyBucketWorld : Host :=
  withEnv demoWorld (<["R2_BUCKET_NAME" := ""]> demoEnv).

(* ===================================================================== *)
(** * Vocabulary and worlds of the further properties *)
(* ===================================================================== *)

(** A bucket that takes the first upload of a run and refuses the ones
    after it: the trace then holds the reading of the clock and one
    upload. *)
Definition fullAfterOne (t : list Event) (client : S3Client)
    (command : PutObjectCommand) : Completion () :=
  if (length t <=? 1)%nat then Return ()
  else Throw (mkError "Error" "quota exceeded").

Definition quotaWorld : Host :=
  demoHost demoArgs demoEnv demoPages (λ _, demoDate) fullAfterOne
    (λ _ _ _, Return ()).

Definition demoImage5 : OCRImage :=
  mkImage "img-5" (Some "REVG") None None None None.

(** The decimal digit [d], and the two decimal digits of a number below
    100. *)
Definition digitChar (d : Z) : ascii := ascii_of_N (48 + Z.to_N d).

Definition twoDigits (n : Z) : string :=
  String (digitChar (n / 10)) (String (digitChar (n mod 10)) "").

(** Some image of [imgs] with the id [i] has bytes. *)
Definition idHasBytes (imgs : list OCRImage) (i : string) : Prop :=
  Exists (λ img, hasBytes img ∧ id img = i) imgs.

Global Instance idHasBytes_dec imgs i : Decision (idHasBytes imgs i).
Proof. unfold idHasBytes. apply _. Defined.

(** An image that comes without bytes under the id of [demoImage1]. *)
Definition demoImage6 : OCRImage := mkImage "img-1" None None None None None.

(** The text a reference adds to the file of a page: an empty line, then the
    reference on a line of its own. *)
Definition refBlocks (refs : list string) : string :=
  foldr (λ ref text, LF +:+ ref +:+ LF +:+ text) "" refs.


(** The four calls of a complete OCR invocation. *)
Definition ocrCalls (h : Host) (apiKey pdfPath : string)
    (pdfBytes : list Byte.byte) (fileId signedUrl : string) : list Event :=
  [ EvReadFile pdfPath;
    EvFilesUpload apiKey (basename h pdfPath) "application/pdf" pdfBytes "ocr";
    EvGetSignedUrl apiKey fileId;
    EvOcrProcess apiKey "mistral-ocr-latest" signedUrl true ].

(** The demo world with a file that cannot be read. *)
Definition unreadableWorld : Host :=
  {| Deno_args := demoArgs;
     Deno_env := demoEnv;
     Deno_statSync := demoStat;
     ensureDir := λ _, Return ();
     Deno_readFile := λ _, Throw (mkError "PermissionDenied" "read access");
     basename := λ path, path;
     files_upload := λ _ _ _, Return "file-1";
     files_getSignedUrl := λ _ _, Return "https://signed.example";
     ocr_process := λ _ _, Return demoPages;
     new_Date := λ _, demoDate;
     client_send := λ _ _ _, Return ();
     Deno_writeTextFile := λ _ _ _, Return () |}.

(** A computation all of whose calls satisfy [P]. *)
Definition emitsOnly {A} (m : Eff A) (P : Event → Prop) : Prop :=
  ∀ t, ∃ evs, (m t).2 = (t ++ evs)%list ∧ Forall P evs.

(** The calls that validate the command line and read the configuration. *)
Definition validationCalls (args : Args) : list Event :=
  ([EvStatSync (input args); EvStatSync (outDir args)]
     ++ (EvEnvGet <$> requiredKeys))%list.

(** The arguments as [getCliArgs] reads them from the parsed values. *)
Definition argsOf (values : gmap string NodeUtil.ArgValue) : Args :=
  mkArgs (default "" (stringValue values "input"))
         (default "" (stringValue values "outDir")).

(** What a call may touch in the file system, given the arguments: the two
    paths are examined, the input is read, the output directory is created,
    and files are written in the output directory only, under the names
    [page-...] and [all-pages.md]. *)
Definition touches (args : Args) (ev : Event) : Prop :=
  match ev with
  | EvStatSync p => p = input args ∨ p = outDir args
  | EvReadFile p => p = input args
  | EvEnsureDir d => d = outDir args
  | EvWriteTextFile p _ =>
      path_dir p = outDir args ∧ (path_name p = "all-pages.md" ∨ isPageFile p)
  | _ => True
  end.

(** The input path is a regular file and the output path a directory. *)
Definition validPaths (h : Host) (args : Args) : Prop :=
  input args ≠ "" ∧ outDir args ≠ "" ∧
  (∃ statIn, Deno_statSync h (input args) = Return statIn ∧ isFile statIn = true) ∧
  (∃ statOut, Deno_statSync h (outDir args) = Return statOut ∧
              isDirectory statOut = true).

(** A disk that is full as soon as the trace holds more than [before]
    calls: with [before = 0] it takes the first file of a run of the
    Markdown assembler that starts on the empty trace, and no other. *)
Definition fullDisk (before : nat) (t : list Event) (path : Path)
    (content : string) : Completion () :=
  if (length t <=? before)%nat then Return ()
  else Throw (mkError "Error" "No space left on device").

Definition fullDiskWorld : Host :=
  demoHost demoArgs demoEnv demoPages (λ _, demoDate) (λ _ _ _, Return ())
    (fullDisk 0).

(** The demo world for a document without pages. *)
Definition emptyDocumentWorld : Host :=
  demoHost demoArgs demoEnv [] (λ _, demoDate) (λ _ _ _, Return ())
    (λ _ _ _, Return ()).

(** The stages of [main] that follow the command line, for the arguments
    it returned. *)
Definition afterCli (h : Host) (args : Args) : Eff (Result () AppError) :=
  andThen (getEnvs h) (λ env,
  andThen (ensureOutDir h (outDir args)) (λ _,
  andThen (processOcr h (MISTRAL_OCR_API_KEY env) (input args)) (λ ocrPageObject,
  andThen (uploadImages h (R2_BUCKET_NAME env) (R2_S3_URL env)
             (R2_ACCESS_KEY_ID env) (R2_SECRET_ACCESS_KEY env)
             (R2_PUBLIC_URL env) (flat_map images ocrPageObject)) (λ imageMap,
  generateMarkdown h ocrPageObject imageMap (outDir args))))).



(** The values [parseArgs] returns for an input and an output path. *)
Definition valuesOf (a b : string) : gmap string NodeUtil.ArgValue :=
  <["outDir" := NodeUtil.VString b]> (<["input" := NodeUtil.VString a]> ∅).

(** The demo world called with the long options, the output first. *)
Definition longOptionsWorld : Host :=
  demoHost ["--outDir"; "out"; "--input"; "in.pdf"] demoEnv demoPages
    (λ _, demoDate) (λ _ _ _, Return ()) (λ _ _ _, Return ()).


(** A token the strict parser of this program refuses: a positional
    argument, an option that is neither [input] nor [outDir], an option
    without a value, or an option whose value, taken from the next argument,
    looks like an option itself. *)
Definition rejected (tok : NodeUtil.Token) : Prop :=
  match tok with
  | NodeUtil.TokPositional _ => True
  | NodeUtil.TokTerminator => False
  | NodeUtil.TokOption name _ value =>
      (name ≠ "input" ∧ name ≠ "outDir")
      ∨ match value with
        | None => True
        | Some (v, inline) =>
            inline = false ∧ NodeUtil.isOptionLikeValue v = true
        end
  end.

Global Instance rejected_dec tok : Decision (rejected tok).
Proof. destruct tok as [name rawName [[v inline]|]| |]; simpl; apply _. Defined.

(** The value a token gives to the option [key], and the value the command
    line gives to it: that of the last token that names it. *)
Definition valueFor (key : string) (tok : NodeUtil.Token) : option string :=
  match tok with
  | NodeUtil.TokOption name _ (Some (v, _)) =>
      if bool_decide (name = key) then Some v else None
  | _ => None
  end.

Definition optionValue (key : string) (tokens : list NodeUtil.Token)
  : option string :=
  last (omap (valueFor key) tokens).

(** The demo world called without [--input] and with an option the program
    does not declare. *)
Definition unknownOptionWorld : Host :=
  demoHost ["-o"; "out"; "-x"] demoEnv demoPages
    (λ _, demoDate) (λ _ _ _, Return ()) (λ _ _ _, Return ()).

(** The demo world called without [--input]. *)
Definition noInputWorld : Host :=
  demoHost ["-o"; "out"] demoEnv demoPages
    (λ _, demoDate) (λ _ _ _, Return ()) (λ _ _ _, Return ()).

(* ===================================================================== *)
(** * Proofs *)
(* ===================================================================== *)

(** ** The models on small inputs *)

Example parseArgs_short_options :
  NodeUtil.parseArgs ["-i"; "in.pdf"; "-o"; "out"] cliOptions false
  = Return (<["outDir" := NodeUtil.VString "out"]>
              (<["input" := NodeUtil.VString "in.pdf"]> ∅), []).
Proof. reflexivity. Qed.

Example parseArgs_long_options :
  NodeUtil.parseArgs ["--input=in.pdf"; "--outDir"; "out"] cliOptions false
  = Return (<["outDir" := NodeUtil.VString "out"]>
              (<["input" := NodeUtil.VString "in.pdf"]> ∅), []).
Proof. reflexivity. Qed.

Example parseArgs_no_arguments :
  NodeUtil.parseArgs [] cliOptions false = Return (∅, []).
Proof. reflexivity. Qed.

Example parseArgs_unknown_option :
  NodeUtil.parseArgs ["-x"; "in.pdf"] cliOptions false
  = Throw (NodeUtil.ERR_PARSE_ARGS_UNKNOWN_OPTION "-x").
Proof. reflexivity. Qed.

Example parseArgs_value_missing :
  NodeUtil.parseArgs ["-o"; "out"; "-i"] cliOptions false
  = Throw (NodeUtil.ERR_PARSE_ARGS_INVALID_OPTION_VALUE
             "Option '-i, --input <value>' argument missing").
Proof. reflexivity. Qed.

Example decodeBase64_padded :
  decodeBase64 "QUI=" = Return [Byte.x41; Byte.x42] ∧
  decodeBase64 "QQ==" = Return [Byte.x41] ∧
  decodeBase64 "/+8=" = Return [Byte.xff; Byte.xef].
Proof. repeat split; reflexivity. Qed.

Example decodeBase64_rejects :
  decodeBase64 "Q" = Throw InvalidCharacterError ∧
  decodeBase64 "QQ=" = Throw InvalidCharacterError ∧
  decodeBase64 "data:QUJD" = Throw InvalidCharacterError.
Proof. repeat split; reflexivity. Qed.

(** White space of one, two and three bytes: a space, a line break, a
    no-break space and an ideographic space. *)
Example replaceWhiteSpace_all_kinds :
  replaceWhiteSpace
    ("Q U" +:+ LF +:+ "J" +:+ String "194" (String "160" "") +:+ "D　=")
  = "QUJD=".
Proof. reflexivity. Qed.

Example ymd_of_pads :
  ymd_of (mkDate 2025 0 5) = "2025-01-05" ∧
  ymd_of (mkDate 2025 11 31) = "2025-12-31".
Proof. split; reflexivity. Qed.

Example Error_toString_forms :
  Error_toString (mkError "Error" "timeout") = "Error: timeout" ∧
  Error_toString (mkError "" "timeout") = "timeout" ∧
  Error_toString (mkError "TypeError" "") = "TypeError".
Proof. repeat split; reflexivity. Qed.

(** The scenario of the design, from the command line to the exit code. *)
Example run_demoWorld :
  run demoWorld
  = (0,
     [ EvStatSync "in.pdf"; EvStatSync "out";
       EvEnvGet "MISTRAL_OCR_API_KEY"; EvEnvGet "R2_S3_URL";
       EvEnvGet "R2_ACCESS_KEY_ID"; EvEnvGet "R2_SECRET_ACCESS_KEY";
       EvEnvGet "R2_BUCKET_NAME"; EvEnvGet "R2_PUBLIC_URL";
       EvEnsureDir "out"; EvReadFile "in.pdf";
       EvFilesUpload "key" "in.pdf" "application/pdf" [] "ocr";
       EvGetSignedUrl "key" "file-1";
       EvOcrProcess "key" "mistral-ocr-latest" "https://signed.example" true;
       EvNewDate;
       EvS3Send (mkS3Client "auto" "https://s3.example" "ak" "sk")
         (mkPutObject "bucket" "paper/2025-01-05/img-1.png"
            [Byte.x41; Byte.x42; Byte.x43] "image/png" "public-read");
       EvWriteTextFile (join "out" "page-1.md")
         ("# Page 1" +:+ LF +:+ LF +:+ "hello" +:+ LF +:+ LF +:+
          "![img-1](https://pub.example/paper/2025-01-05/img-1.png)" +:+ LF);
       EvWriteTextFile (join "out" "page-2.md")
         ("# Page 2" +:+ LF +:+ LF +:+ "world" +:+ LF);
       EvWriteTextFile (join "out" "all-pages.md")
         ("# Page 1" +:+ LF +:+ LF +:+ "hello" +:+ LF +:+ LF +:+
          "![img-1](https://pub.example/paper/2025-01-05/img-1.png)" +:+ LF +:+
          LF +:+ LF +:+
          "# Page 2" +:+ LF +:+ LF +:+ "world" +:+ LF +:+ LF) ]).
Proof. reflexivity. Qed.

(** ** Strings and [Array_join] *)

Lemma append_cons x (a b : string) : String x a +:+ b = String x (a +:+ b).
Proof. reflexivity. Qed.

Lemma append_assoc (a b c : string) : (a +:+ b) +:+ c = a +:+ (b +:+ c).
Proof.
  induction a as [|x a IH]; [done|]. rewrite !append_cons. by rewrite IH.
Qed.

Lemma append_nil_r (a : string) : a +:+ "" = a.
Proof. induction a as [|x a IH]; [done|]. rewrite append_cons. by f_equal. Qed.

Lemma Array_join_cons sep x y l :
  Array_join sep (x :: y :: l) = x +:+ sep +:+ Array_join sep (y :: l).
Proof. done. Qed.

Lemma Array_join_app sep (l1 l2 : list string) :
  l1 ≠ [] → l2 ≠ [] →
  Array_join sep (l1 ++ l2) = Array_join sep l1 +:+ sep +:+ Array_join sep l2.
Proof.
  intros H1 H2. induction l1 as [|x l1 IH]; [done|].
  destruct l1 as [|y l1].
  - destruct l2 as [|z l2]; [done|]. done.
  - change ((x :: y :: l1) ++ l2)%list with (x :: y :: (l1 ++ l2))%list.
    rewrite !Array_join_cons.
    change (y :: (l1 ++ l2))%list with ((y :: l1) ++ l2)%list.
    rewrite IH by done. by rewrite !append_assoc.
Qed.

Lemma Array_join_snoc_empty sep (l : list string) :
  l ≠ [] → Array_join sep (l ++ [""]) = Array_join sep l +:+ sep.
Proof.
  intros H. rewrite Array_join_app by done. simpl. by rewrite append_nil_r.
Qed.

(** ** The inner loop of [generateMarkdown] *)

Lemma pushImages_app imageMap imgs lines :
  pushImages imageMap imgs lines
  = (lines ++ flat_map (λ l, [l; ""]) (imageRefs imageMap imgs))%list.
Proof.
  unfold pushImages, imageRefs. revert lines.
  induction imgs as [|img imgs IH]; intros lines; simpl.
  - by rewrite app_nil_r.
  - rewrite IH. unfold lookupUrl.
    destruct (List.find _ imageMap) as [u|]; simpl; [|done].
    by rewrite <- app_assoc.
Qed.

Lemma pageLines_eq imageMap object :
  pageLines imageMap object
  = flat_map (λ l, [l; ""])
      (("# Page " +:+ String_of_number (index object + 1))
         :: markdown object :: imageRefs imageMap (images object)).
Proof. unfold pageLines. by rewrite pushImages_app. Qed.

Lemma pageLines_nonempty imageMap object : pageLines imageMap object ≠ [].
Proof. by rewrite pageLines_eq. Qed.

Lemma lookupUrl_Some imageMap i :
  is_Some (lookupUrl imageMap i) ↔ ∃ u, u ∈ imageMap ∧ uploaded_id u = i.
Proof.
  unfold lookupUrl. induction imageMap as [|u m IH]; simpl.
  - split; [by intros [? ?]|]. intros (u & Hu & _). by apply elem_of_nil in Hu.
  - case_bool_decide as Hid; simpl.
    + split; [|by eauto]. intros _. exists u. split; [left|done].
    + rewrite IH. split.
      * intros (v & Hv & Hi). exists v. split; [by right|done].
      * intros (v & Hv & Hi). apply elem_of_cons in Hv as [->|Hv]; [done|].
        eauto.
Qed.

(** ** The upload loop *)

Section upload_loop.
Context (h : Host) (client : S3Client) (bucketName publicUrl ymd : string).

Lemma sendOf_cons img imgs ev :
  sendOf client bucketName ymd imgs ev →
  sendOf client bucketName ymd (img :: imgs) ev.
Proof.
  intros (i & b & Hi & Hb & ->). exists i, b. split; [by right|done].
Qed.

Lemma uploadLoop_skip img imgs acc :
  ¬ hasBytes img →
  uploadLoop h client bucketName publicUrl ymd (img :: imgs) acc
  = uploadLoop h client bucketName publicUrl ymd imgs acc.
Proof.
  unfold hasBytes. intros Hb. simpl.
  by destruct (truthy (imageBase64 img)).
Qed.

Lemma uploadLoop_bytes img imgs acc t :
  hasBytes img →
  uploadLoop h client bucketName publicUrl ymd (img :: imgs) acc t
  = match decodeBase64 (cleaned img) with
    | Throw e => (Throw e, t)
    | Return body =>
        match client_send h t client (commandOf bucketName ymd img body) with
        | Throw e => (Throw e, (t ++ [EvS3Send client (commandOf bucketName ymd img body)])%list)
        | Return _ =>
            uploadLoop h client bucketName publicUrl ymd imgs
              (acc ++ [published publicUrl ymd img])%list
              (t ++ [EvS3Send client (commandOf bucketName ymd img body)])%list
        end
    end.
Proof.
  unfold hasBytes. intros Hb. simpl. rewrite Hb. simpl.
  unfold bind, lift, call, cleaned, commandOf, keyOf.
  destruct (decodeBase64 _) as [body|e]; [|done].
  by destruct (client_send h t client _) as [[]|e].
Qed.

Lemma uploadLoop_run imgs : ∀ acc t,
  ∃ sends,
    (uploadLoop h client bucketName publicUrl ymd imgs acc t).2
      = (t ++ sends)%list ∧
    Forall (sendOf client bucketName ymd imgs) sends ∧
    match (uploadLoop h client bucketName publicUrl ymd imgs acc t).1 with
    | Return m =>
        m = (acc ++ (published publicUrl ymd <$> filter hasBytes imgs))%list ∧
        Forall2 (uploadOf client bucketName ymd) (filter hasBytes imgs) sends
    | Throw e =>
        (∃ img, img ∈ imgs ∧ hasBytes img ∧ decodeBase64 (cleaned img) = Throw e)
        ∨ (∃ tr command, client_send h tr client command = Throw e)
    end.
Proof.
  induction imgs as [|img imgs IH]; intros acc t.
  - exists []. simpl. rewrite !app_nil_r. by repeat split.
  - destruct (decide (hasBytes img)) as [Hb|Hb].
    2:{ rewrite uploadLoop_skip by done. rewrite filter_cons_False by done.
        destruct (IH acc t) as (sends & Ht & Hs & Hr). exists sends.
        split; [done|]. split.
        - eapply Forall_impl; [done|]. intros ev. apply sendOf_cons.
        - destruct (uploadLoop _ _ _ _ _ imgs acc t).1; [done|].
          destruct Hr as [(i & Hi & Hr)|Hr]; [left|by right].
          exists i. split; [by right|done]. }
    rewrite filter_cons_True by done. rewrite uploadLoop_bytes by done.
    destruct (decodeBase64 (cleaned img)) as [body|e] eqn:Hdec.
    2:{ exists []. simpl. rewrite app_nil_r. split; [done|]. split; [done|].
        left. exists img. split; [left|done]. }
    destruct (client_send h t client _) as [[]|e] eqn:Hsend.
    2:{ exists [EvS3Send client (commandOf bucketName ymd img body)]. simpl.
        split; [done|]. split.
        - constructor; [|done]. exists img, body. split; [left|done].
        - right. eauto. }
    destruct (IH (acc ++ [published publicUrl ymd img])%list
                (t ++ [EvS3Send client (commandOf bucketName ymd img body)])%list)
      as (sends & Ht & Hs & Hr).
    exists (EvS3Send client (commandOf bucketName ymd img body) :: sends).
    rewrite Ht. split; [by rewrite <- app_assoc|]. split.
    + constructor.
      * exists img, body. split; [left|done].
      * eapply Forall_impl; [done|]. intros ev. apply sendOf_cons.
    + destruct (uploadLoop _ _ _ _ _ imgs _ _).1 as [m|e].
      * destruct Hr as [-> Hr]. split.
        -- rewrite fmap_cons. by rewrite <- app_assoc.
        -- constructor; [|done]. by exists body.
      * destruct Hr as [(i & Hi & Hr)|Hr]; [left|by right].
        exists i. split; [by right|done].
Qed.
End upload_loop.

(** ** [uploadImages] as a whole *)

Lemma uploadImages_run h bucketName s3Url accessKeyId secretAccessKey publicUrl
    imgs t :
  let client := mkS3Client "auto" s3Url accessKeyId secretAccessKey in
  let ymd := ymd_of (new_Date h t) in
  ∃ sends,
    (uploadImages h bucketName s3Url accessKeyId secretAccessKey publicUrl
       imgs t).2 = (t ++ EvNewDate :: sends)%list ∧
    Forall (sendOf client bucketName ymd imgs) sends ∧
    match (uploadImages h bucketName s3Url accessKeyId secretAccessKey
             publicUrl imgs t).1 with
    | Return (Ok m) =>
        m = published publicUrl ymd <$> filter hasBytes imgs ∧
        Forall2 (uploadOf client bucketName ymd) (filter hasBytes imgs) sends
    | Return (Err e) =>
        ∃ cause,
          e = SystemError ("画像のアップロードに失敗しました: "
                           +:+ Error_toString cause) ∧
          ((∃ img, img ∈ imgs ∧ hasBytes img ∧
                   decodeBase64 (cleaned img) = Throw cause)
           ∨ (∃ tr command, client_send h tr client command = Throw cause))
    | Throw _ => False
    end.
Proof.
  intros client ymd. unfold uploadImages, fromPromise, bind, call.
  fold client. fold ymd.
  destruct (uploadLoop_run h client bucketName publicUrl ymd imgs []
              (t ++ [EvNewDate])%list) as (sends & Ht & Hs & Hr).
  exists sends.
  destruct (uploadLoop h client bucketName publicUrl ymd imgs [] _)
    as [[m|e] t'] eqn:Hrun; simpl in *; subst t'.
  - by rewrite <- app_assoc.
  - rewrite <- app_assoc. split; [done|]. split; [done|]. by exists e.
Qed.

(** ** The page loop and [generateMarkdown] *)

Lemma pagesLoop_cons h imageMap outDir object objects acc t :
  pagesLoop h imageMap outDir (object :: objects) acc t
  = match Deno_writeTextFile h t (pageFile outDir object)
            (pageContent imageMap object) with
    | Throw e => (Throw e, (t ++ [pageWrite imageMap outDir object])%list)
    | Return _ =>
        pagesLoop h imageMap outDir objects
          (acc ++ pageLines imageMap object ++ [""])%list
          (t ++ [pageWrite imageMap outDir object])%list
    end.
Proof.
  simpl. unfold bind, writeTextFile, call, pageWrite, pageFile, pageContent.
  by destruct (Deno_writeTextFile h t _ _) as [[]|e].
Qed.

Lemma pagesLoop_run h imageMap outDir objects : ∀ acc t,
  match pagesLoop h imageMap outDir objects acc t with
  | (Return combinedLines, t') =>
      combinedLines
      = (acc ++ flat_map (λ o, pageLines imageMap o ++ [""]) objects)%list ∧
      t' = (t ++ (pageWrite imageMap outDir <$> objects))%list
  | (Throw e, t') =>
      (∃ n, t' = (t ++ (pageWrite imageMap outDir <$> take n objects))%list) ∧
      (∃ tr path content, Deno_writeTextFile h tr path content = Throw e)
  end.
Proof.
  induction objects as [|o objects IH]; intros acc t.
  - simpl. by rewrite !app_nil_r.
  - rewrite pagesLoop_cons.
    destruct (Deno_writeTextFile h t _ _) as [[]|e] eqn:Hw.
    + specialize (IH (acc ++ pageLines imageMap o ++ [""])%list
                     (t ++ [pageWrite imageMap outDir o])%list).
      destruct (pagesLoop h imageMap outDir objects _ _) as [[c|e] t'].
      * destruct IH as [-> ->]. simpl. by rewrite <- !app_assoc.
      * destruct IH as [[n ->] Hc]. split; [|done]. exists (S n).
        simpl. by rewrite <- app_assoc.
    + split; [by exists 1%nat|eauto].
Qed.

Lemma combinedLines_content imageMap objects :
  Array_join LF (flat_map (λ o, pageLines imageMap o ++ [""])%list objects)
  = combinedContent (pageContent imageMap <$> objects).
Proof.
  induction objects as [|o objects IH]; [done|].
  destruct objects as [|o' objects].
  - simpl. rewrite app_nil_r.
    by rewrite Array_join_snoc_empty by apply pageLines_nonempty.
  - change (flat_map _ (o :: o' :: objects))
      with ((pageLines imageMap o ++ [""])
              ++ flat_map (λ o, pageLines imageMap o ++ [""]) (o' :: objects))%list.
    rewrite Array_join_app.
    + rewrite IH. rewrite Array_join_snoc_empty by apply pageLines_nonempty.
      unfold combinedContent. rewrite !fmap_cons.
      rewrite Array_join_cons. fold (pageContent imageMap o).
      by rewrite !append_assoc.
    + intros H. by apply app_eq_nil in H as [_ ?].
    + simpl. intros H. apply app_eq_nil in H as [H _].
      by apply app_eq_nil in H as [_ ?].
Qed.

Lemma generateMarkdown_run h objects imageMap outDir t :
  match generateMarkdown h objects imageMap outDir t with
  | (Return (Ok _), t') =>
      t' = (t ++ (pageWrite imageMap outDir <$> objects)
              ++ [EvWriteTextFile (join outDir "all-pages.md")
                    (combinedContent (pageContent imageMap <$> objects))])%list
  | (Return (Err e), t') =>
      (∃ cause,
         e = SystemError ("マークダウンの生成に失敗しました: "
                          +:+ Error_toString cause) ∧
         ∃ tr path content, Deno_writeTextFile h tr path content = Throw cause) ∧
      ∃ writes, t' = (t ++ writes)%list ∧
                Forall (λ ev, stage_of ev = StMarkdown) writes
  | (Throw _, _) => False
  end.
Proof.
  unfold generateMarkdown, fromPromise, bind.
  pose proof (pagesLoop_run h imageMap outDir objects [] t) as Hloop.
  destruct (pagesLoop h imageMap outDir objects [] t) as [[c|e] t'].
  - destruct Hloop as [-> ->]. unfold writeTextFile, call. simpl.
    rewrite combinedLines_content.
    destruct (Deno_writeTextFile h _ _ _) as [[]|e] eqn:Hw.
    + by rewrite <- app_assoc.
    + split; [by eauto 6|].
      eexists. rewrite <- app_assoc. split; [done|].
      apply Forall_app. split; [|by repeat constructor].
      apply Forall_fmap, Forall_true. done.
  - destruct Hloop as [[n ->] Hc]. split; [by eauto|].
    eexists. split; [done|]. apply Forall_fmap, Forall_true. done.
Qed.

(** ** [getCliArgs] *)

Lemma processTokens_positional options v tokens : ∀ values positionals,
  NodeUtil.TokPositional v ∈ tokens →
  ∃ e, NodeUtil.processTokens options false tokens values positionals = Throw e.
Proof.
  induction tokens as [|tok tokens IH]; intros values positionals Hin.
  - by apply elem_of_nil in Hin.
  - destruct tok as [name rawName value|w|]; simpl.
    + destruct (NodeUtil.checkOptionUsage _ _ _ _); [by eauto|].
      destruct (NodeUtil.checkOptionLikeValue _ _ _); [by eauto|].
      apply IH. by apply elem_of_cons in Hin as [|].
    + by eauto.
    + apply IH. by apply elem_of_cons in Hin as [|].
Qed.

Lemma processTokens_TypeError options allow tokens : ∀ values positionals e,
  NodeUtil.processTokens options allow tokens values positionals = Throw e →
  error_name e = "TypeError".
Proof.
  induction tokens as [|tok tokens IH]; intros values positionals e; [done|].
  destruct tok as [name rawName value|w|]; simpl.
  - unfold NodeUtil.checkOptionUsage.
    destruct (NodeUtil.optionConfig options name) as [cfg|].
    2:{ by intros [= <-]. }
    destruct (NodeUtil.type cfg), value as [[v []]|]; simpl;
      try (by intros [= <-]); try apply IH.
    all: unfold NodeUtil.checkOptionLikeValue;
      destruct (NodeUtil.isOptionLikeValue v); try (by intros [= <-]);
      apply IH.
  - destruct allow; [apply IH|]. by intros [= <-].
  - apply IH.
Qed.

(** The values [parseArgs] returns for the options of this program are
    strings: the branch of [stringValue] for other values is never taken. *)
Lemma cliOptions_values_are_strings tokens : ∀ values positionals values' positionals',
  (∀ k v, values !! k = Some v → ∃ s, v = NodeUtil.VString s) →
  NodeUtil.processTokens cliOptions false tokens values positionals
    = Return (values', positionals') →
  ∀ k v, values' !! k = Some v → ∃ s, v = NodeUtil.VString s.
Proof.
  induction tokens as [|tok tokens IH];
    intros values positionals values' positionals' Hvalues.
  - by intros [= <- _].
  - destruct tok as [name rawName value|w|]; simpl; [| |by apply IH].
    2:{ done. }
    destruct (NodeUtil.checkOptionUsage cliOptions name rawName value) eqn:Hu;
      [done|].
    destruct (NodeUtil.checkOptionLikeValue name rawName value); [done|].
    apply IH. intros k v. unfold NodeUtil.storeOption.
    case_bool_decide; [by apply Hvalues|].
    destruct (decide (name = k)) as [->|Hne].
    + rewrite lookup_insert_eq. intros [= <-].
      destruct value as [[s ?]|]; [by exists s|].
      unfold NodeUtil.checkOptionUsage, NodeUtil.optionConfig in Hu.
      simpl in Hu. repeat case_bool_decide; simpl in Hu; done.
    + rewrite lookup_insert_ne by done. apply Hvalues.
Qed.

Lemma parseArgs_values_are_strings args values positionals :
  NodeUtil.parseArgs args cliOptions false = Return (values, positionals) →
  ∀ k v, values !! k = Some v → ∃ s, v = NodeUtil.VString s.
Proof.
  unfold NodeUtil.parseArgs. apply cliOptions_values_are_strings.
  intros k v. by rewrite lookup_empty.
Qed.

Lemma getCliArgs_throw h t e :
  NodeUtil.parseArgs (Deno_args h) cliOptions false = Throw e →
  getCliArgs h t = (Throw e, t).
Proof. intros H. unfold getCliArgs, bind, lift. by rewrite H. Qed.

(** The checks of [getCliArgs] once the arguments are parsed, in order. *)
Lemma getCliArgs_parsed h t values positionals :
  NodeUtil.parseArgs (Deno_args h) cliOptions false
    = Return (values, positionals) →
  let input := stringValue values "input" in
  let outDir := stringValue values "outDir" in
  let i := default "" input in
  let o := default "" outDir in
  getCliArgs h t =
    if negb (truthy input)
    then (Return (Err (ValidationError "args.input が見つかりません")), t)
    else if negb (truthy outDir)
    then (Return (Err (ValidationError "args.outDir が見つかりません")), t)
    else match Deno_statSync h i with
         | Throw _ =>
             (Return (Err (ValidationError "args.input が存在しません")),
              (t ++ [EvStatSync i])%list)
         | Return statIn =>
             if negb (isFile statIn)
             then (Return (Err (ValidationError
                                  "args.input はファイルではありません")),
                   (t ++ [EvStatSync i])%list)
             else match Deno_statSync h o with
                  | Throw _ =>
                      (Return (Err (ValidationError "args.outDir が存在しません")),
                       (t ++ [EvStatSync i; EvStatSync o])%list)
                  | Return statOut =>
                      if negb (isDirectory statOut)
                      then (Return (Err (ValidationError
                                   "args.outDir はディレクトリではありません")),
                            (t ++ [EvStatSync i; EvStatSync o])%list)
                      else (Return (Ok (mkArgs i o)),
                            (t ++ [EvStatSync i; EvStatSync o])%list)
                  end
         end.
Proof.
  intros H input outDir i o. unfold getCliArgs, bind at 1, lift. rewrite H.
  simpl. fold input outDir.
  destruct (truthy input); simpl; [|done].
  destruct (truthy outDir); simpl; [|done].
  fold i o. unfold bind, try_catch, statSync, call, ret.
  destruct (Deno_statSync h i) as [statIn|e1]; simpl; [|done].
  destruct (isFile statIn); simpl; [|done].
  destruct (Deno_statSync h o) as [statOut|e2]; simpl;
    rewrite <- ?app_assoc; simpl; [|done].
  by destruct (isDirectory statOut).
Qed.

Lemma getCliArgs_footprint h t :
  ∃ evs, (getCliArgs h t).2 = (t ++ evs)%list ∧
         Forall (λ ev, stage_of ev = StCli) evs.
Proof.
  destruct (NodeUtil.parseArgs (Deno_args h) cliOptions false)
    as [[values positionals]|e] eqn:Hp.
  - rewrite (getCliArgs_parsed h t values positionals Hp).
    repeat match goal with
           | |- context [if ?b then _ else _] => destruct b
           | |- context [match ?c with Return _ => _ | Throw _ => _ end] =>
               destruct c
           end; simpl;
      first [ by exists []; rewrite app_nil_r
            | eexists; split; [reflexivity|]; by repeat constructor ].
  - rewrite (getCliArgs_throw h t e Hp). exists []. by rewrite app_nil_r.
Qed.

(** ** [getEnvs] *)

Lemma getEnvs_run h t :
  getEnvs h t =
    (match List.find (missing h) requiredKeys with
     | Some key => Return (Err (ValidationError (key +:+ " が見つかりません")))
     | None =>
         Return (Ok (mkEnv (default "" (Deno_env h !! "MISTRAL_OCR_API_KEY"))
                       (default "" (Deno_env h !! "R2_S3_URL"))
                       (default "" (Deno_env h !! "R2_ACCESS_KEY_ID"))
                       (default "" (Deno_env h !! "R2_SECRET_ACCESS_KEY"))
                       (default "" (Deno_env h !! "R2_BUCKET_NAME"))
                       (default "" (Deno_env h !! "R2_PUBLIC_URL"))))
     end,
     (t ++ (EvEnvGet <$> requiredKeys))%list).
Proof.
  unfold getEnvs, bind, env_get, call, ret, missing. simpl.
  rewrite <- !app_assoc. simpl.
  repeat match goal with
         | |- context [truthy ?x] => destruct (truthy x)
         end; reflexivity.
Qed.

(** ** [processOcr] *)

Lemma processOcr_run h apiKey pdfPath t :
  match processOcr h apiKey pdfPath t with
  | (Return r, t') =>
      (∀ e, r = Err e → e = SystemError "OCR 処理に失敗しました") ∧
      ∃ evs, t' = (t ++ evs)%list ∧ Forall (λ ev, stage_of ev = StOcr) evs
  | (Throw _, _) => False
  end.
Proof.
  unfold processOcr, fromPromise, bind, call.
  destruct (Deno_readFile h pdfPath) as [bytes|e1].
  2:{ split; [by intros ? [= <-]|]. eexists. split; [done|]. by repeat constructor. }
  destruct (files_upload h apiKey _ bytes) as [fileId|e2].
  2:{ split; [by intros ? [= <-]|]. eexists. rewrite <- app_assoc.
      split; [done|]. by repeat constructor. }
  destruct (files_getSignedUrl h apiKey fileId) as [signed|e3].
  2:{ split; [by intros ? [= <-]|]. eexists. rewrite <- !app_assoc.
      split; [done|]. by repeat constructor. }
  destruct (ocr_process h apiKey signed) as [pages|e4].
  - split; [done|]. eexists. rewrite <- !app_assoc.
    split; [done|]. by repeat constructor.
  - split; [by intros ? [= <-]|]. eexists. rewrite <- !app_assoc.
    split; [done|]. by repeat constructor.
Qed.

(** ** [main] is the composition of the stages *)

Lemma andThen_Ok {A B E} (m : Eff (Result A E)) (k : A → Eff (Result B E)) t a t' :
  m t = (Return (Ok a), t') → andThen m k t = k a t'.
Proof. intros H. unfold andThen, bind. by rewrite H. Qed.

Lemma andThen_Err {A B E} (m : Eff (Result A E)) (k : A → Eff (Result B E)) t e t' :
  m t = (Return (Err e), t') → andThen m k t = (Return (Err e), t').
Proof. intros H. unfold andThen, bind. by rewrite H. Qed.

Lemma andThen_Throw {A B E} (m : Eff (Result A E)) (k : A → Eff (Result B E)) t e t' :
  m t = (Throw e, t') → andThen m k t = (Throw e, t').
Proof. intros H. unfold andThen, bind. by rewrite H. Qed.

Lemma main_pipeline h t : main h t = pipeline h t.
Proof.
  unfold main, pipeline, andThen, ensureOutDir, bind.
  destruct (getCliArgs h t) as [[[args|e]|e] t1]; try done.
  destruct (getEnvs h t1) as [[[env|e]|e] t2]; try done.
  destruct (fromPromise _ _ t2) as [[[[]|e]|e] t3]; try done.
  destruct (processOcr h _ _ t3) as [[[pages|e]|e] t4]; try done.
  destruct (uploadImages h _ _ _ _ _ _ t4) as [[[imageMap|e]|e] t5]; try done.
  by destruct (generateMarkdown h _ _ _ t5) as [[[[]|e]|e] t6].
Qed.

(** ** Calls come in the order of the stages *)

Lemma emits_orderedFrom {A} (m : Eff A) s : emits m s → orderedFrom m (rank s).
Proof.
  intros Hm t. destruct (Hm t) as (evs & Ht & Hs). exists evs.
  split; [done|]. split.
  - clear Ht. induction Hs as [|ev evs Hev Hs IH]; [constructor|].
    constructor; [done|]. eapply Forall_impl; [exact Hs|].
    intros ev' Hev'. unfold stage_le. rewrite Hev, Hev'. done.
  - eapply Forall_impl; [done|]. by intros ev ->.
Qed.

Lemma andThen_orderedFrom {A B E} (m : Eff (Result A E))
    (k : A → Eff (Result B E)) s n :
  emits m s → (∀ a, orderedFrom (k a) n) → (rank s ≤ n)%nat →
  orderedFrom (andThen m k) (rank s).
Proof.
  intros Hm Hk Hle t. destruct (Hm t) as (evs & Ht & Hs).
  assert (inStageOrder evs ∧ Forall (λ ev, (rank s ≤ rank (stage_of ev))%nat) evs)
    as [Hsorted Hlow].
  { destruct (emits_orderedFrom m s Hm t) as (evs' & Ht' & ? & ?).
    rewrite Ht in Ht'. by apply app_inv_head in Ht' as <-. }
  unfold andThen, bind.
  destruct (m t) as [[[a|e]|e] t1]; simpl in Ht; subst t1;
    try (by exists evs).
  destruct (Hk a (t ++ evs)%list) as (evs2 & Ht2 & Hs2 & Hlow2).
  exists (evs ++ evs2)%list. rewrite Ht2, <- app_assoc. split; [done|]. split.
  - apply StronglySorted_app_2; [|done..].
    intros x1 x2 H1 H2. unfold stage_le.
    rewrite Forall_forall in Hs. rewrite Forall_forall in Hlow2.
    rewrite (Hs x1 H1). specialize (Hlow2 x2 H2). lia.
  - apply Forall_app. split; [done|].
    eapply Forall_impl; [done|]. simpl. intros. lia.
Qed.

Lemma getEnvs_emits h : emits (getEnvs h) StEnv.
Proof.
  intros t. rewrite getEnvs_run. eexists. split; [done|].
  by repeat constructor.
Qed.

Lemma ensureOutDir_emits h outDir : emits (ensureOutDir h outDir) StDir.
Proof.
  intros t. unfold ensureOutDir, fromPromise, call.
  exists [EvEnsureDir outDir]. split; [by destruct (ensureDir h outDir)|].
  by repeat constructor.
Qed.

Lemma processOcr_emits h apiKey pdfPath : emits (processOcr h apiKey pdfPath) StOcr.
Proof.
  intros t. pose proof (processOcr_run h apiKey pdfPath t) as H.
  destruct (processOcr h apiKey pdfPath t) as [[r|e] t']; [|done].
  destruct H as (_ & evs & -> & Hs). by exists evs.
Qed.

Lemma uploadImages_emits h b s a k p imgs :
  emits (uploadImages h b s a k p imgs) StUpload.
Proof.
  intros t. destruct (uploadImages_run h b s a k p imgs t) as (sends & Ht & Hs & _).
  eexists. split; [done|]. constructor; [done|].
  eapply Forall_impl; [done|]. by intros ev (i & body & _ & _ & ->).
Qed.

Lemma generateMarkdown_emits h objects imageMap outDir :
  emits (generateMarkdown h objects imageMap outDir) StMarkdown.
Proof.
  intros t. pose proof (generateMarkdown_run h objects imageMap outDir t) as H.
  destruct (generateMarkdown h objects imageMap outDir t) as [[[[]|e]|e] t'];
    [| |done].
  - subst t'. eexists. split; [done|]. apply Forall_app. split.
    + apply Forall_fmap, Forall_true. done.
    + by repeat constructor.
  - by destruct H as (_ & writes & -> & Hs); exists writes.
Qed.

Lemma pipeline_ordered h : orderedFrom (pipeline h) 0.
Proof.
  unfold pipeline.
  apply (andThen_orderedFrom _ _ StCli 1);
    [intros t; apply getCliArgs_footprint| |simpl; lia].
  intros args.
  apply (andThen_orderedFrom _ _ StEnv 2); [apply getEnvs_emits| |simpl; lia].
  intros env.
  apply (andThen_orderedFrom _ _ StDir 3); [apply ensureOutDir_emits| |simpl; lia].
  intros _.
  apply (andThen_orderedFrom _ _ StOcr 4); [apply processOcr_emits| |simpl; lia].
  intros pages.
  apply (andThen_orderedFrom _ _ StUpload 5); [apply uploadImages_emits| |simpl; lia].
  intros imageMap.
  apply (emits_orderedFrom _ StMarkdown), generateMarkdown_emits.
Qed.

Lemma main_inStageOrder h : inStageOrder (main h []).2.
Proof.
  rewrite main_pipeline.
  destruct (pipeline_ordered h []) as (evs & -> & Hs & _). done.
Qed.

(** ** Lists with distinct keys *)

Lemma filter_none {A} (P : A → Prop) `{∀ x, Decision (P x)} (l : list A) :
  (∀ y, y ∈ l → ¬ P y) → filter P l = [].
Proof.
  induction l as [|z l IH]; intros Hl; [done|].
  rewrite filter_cons_False by (apply Hl; left).
  apply IH. intros y Hy. apply Hl. by right.
Qed.

Lemma filter_key_NoDup {A B} `{EqDecision B} (f : A → B) (l : list A) x :
  NoDup (f <$> l) → x ∈ l → filter (λ y, f y = f x) l = [x].
Proof.
  induction l as [|z l IH]; intros Hnd Hin; [by apply elem_of_nil in Hin|].
  rewrite fmap_cons in Hnd. apply NoDup_cons in Hnd as [Hz Hnd].
  assert (∀ y, y ∈ l → f y = f z → False) as Hfresh.
  { intros y Hy Hyz. apply Hz. rewrite <- Hyz. by apply list_elem_of_fmap_2. }
  apply elem_of_cons in Hin as [->|Hin].
  - rewrite filter_cons_True by done. f_equal.
    apply filter_none. intros y Hy Hyz. by eapply Hfresh.
  - rewrite filter_cons_False; [by apply IH|].
    intros Hzx. by apply (Hfresh x).
Qed.

Lemma find_head_filter {A} (P : A → Prop) `{∀ x, Decision (P x)} (l : list A) :
  List.find (λ x, bool_decide (P x)) l = head (filter P l).
Proof.
  induction l as [|x l IH]; [done|]. simpl. rewrite filter_cons.
  case_bool_decide; by destruct (decide (P x)).
Qed.

Lemma filter_published publicUrl ymd (imgs : list OCRImage) i :
  filter (λ entry, uploaded_id entry = i)
    (published publicUrl ymd <$> filter hasBytes imgs)
  = published publicUrl ymd
      <$> filter hasBytes (filter (λ img, id img = i) imgs).
Proof.
  induction imgs as [|img imgs IH]; [done|].
  destruct (decide (hasBytes img)) as [Hb|Hb],
           (decide (id img = i)) as [Hi|Hi].
  - rewrite (filter_cons_True hasBytes) by done.
    rewrite (filter_cons_True (λ img, id img = i)) by done.
    rewrite (filter_cons_True hasBytes) by done.
    rewrite !fmap_cons. rewrite filter_cons_True by done. by rewrite IH.
  - rewrite (filter_cons_True hasBytes) by done.
    rewrite (filter_cons_False (λ img, id img = i)) by done.
    rewrite fmap_cons. by rewrite filter_cons_False by done.
  - rewrite (filter_cons_False hasBytes) by done.
    rewrite (filter_cons_True (λ img, id img = i)) by done.
    by rewrite (filter_cons_False hasBytes) by done.
  - rewrite (filter_cons_False hasBytes) by done.
    by rewrite (filter_cons_False (λ img, id img = i)) by done.
Qed.

Lemma pushImages_single imageMap img :
  pushImages imageMap [img] []
  = match lookupUrl imageMap (id img) with
    | Some u => [imageRef (id img) u; ""]
    | None => []
    end.
Proof.
  unfold pushImages, lookupUrl. simpl.
  by destruct (List.find _ imageMap).
Qed.

(* ===================================================================== *)
(** * The claims, each after the lemmas it needs *)
(* ===================================================================== *)

Lemma lookupUrl_published publicUrl ymd (l : list OCRImage) img :
  img ∈ l →
  lookupUrl (published publicUrl ymd <$> l) (id img)
  = Some (urlOf publicUrl ymd img).
Proof.
  unfold lookupUrl. induction l as [|x l IH]; intros Hin.
  - by apply elem_of_nil in Hin.
  - rewrite fmap_cons. simpl. case_bool_decide as Hid.
    + simpl. unfold urlOf. by rewrite Hid.
    + apply IH. apply elem_of_cons in Hin as [->|Hin]; [done|done].
Qed.

(** C1.  Let the image publisher succeed on the images of the OCR result.
    The mapping it returns has one entry for every image with inline bytes,
    in order, and none for the others.  For an image with bytes the entry
    has the url [<publicBaseUrl>/paper/<date>/<id>.png], and the lines
    emitted for the image in the Markdown of its page are the reference with
    that url; an image without bytes is stepped over, without any call or
    failure.  When the ids are unique within the document, as the data model
    has them, an image has an entry under its id if and only if it has
    bytes; with bytes it has exactly one; without bytes it has none and no
    line is emitted for it. *)
Theorem embedded_image_published_iff_bytes
    h bucketName s3Url accessKeyId secretAccessKey publicUrl
    (pages : list OCRPageObject) t imageMap t' :
  uploadImages h bucketName s3Url accessKeyId secretAccessKey publicUrl
    (flat_map images pages) t = (Return (Ok imageMap), t') →
  let ymd := ymd_of (new_Date h t) in
  imageMap = published publicUrl ymd <$> filter hasBytes (flat_map images pages) ∧
  ∀ page img, page ∈ pages → img ∈ images page →
    let u := urlOf publicUrl ymd img in
    (hasBytes img →
       mkUploaded (id img) u ∈ imageMap ∧
       pushImages imageMap [img] [] = [imageRef (id img) u; ""]) ∧
    (¬ hasBytes img →
       ∀ client ymd' imgs acc,
         uploadLoop h client bucketName publicUrl ymd' (img :: imgs) acc
         = uploadLoop h client bucketName publicUrl ymd' imgs acc) ∧
    (NoDup (id <$> flat_map images pages) →
       ((∃ entry, entry ∈ imageMap ∧ uploaded_id entry = id img) ↔ hasBytes img) ∧
       (hasBytes img →
          filter (λ entry, uploaded_id entry = id img) imageMap
          = [mkUploaded (id img) u]) ∧
       (¬ hasBytes img →
          filter (λ entry, uploaded_id entry = id img) imageMap = [] ∧
          pushImages imageMap [img] [] = [])).
Proof.
  intros Hrun ymd.
  destruct (uploadImages_run h bucketName s3Url accessKeyId secretAccessKey
              publicUrl (flat_map images pages) t) as (sends & _ & _ & Hr).
  rewrite Hrun in Hr. simpl in Hr. destruct Hr as [-> _]. fold ymd.
  split; [done|]. intros page img Hpage Himg u.
  assert (img ∈ flat_map images pages) as Hin.
  { apply list_elem_of_In, in_flat_map. exists page.
    split; by apply list_elem_of_In. }
  split; [|split].
  - intros Hb.
    assert (img ∈ filter hasBytes (flat_map images pages)) as Hf
      by by apply list_elem_of_filter.
    split; [by apply (list_elem_of_fmap_2 (published publicUrl ymd))|].
    by rewrite pushImages_single, lookupUrl_published.
  - intros Hb client ymd' imgs acc. by apply uploadLoop_skip.
  - intros Hnd.
    assert (filter (λ entry, uploaded_id entry = id img)
              (published publicUrl ymd <$> filter hasBytes (flat_map images pages))
            = published publicUrl ymd <$> filter hasBytes [img]) as Hentries.
    { rewrite filter_published. by rewrite (filter_key_NoDup id) by done. }
    split; [|split].
    + split.
      * intros (entry & Hentry & Hid).
        assert (entry ∈ published publicUrl ymd <$> filter hasBytes [img]) as He.
        { rewrite <- Hentries. by apply list_elem_of_filter. }
        destruct (decide (hasBytes img)) as [Hb|Hb]; [done|].
        rewrite filter_cons_False in He by done. by apply elem_of_nil in He.
      * intros Hb. exists (published publicUrl ymd img). split; [|done].
        apply list_elem_of_fmap_2. apply list_elem_of_filter. done.
    + intros Hb. rewrite Hentries. by rewrite filter_cons_True by done.
    + intros Hb. rewrite Hentries. rewrite filter_cons_False by done.
      split; [done|]. rewrite pushImages_single. unfold lookupUrl.
      rewrite (find_head_filter (λ entry, uploaded_id entry = id img)).
      by rewrite Hentries, filter_cons_False by done.
Qed.

Lemma embedded_image_published_iff_bytes_witness :
  let imageMap :=
    [mkUploaded "img-1" "https://pub.example/paper/2025-01-05/img-1.png"] in
  NoDup (id <$> flat_map images demoPages) ∧
  (uploadImages demoWorld "bucket" "https://s3.example" "ak" "sk"
     "https://pub.example" (flat_map images demoPages) []).1
    = Return (Ok imageMap) ∧
  filter (λ entry, uploaded_id entry = "img-1") imageMap = imageMap ∧
  pushImages imageMap [demoImage1] []
    = ["![img-1](https://pub.example/paper/2025-01-05/img-1.png)"; ""] ∧
  pushImages imageMap [demoImage2] [] = [].
Proof.
  intros imageMap.
  assert (NoDup (id <$> flat_map images demoPages)) as Hnd.
  { apply (bool_decide_unpack _). vm_compute. exact I. }
  destruct (embedded_image_published_iff_bytes demoWorld "bucket"
              "https://s3.example" "ak" "sk" "https://pub.example"
              demoPages [] imageMap _ eq_refl) as [_ H].
  split; [exact Hnd|]. split; [reflexivity|].
  destruct (H (mkPage 0 "hello" [demoImage1] None) demoImage1)
    as (H1 & _ & H1'); [left|left|].
  destruct (H (mkPage 1 "world" [demoImage2] None) demoImage2)
    as (_ & _ & H2); [right; left|left|].
  destruct (H1 eq_refl) as [_ Hp].
  destruct (H1' Hnd) as (_ & Hf & _).
  destruct (H2 Hnd) as (_ & _ & Hq).
  destruct Hq as [_ Hq]; [discriminate|].
  split; [exact (Hf eq_refl)|]. split; [exact Hp|exact Hq].
Defined.

(** ** File names *)

Lemma list_ascii_of_string_app (a b : string) :
  list_ascii_of_string (a +:+ b)
  = (list_ascii_of_string a ++ list_ascii_of_string b)%list.
Proof.
  induction a as [|x a IH]; [done|]. rewrite append_cons. simpl. by rewrite IH.
Qed.

Lemma append_inj_r (a b c : string) : a +:+ c = b +:+ c → a = b.
Proof.
  intros H. apply (f_equal list_ascii_of_string) in H.
  rewrite !list_ascii_of_string_app in H. apply app_inv_tail in H.
  rewrite <- (string_of_list_ascii_of_string a),
          <- (string_of_list_ascii_of_string b). by rewrite H.
Qed.

Lemma pageFile_inj outDir o1 o2 :
  pageFile outDir o1 = pageFile outDir o2 → index o1 = index o2.
Proof.
  unfold pageFile, join, String_of_number. intros [= H].
  apply String.app_inj in H. apply append_inj_r in H.
  apply (inj pretty) in H. lia.
Qed.

Lemma isPageFile_pageFile outDir o : isPageFile (pageFile outDir o).
Proof.
  unfold isPageFile, pageFile, join. simpl.
  by destruct (String_of_number (index o + 1) +:+ ".md").
Qed.

Lemma filesWritten_pageWrites imageMap outDir objects :
  filesWritten (pageWrite imageMap outDir <$> objects)
  = pageFile outDir <$> objects.
Proof.
  unfold filesWritten. induction objects as [|o objects IH]; [done|].
  simpl. f_equal. apply IH.
Qed.

Lemma filter_pageFiles outDir (objects : list OCRPageObject) :
  filter isPageFile (pageFile outDir <$> objects) = pageFile outDir <$> objects.
Proof.
  induction objects as [|o objects IH]; [done|].
  rewrite fmap_cons, filter_cons_True by apply isPageFile_pageFile.
  by rewrite IH.
Qed.

(** C2.  When the Markdown assembler succeeds on a sequence of pages, it
    has written, in the order of the sequence, one file [page-<index+1>.md]
    for every page, and then [all-pages.md], whose content is the contents
    of the page files concatenated in that order, with two line breaks
    between one page and the next and a line break at the end.  So the
    number of page files it writes is the number of pages; the files are
    pairwise distinct, hence as many in the directory, when the indices of
    the pages are pairwise distinct, as they are for the pages of a
    document, which come in the order of their indices. *)
Theorem generateMarkdown_writes_every_page
    h (objects : list OCRPageObject) imageMap outDir t t' :
  generateMarkdown h objects imageMap outDir t = (Return (Ok ()), t') →
  let combined := combinedContent (pageContent imageMap <$> objects) in
  let added :=
    ((pageWrite imageMap outDir <$> objects)
       ++ [EvWriteTextFile (join outDir "all-pages.md") combined])%list in
  t' = (t ++ added)%list ∧
  filter isPageFile (filesWritten added) = pageFile outDir <$> objects ∧
  length (filter isPageFile (filesWritten added)) = length objects ∧
  (NoDup (index <$> objects) →
   size (list_to_set (C := gset Path) (filter isPageFile (filesWritten added)))
   = length objects).
Proof.
  intros Hrun combined added.
  pose proof (generateMarkdown_run h objects imageMap outDir t) as H.
  rewrite Hrun in H.
  assert (filter isPageFile (filesWritten added) = pageFile outDir <$> objects)
    as Hfiles.
  { unfold added, filesWritten. rewrite omap_app.
    fold (filesWritten (pageWrite imageMap outDir <$> objects)).
    rewrite filesWritten_pageWrites, filter_app, filter_pageFiles.
    simpl. rewrite filter_cons_False by (by vm_compute). by rewrite app_nil_r. }
  split; [done|]. split; [done|]. rewrite Hfiles. split.
  - by rewrite length_fmap.
  - intros Hnd. rewrite size_list_to_set.
    + by rewrite length_fmap.
    + apply NoDup_fmap_2_strong.
      * intros o1 o2 H1 H2 Hf. apply pageFile_inj in Hf.
        eapply (NoDup_fmap_1 index) in Hnd as Hnd'.
        destruct (list_elem_of_lookup_1 _ _ H1) as [i1 Hi1].
        destruct (list_elem_of_lookup_1 _ _ H2) as [i2 Hi2].
        assert (i1 = i2) as ->.
        { eapply NoDup_lookup; [exact Hnd| |].
          - rewrite list_lookup_fmap, Hi1. done.
          - rewrite list_lookup_fmap, Hi2. simpl. by rewrite Hf. }
        congruence.
      * by eapply NoDup_fmap_1.
Qed.

Lemma generateMarkdown_writes_every_page_witness :
  let imageMap :=
    [mkUploaded "img-1" "https://pub.example/paper/2025-01-05/img-1.png"] in
  (generateMarkdown demoWorld demoPages imageMap "out" []).2
  = [ EvWriteTextFile (join "out" "page-1.md")
        ("# Page 1" +:+ LF +:+ LF +:+ "hello" +:+ LF +:+ LF +:+
         "![img-1](https://pub.example/paper/2025-01-05/img-1.png)" +:+ LF);
      EvWriteTextFile (join "out" "page-2.md")
        ("# Page 2" +:+ LF +:+ LF +:+ "world" +:+ LF);
      EvWriteTextFile (join "out" "all-pages.md")
        ("# Page 1" +:+ LF +:+ LF +:+ "hello" +:+ LF +:+ LF +:+
         "![img-1](https://pub.example/paper/2025-01-05/img-1.png)" +:+ LF +:+
         LF +:+ LF +:+
         "# Page 2" +:+ LF +:+ LF +:+ "world" +:+ LF +:+ LF) ] ∧
  size (list_to_set (C := gset Path)
          [join "out" "page-1.md"; join "out" "page-2.md"]) = 2%nat.
Proof.
  intros imageMap.
  assert (NoDup (index <$> demoPages)) as Hnd.
  { apply (bool_decide_unpack _). vm_compute. exact I. }
  destruct (generateMarkdown_writes_every_page demoWorld demoPages imageMap
              "out" [] _ eq_refl) as (Ht & Hf & _ & Hsize).
  split; [reflexivity|]. exact (Hsize Hnd).
Defined.

(** C3.  When the Markdown assembler succeeds, the file written for the
    page at position [k] is [page-<index+1>.md], and its content is the
    lines joined by a line break, where the lines are, each followed by an
    empty line: the heading [# Page <index+1>], the OCR text of the page as
    it is, and the references [![<id>](<url>)] of the images of the page
    whose id the mapping knows, in the order of the page.  An image whose id
    the mapping does not know adds nothing, and the url of a reference is
    the one of the first entry with that id. *)
Theorem page_file_content
    h (objects : list OCRPageObject) imageMap outDir t t' :
  generateMarkdown h objects imageMap outDir t = (Return (Ok ()), t') →
  (∀ k object, objects !! k = Some object →
     t' !! (length t + k)%nat
     = Some (EvWriteTextFile
               (join outDir
                  ("page-" +:+ String_of_number (index object + 1) +:+ ".md"))
               (Array_join LF
                  (flat_map (λ line, [line; ""])
                     (("# Page " +:+ String_of_number (index object + 1))
                        :: markdown object
                        :: imageRefs imageMap (images object)))))) ∧
  imageRefs imageMap [] = [] ∧
  (∀ img imgs,
     imageRefs imageMap (img :: imgs)
     = match lookupUrl imageMap (id img) with
       | Some u => ("![" +:+ id img +:+ "](" +:+ u +:+ ")")
                     :: imageRefs imageMap imgs
       | None => imageRefs imageMap imgs
       end) ∧
  (∀ i, lookupUrl imageMap i = None
        ↔ ¬ ∃ entry, entry ∈ imageMap ∧ uploaded_id entry = i) ∧
  (∀ i u, lookupUrl imageMap i = Some u →
          ∃ entry, entry ∈ imageMap ∧ uploaded_id entry = i ∧ url entry = u).
Proof.
  intros Hrun. split; [|split; [|split; [|split]]].
  - intros k object Hk.
    pose proof (generateMarkdown_run h objects imageMap outDir t) as H.
    rewrite Hrun in H. subst t'.
    rewrite lookup_app_r by lia.
    replace (length t + k - length t)%nat with k by lia.
    rewrite lookup_app_l.
    2:{ rewrite length_fmap. by eapply lookup_lt_Some. }
    rewrite list_lookup_fmap, Hk. simpl. unfold pageWrite, pageContent.
    by rewrite pageLines_eq.
  - done.
  - intros img imgs. unfold imageRefs. simpl.
    by destruct (lookupUrl imageMap (id img)).
  - intros i. rewrite <- lookupUrl_Some. rewrite <- not_eq_None_Some.
    split; [by intros -> ?|]. intros H.
    destruct (lookupUrl imageMap i) eqn:E; [|done]. by destruct H.
  - intros i u. unfold lookupUrl.
    destruct (List.find _ imageMap) as [entry|] eqn:E; [|done].
    intros [= <-]. apply find_some in E as [Hin Hid].
    exists entry. split; [by apply list_elem_of_In|].
    split; [|done]. by apply bool_decide_eq_true in Hid.
Qed.

Lemma page_file_content_witness :
  let imageMap :=
    [mkUploaded "img-1" "https://pub.example/paper/2025-01-05/img-1.png"] in
  (generateMarkdown demoWorld demoPages imageMap "out" []).2 !! 1%nat
  = Some (EvWriteTextFile (join "out" "page-2.md")
            ("# Page 2" +:+ LF +:+ LF +:+ "world" +:+ LF)).
Proof.
  intros imageMap.
  destruct (page_file_content demoWorld demoPages imageMap "out" [] _ eq_refl)
    as (Hpage & _).
  exact (Hpage 1%nat (mkPage 1 "world" [demoImage2] None) eq_refl).
Defined.

(** C7.  In every run of the image publisher, whatever the clock answers
    later and however the run ends, the clock is read exactly once, before
    any upload, and every upload of the run has a key
    [paper/<date>/<id>.png] with the date read then; the urls of the
    returned mapping carry that same date. *)
Theorem upload_date_fixed_once
    h bucketName s3Url accessKeyId secretAccessKey publicUrl imgs t :
  let client := mkS3Client "auto" s3Url accessKeyId secretAccessKey in
  let ymd := ymd_of (new_Date h t) in
  let result :=
    uploadImages h bucketName s3Url accessKeyId secretAccessKey publicUrl
      imgs t in
  ∃ sends,
    result.2 = (t ++ EvNewDate :: sends)%list ∧
    (EvNewDate ∉ sends) ∧
    Forall (λ ev, ∃ img body,
              img ∈ imgs ∧
              ev = EvS3Send client
                     (mkPutObject bucketName
                        ("paper/" +:+ ymd +:+ "/" +:+ id img +:+ ".png")
                        body "image/png" "public-read")) sends ∧
    (∀ imageMap, result.1 = Return (Ok imageMap) →
       Forall (λ entry, ∃ img,
                 img ∈ imgs ∧
                 entry = mkUploaded (id img)
                           (publicUrl +:+ "/paper/" +:+ ymd +:+ "/" +:+ id img
                            +:+ ".png")) imageMap).
Proof.
  intros client ymd result.
  destruct (uploadImages_run h bucketName s3Url accessKeyId secretAccessKey
              publicUrl imgs t) as (sends & Ht & Hs & Hr).
  fold client ymd result in Ht, Hs, Hr.
  exists sends. split; [done|]. split; [|split].
  - intros Hin. rewrite Forall_forall in Hs.
    by destruct (Hs _ Hin) as (img & body & _ & _ & ?).
  - eapply Forall_impl; [exact Hs|].
    intros ev (img & body & Hin & _ & ->). by exists img, body.
  - intros imageMap Hok. rewrite Hok in Hr. destruct Hr as [-> _].
    apply Forall_fmap, Forall_forall. intros img Hin.
    apply list_elem_of_filter in Hin as [_ Hin]. by exists img.
Qed.

Lemma upload_date_fixed_once_witness :
  Key <$> omap (λ ev, match ev with EvS3Send _ c => Some c | _ => None end)
            (uploadImages midnightWorld "bucket" "https://s3.example" "ak" "sk"
               "https://pub.example" [demoImage1; demoImage3] []).2
  = ["paper/2025-12-31/img-1.png"; "paper/2025-12-31/img-3.png"] ∧
  new_Date midnightWorld [EvNewDate; EvNewDate] = mkDate 2026 0 1 ∧
  ∃ sends,
    (uploadImages midnightWorld "bucket" "https://s3.example" "ak" "sk"
       "https://pub.example" [demoImage1; demoImage3] []).2
    = EvNewDate :: sends ∧ (EvNewDate ∉ sends).
Proof.
  split; [reflexivity|]. split; [reflexivity|].
  destruct (upload_date_fixed_once midnightWorld "bucket" "https://s3.example"
              "ak" "sk" "https://pub.example" [demoImage1; demoImage3] [])
    as (sends & Ht & Hnew & _).
  exists sends. split; [exact Ht|exact Hnew].
Defined.

(** ** The two regular expressions *)

Lemma spanWord_app w r :
  allWord w = true →
  match r with "" => True | String c _ => isWordChar c = false end →
  spanWord (w +:+ r) = (w, r).
Proof.
  intros Hw Hr. induction w as [|c w IH].
  - destruct r as [|c r]; [done|]. simpl. by rewrite Hr.
  - simpl in Hw. apply andb_true_iff in Hw as [Hc Hw].
    rewrite append_cons. simpl. rewrite Hc. by rewrite IH.
Qed.

Lemma matchDataUriPrefix_word w rest :
  w ≠ "" → allWord w = true →
  matchDataUriPrefix ("data:image/" +:+ w +:+ ";base64," +:+ rest) = Some rest.
Proof.
  intros Hne Hw. unfold matchDataUriPrefix.
  change (stripPrefix "data:image/" ("data:image/" +:+ w +:+ ";base64," +:+ rest))
    with (stripPrefix "" (w +:+ ";base64," +:+ rest)).
  change (stripPrefix "" (w +:+ ";base64," +:+ rest))
    with (Some (w +:+ ";base64," +:+ rest)).
  cbv beta iota.
  rewrite (spanWord_app w (";base64," +:+ rest) Hw) by exact eq_refl.
  destruct w as [|c w]; [done|].
  change (stripPrefix ";base64," (";base64," +:+ rest))
    with (stripPrefix "" rest). done.
Qed.

Lemma replaceDataUriPrefix_word w rest :
  w ≠ "" → allWord w = true →
  replaceDataUriPrefix ("data:image/" +:+ w +:+ ";base64," +:+ rest) = rest.
Proof.
  intros Hne Hw. unfold replaceDataUriPrefix.
  by rewrite matchDataUriPrefix_word.
Qed.

Lemma whiteSpaceAt_ascii c s :
  (N_of_ascii c <? 128)%N = true → isSpaceChar c = false →
  whiteSpaceAt (String c s) = 0%nat.
Proof.
  unfold isSpaceChar. intros Hlt Hsp. apply N.ltb_lt in Hlt.
  unfold whiteSpaceAt. rewrite Hsp.
  replace (N_of_ascii c =? 194)%N with false by (symmetry; apply N.eqb_neq; lia).
  replace (N_of_ascii c =? 225)%N with false by (symmetry; apply N.eqb_neq; lia).
  replace (N_of_ascii c =? 226)%N with false by (symmetry; apply N.eqb_neq; lia).
  replace (N_of_ascii c =? 227)%N with false by (symmetry; apply N.eqb_neq; lia).
  replace (N_of_ascii c =? 239)%N with false by (symmetry; apply N.eqb_neq; lia).
  by destruct s as [|c2 [|c3 s3]].
Qed.

Lemma whiteSpaceAt_space c s : isSpaceChar c = true → whiteSpaceAt (String c s) = 1%nat.
Proof. unfold isSpaceChar. intros Hsp. unfold whiteSpaceAt. by rewrite Hsp. Qed.

Lemma replaceWhiteSpace_ascii s :
  allAscii s = true → replaceWhiteSpace s = removeSpaceChars s.
Proof.
  induction s as [|c s IH]; [done|]. simpl allAscii.
  intros [Hc Hs]%andb_true_iff.
  change (replaceWhiteSpace (String c s))
    with (match whiteSpaceAt (String c s) with
          | 0%nat => String c (replaceWhiteSpace s)
          | 1%nat => replaceWhiteSpace s
          | 2%nat => match s with String _ s2 => replaceWhiteSpace s2 | "" => "" end
          | _ => match s with
                 | String _ (String _ s3) => replaceWhiteSpace s3
                 | _ => ""
                 end
          end).
  simpl removeSpaceChars. destruct (isSpaceChar c) eqn:Hsp.
  - rewrite whiteSpaceAt_space by done. by apply IH.
  - rewrite whiteSpaceAt_ascii by done. by rewrite IH.
Qed.

Lemma isBase64Char_ascii c :
  isBase64Char c = true → (N_of_ascii c <? 128)%N = true ∧ isSpaceChar c = false.
Proof.
  destruct c as [[] [] [] [] [] [] [] []]; vm_compute; try discriminate; done.
Qed.

Lemma allBase64_ascii s :
  allBase64 s = true → allAscii s = true ∧ removeSpaceChars s = s.
Proof.
  induction s as [|c s IH]; [done|]. simpl.
  intros [Hc Hs]%andb_true_iff. apply isBase64Char_ascii in Hc as [Hlt Hsp].
  destruct (IH Hs) as [Ha Hr]. rewrite Hlt, Hsp, Ha, Hr. done.
Qed.

Lemma replaceWhiteSpace_base64 s : allBase64 s = true → replaceWhiteSpace s = s.
Proof.
  intros H. apply allBase64_ascii in H as [Ha Hr].
  by rewrite replaceWhiteSpace_ascii.
Qed.

Lemma uploadOf_payload client bucketName ymd (l : list OCRImage) sends :
  Forall hasBytes l →
  Forall2 (uploadOf client bucketName ymd) l sends →
  Forall2 (λ img ev, ∃ payload body,
             imageBase64 img = Some payload ∧
             decodeBase64 (replaceWhiteSpace (replaceDataUriPrefix payload))
               = Return body ∧
             ev = EvS3Send client
                    (mkPutObject bucketName (keyOf ymd img) body
                       "image/png" "public-read"))
    l sends.
Proof.
  intros Hall Hup.
  induction Hup as [|img ev l' sends' (body & Hdec & ->) Hup IH];
    [constructor|].
  apply Forall_cons in Hall as [Hb Hall]. constructor; [|by apply IH].
  unfold hasBytes in Hb. unfold cleaned in Hdec.
  destruct (imageBase64 img) as [payload|] eqn:Hp; [|done].
  by exists payload, body.
Qed.

(** C8, as the code has it.  In a successful run of the image publisher the
    uploads are, in order, those of the images with bytes, and the body of
    each is the base64 decoding of its payload once a prefix matching
    [^data:image/\w+;base64,] (word characters only between the slash and
    the semicolon) and all white space are taken out.  So for a payload
    [data:image/<word>;base64,<b64>], with [<b64>] a base64 text, the
    uploaded bytes are the decoding of [<b64>] alone; a payload that does
    not start with such a prefix is decoded whole. *)
Theorem uploaded_bytes_decode_cleaned_payload
    h bucketName s3Url accessKeyId secretAccessKey publicUrl imgs t imageMap t' :
  uploadImages h bucketName s3Url accessKeyId secretAccessKey publicUrl imgs t
    = (Return (Ok imageMap), t') →
  let client := mkS3Client "auto" s3Url accessKeyId secretAccessKey in
  let ymd := ymd_of (new_Date h t) in
  (∃ sends,
     t' = (t ++ EvNewDate :: sends)%list ∧
     Forall2 (λ img ev, ∃ payload body,
                imageBase64 img = Some payload ∧
                decodeBase64 (replaceWhiteSpace (replaceDataUriPrefix payload))
                  = Return body ∧
                ev = EvS3Send client
                       (mkPutObject bucketName (keyOf ymd img) body
                          "image/png" "public-read"))
       (filter hasBytes imgs) sends) ∧
  (∀ img w b64,
     img ∈ imgs →
     imageBase64 img = Some ("data:image/" +:+ w +:+ ";base64," +:+ b64) →
     w ≠ "" → allWord w = true → allBase64 b64 = true →
     ∃ body, decodeBase64 b64 = Return body ∧
             EvS3Send client
               (mkPutObject bucketName (keyOf ymd img) body
                  "image/png" "public-read") ∈ t') ∧
  (∀ w rest, w ≠ "" → allWord w = true →
     replaceDataUriPrefix ("data:image/" +:+ w +:+ ";base64," +:+ rest) = rest) ∧
  (∀ s, matchDataUriPrefix s = None → replaceDataUriPrefix s = s) ∧
  (∀ s, allAscii s = true → replaceWhiteSpace s = removeSpaceChars s).
Proof.
  intros Hrun client ymd.
  destruct (uploadImages_run h bucketName s3Url accessKeyId secretAccessKey
              publicUrl imgs t) as (sends & Ht & _ & Hr).
  rewrite Hrun in Ht, Hr. simpl in Ht, Hr. destruct Hr as [_ Hup].
  fold client ymd in Hup.
  assert (Forall hasBytes (filter hasBytes imgs)) as Hall.
  { apply Forall_forall. intros img Hin.
    by apply list_elem_of_filter in Hin as [? _]. }
  pose proof (uploadOf_payload client bucketName ymd _ _ Hall Hup) as Hsends.
  split; [by exists sends|]. split; [|split; [|split]].
  - intros img w b64 Hin Hp Hne Hw Hb64.
    assert (img ∈ filter hasBytes imgs) as Hf.
    { apply list_elem_of_filter. split; [|done]. unfold hasBytes.
      by rewrite Hp. }
    apply list_elem_of_lookup_1 in Hf as [k Hk].
    destruct (Forall2_lookup_l _ _ _ _ _ Hsends Hk)
      as (ev & Hev & payload & body & Hp' & Hdec & ->).
    rewrite Hp in Hp'. injection Hp' as <-.
    rewrite replaceDataUriPrefix_word in Hdec by done.
    rewrite replaceWhiteSpace_base64 in Hdec by done.
    exists body. split; [done|]. subst t'.
    apply elem_of_app. right. right. by eapply list_elem_of_lookup_2.
  - apply replaceDataUriPrefix_word.
  - intros s Hs. unfold replaceDataUriPrefix. by rewrite Hs.
  - apply replaceWhiteSpace_ascii.
Qed.

Lemma uploaded_bytes_decode_cleaned_payload_witness :
  decodeBase64 "QUJD" = Return [Byte.x41; Byte.x42; Byte.x43] ∧
  EvS3Send (mkS3Client "auto" "https://s3.example" "ak" "sk")
    (mkPutObject "bucket" "paper/2025-01-05/img-1.png"
       [Byte.x41; Byte.x42; Byte.x43] "image/png" "public-read")
  ∈ (uploadImages demoWorld "bucket" "https://s3.example" "ak" "sk"
       "https://pub.example" [demoImage1] []).2.
Proof.
  destruct (uploaded_bytes_decode_cleaned_payload demoWorld "bucket"
              "https://s3.example" "ak" "sk" "https://pub.example"
              [demoImage1] [] _ _ eq_refl) as (_ & Hin & _).
  destruct (Hin demoImage1 "png" "QUJD") as (body & Hdec & Hev);
    [left|reflexivity|discriminate|reflexivity|reflexivity|].
  split; [reflexivity|].
  injection Hdec as <-. exact Hev.
Defined.

(** C8 as stated fails: [data:image/svg+xml;base64,] is a data-URI prefix of
    the form [data:image/...;base64,], but ['+'] is not a word character,
    so nothing is stripped, the decoder rejects the [':'], and the run ends
    in an error before any upload, instead of uploading the decoding of
    [QUJD]. *)
Lemma data_uri_prefix_outside_word_chars_not_stripped :
  imageBase64 svgImage = Some ("data:image/" +:+ "svg+xml" +:+ ";base64," +:+ "QUJD") ∧
  cleaned svgImage = "data:image/svg+xml;base64,QUJD" ∧
  decodeBase64 "QUJD" = Return [Byte.x41; Byte.x42; Byte.x43] ∧
  uploadImages demoWorld "bucket" "https://s3.example" "ak" "sk"
    "https://pub.example" [svgImage] []
  = (Return (Err (SystemError
       ("画像のアップロードに失敗しました: "
        +:+ Error_toString InvalidCharacterError))),
     [EvNewDate]).
Proof. repeat split; reflexivity. Qed.

Lemma ensureOutDir_run h outDir t :
  ensureOutDir h outDir t
  = (match ensureDir h outDir with
     | Return _ => Return (Ok ())
     | Throw _ => Return (Err (SystemError "ディレクトリの作成に失敗しました"))
     end, (t ++ [EvEnsureDir outDir])%list).
Proof.
  unfold ensureOutDir, fromPromise, call.
  by destruct (ensureDir h outDir) as [[]|e].
Qed.

(** C5, as the code has it.  Every failure of the OCR invocation, of the
    creation of the directory, of an upload or of a file write is reported
    as a SystemError, and none of these stages throws.  The message of the
    OCR stage and that of the directory stage are fixed.  The message of the
    upload stage and that of the Markdown stage are a fixed text of the
    stage followed by the rendering of the underlying cause: what the
    decoder or the bucket, respectively the file write, has thrown. *)
Theorem stage_failures_are_system_errors h :
  (∀ apiKey pdfPath t r t',
     processOcr h apiKey pdfPath t = (r, t') →
     (∀ pages, r ≠ Return (Ok pages)) →
     r = Return (Err (SystemError "OCR 処理に失敗しました"))) ∧
  (∀ outDir t r t',
     ensureOutDir h outDir t = (r, t') →
     r ≠ Return (Ok ()) →
     r = Return (Err (SystemError "ディレクトリの作成に失敗しました"))) ∧
  (∀ bucketName s3Url accessKeyId secretAccessKey publicUrl imgs t r t',
     uploadImages h bucketName s3Url accessKeyId secretAccessKey publicUrl
       imgs t = (r, t') →
     (∀ imageMap, r ≠ Return (Ok imageMap)) →
     ∃ cause,
       r = Return (Err (SystemError ("画像のアップロードに失敗しました: "
                                     +:+ Error_toString cause))) ∧
       ((∃ img, img ∈ imgs ∧ hasBytes img ∧
                decodeBase64 (cleaned img) = Throw cause)
        ∨ (∃ tr command,
             client_send h tr
               (mkS3Client "auto" s3Url accessKeyId secretAccessKey) command
             = Throw cause))) ∧
  (∀ objects imageMap outDir t r t',
     generateMarkdown h objects imageMap outDir t = (r, t') →
     r ≠ Return (Ok ()) →
     ∃ cause,
       r = Return (Err (SystemError ("マークダウンの生成に失敗しました: "
                                     +:+ Error_toString cause))) ∧
       ∃ tr path content, Deno_writeTextFile h tr path content = Throw cause).
Proof.
  split; [|split; [|split]].
  - intros apiKey pdfPath t r t' Hrun Hfail.
    pose proof (processOcr_run h apiKey pdfPath t) as H. rewrite Hrun in H.
    destruct r as [[pages|e]|e]; [by destruct (Hfail pages)| |done].
    destruct H as [He _]. by rewrite (He e).
  - intros outDir t r t' Hrun Hfail. rewrite ensureOutDir_run in Hrun.
    injection Hrun as <- _. by destruct (ensureDir h outDir) as [[]|e].
  - intros bucketName s3Url accessKeyId secretAccessKey publicUrl imgs t r t'
      Hrun Hfail.
    destruct (uploadImages_run h bucketName s3Url accessKeyId secretAccessKey
                publicUrl imgs t) as (sends & _ & _ & H).
    rewrite Hrun in H. simpl in H.
    destruct r as [[imageMap|e]|e]; [by destruct (Hfail imageMap)| |done].
    destruct H as (cause & -> & Hcause). by exists cause.
  - intros objects imageMap outDir t r t' Hrun Hfail.
    pose proof (generateMarkdown_run h objects imageMap outDir t) as H.
    rewrite Hrun in H.
    destruct r as [[[]|e]|e]; [done| |done].
    destruct H as ((cause & -> & Hcause) & _). by exists cause.
Qed.

Lemma stage_failures_are_system_errors_witness :
  (uploadImages (refusingWorld "timeout") "bucket" "https://s3.example" "ak"
     "sk" "https://pub.example" [demoImage1] []).1
  = Return (Err (SystemError
                   ("画像のアップロードに失敗しました: "
                    +:+ Error_toString (mkError "Error" "timeout")))).
Proof.
  destruct (stage_failures_are_system_errors (refusingWorld "timeout"))
    as (_ & _ & Hup & _).
  destruct (Hup "bucket" "https://s3.example" "ak" "sk" "https://pub.example"
              [demoImage1] [] _ _ eq_refl) as (cause & Hr & _);
    [discriminate|].
  reflexivity.
Defined.

(** C5 as stated fails: the message of a failed upload is not a fixed text.
    Two runs that differ only in what the bucket throws end in SystemErrors
    with different messages, each carrying the rendering of its cause. *)
Lemma upload_failure_message_carries_cause :
  uploadImages (refusingWorld "timeout") "bucket" "https://s3.example" "ak"
    "sk" "https://pub.example" [demoImage1] []
  = (Return (Err (SystemError "画像のアップロードに失敗しました: Error: timeout")),
     [EvNewDate;
      EvS3Send (mkS3Client "auto" "https://s3.example" "ak" "sk")
        (mkPutObject "bucket" "paper/2025-01-05/img-1.png"
           [Byte.x41; Byte.x42; Byte.x43] "image/png" "public-read")]) ∧
  uploadImages (refusingWorld "access denied") "bucket" "https://s3.example"
    "ak" "sk" "https://pub.example" [demoImage1] []
  = (Return (Err (SystemError
                    "画像のアップロードに失敗しました: Error: access denied")),
     [EvNewDate;
      EvS3Send (mkS3Client "auto" "https://s3.example" "ak" "sk")
        (mkPutObject "bucket" "paper/2025-01-05/img-1.png"
           [Byte.x41; Byte.x42; Byte.x43] "image/png" "public-read")]) ∧
  ¬ ∃ fixed, ∀ h bucketName s3Url accessKeyId secretAccessKey publicUrl imgs t
               e t',
      uploadImages h bucketName s3Url accessKeyId secretAccessKey publicUrl
        imgs t = (Return (Err e), t') →
      message e = fixed.
Proof.
  split; [reflexivity|]. split; [reflexivity|].
  intros [fixed Hfixed].
  pose proof (Hfixed (refusingWorld "timeout") "bucket" "https://s3.example"
                "ak" "sk" "https://pub.example" [demoImage1] [] _ _ eq_refl) as H1.
  pose proof (Hfixed (refusingWorld "access denied") "bucket"
                "https://s3.example" "ak" "sk" "https://pub.example"
                [demoImage1] [] _ _ eq_refl) as H2.
  rewrite <- H2 in H1. discriminate H1.
Qed.

(** ** The result of [main], stage by stage *)

Lemma main_Err_stoppedBy h e t :
  main h [] = (Return (Err e), t) ↔ stoppedBy h e t.
Proof.
  rewrite main_pipeline. unfold pipeline, stoppedBy.
  fold (publish h). split.
  - intros H.
    destruct (getCliArgs h []) as [[[args|e1]|e1] t1] eqn:H1;
      [rewrite (andThen_Ok _ _ _ _ _ H1) in H
      |rewrite (andThen_Err _ _ _ _ _ H1) in H; left; congruence
      |by rewrite (andThen_Throw _ _ _ _ _ H1) in H].
    right.
    destruct (getEnvs h t1) as [[[env|e2]|e2] t2] eqn:H2;
      [rewrite (andThen_Ok _ _ _ _ _ H2) in H
      |rewrite (andThen_Err _ _ _ _ _ H2) in H; left;
       exists args, t1; split; [done|congruence]
      |by rewrite (andThen_Throw _ _ _ _ _ H2) in H].
    right.
    assert (envOk h args env t2) as Henv by by exists t1.
    destruct (ensureOutDir h (outDir args) t2) as [[[[]|e3]|e3] t3] eqn:H3;
      [rewrite (andThen_Ok _ _ _ _ _ H3) in H
      |rewrite (andThen_Err _ _ _ _ _ H3) in H; left;
       exists args, env, t2; split; [done|congruence]
      |by rewrite (andThen_Throw _ _ _ _ _ H3) in H].
    right.
    assert (dirOk h args env t3) as Hdir by by exists t2.
    destruct (processOcr h (MISTRAL_OCR_API_KEY env) (input args) t3)
      as [[[pages|e4]|e4] t4] eqn:H4;
      [rewrite (andThen_Ok _ _ _ _ _ H4) in H
      |rewrite (andThen_Err _ _ _ _ _ H4) in H; left;
       exists args, env, t3; split; [done|congruence]
      |by rewrite (andThen_Throw _ _ _ _ _ H4) in H].
    right.
    assert (ocrOk h args env pages t4) as Hocr by by exists t3.
    destruct (publish h env pages t4) as [[[imageMap|e5]|e5] t5] eqn:H5;
      [rewrite (andThen_Ok _ _ _ _ _ H5) in H
      |rewrite (andThen_Err _ _ _ _ _ H5) in H; left;
       exists args, env, pages, t4; split; [done|congruence]
      |by rewrite (andThen_Throw _ _ _ _ _ H5) in H].
    right.
    exists args, env, pages, imageMap, t5. split; [by exists t4|done].
  - intros [H|[(args & t1 & H1 & H)|[(args & env & t2 & (t1 & H1 & H2) & H)
            |[(args & env & t3 & (t2 & (t1 & H1 & H2) & H3) & H)
            |[(args & env & pages & t4 & (t3 & (t2 & (t1 & H1 & H2) & H3) & H4) & H)
            |(args & env & pages & imageMap & t5
              & (t4 & (t3 & (t2 & (t1 & H1 & H2) & H3) & H4) & H5) & H)]]]]];
      unfold cliOk in *.
    + by apply andThen_Err.
    + rewrite (andThen_Ok _ _ _ _ _ H1). by apply andThen_Err.
    + rewrite (andThen_Ok _ _ _ _ _ H1), (andThen_Ok _ _ _ _ _ H2).
      by apply andThen_Err.
    + rewrite (andThen_Ok _ _ _ _ _ H1), (andThen_Ok _ _ _ _ _ H2),
        (andThen_Ok _ _ _ _ _ H3). by apply andThen_Err.
    + rewrite (andThen_Ok _ _ _ _ _ H1), (andThen_Ok _ _ _ _ _ H2),
        (andThen_Ok _ _ _ _ _ H3), (andThen_Ok _ _ _ _ _ H4).
      by apply andThen_Err.
    + rewrite (andThen_Ok _ _ _ _ _ H1), (andThen_Ok _ _ _ _ _ H2),
        (andThen_Ok _ _ _ _ _ H3), (andThen_Ok _ _ _ _ _ H4),
        (andThen_Ok _ _ _ _ _ H5). done.
Qed.

Lemma main_Ok_markdownOk h t :
  main h [] = (Return (Ok ()), t) ↔ markdownOk h t.
Proof.
  rewrite main_pipeline. unfold pipeline, markdownOk.
  fold (publish h). split.
  - intros H.
    destruct (getCliArgs h []) as [[[args|e1]|e1] t1] eqn:H1;
      [rewrite (andThen_Ok _ _ _ _ _ H1) in H
      |by rewrite (andThen_Err _ _ _ _ _ H1) in H
      |by rewrite (andThen_Throw _ _ _ _ _ H1) in H].
    destruct (getEnvs h t1) as [[[env|e2]|e2] t2] eqn:H2;
      [rewrite (andThen_Ok _ _ _ _ _ H2) in H
      |by rewrite (andThen_Err _ _ _ _ _ H2) in H
      |by rewrite (andThen_Throw _ _ _ _ _ H2) in H].
    destruct (ensureOutDir h (outDir args) t2) as [[[[]|e3]|e3] t3] eqn:H3;
      [rewrite (andThen_Ok _ _ _ _ _ H3) in H
      |by rewrite (andThen_Err _ _ _ _ _ H3) in H
      |by rewrite (andThen_Throw _ _ _ _ _ H3) in H].
    destruct (processOcr h (MISTRAL_OCR_API_KEY env) (input args) t3)
      as [[[pages|e4]|e4] t4] eqn:H4;
      [rewrite (andThen_Ok _ _ _ _ _ H4) in H
      |by rewrite (andThen_Err _ _ _ _ _ H4) in H
      |by rewrite (andThen_Throw _ _ _ _ _ H4) in H].
    destruct (publish h env pages t4) as [[[imageMap|e5]|e5] t5] eqn:H5;
      [rewrite (andThen_Ok _ _ _ _ _ H5) in H
      |by rewrite (andThen_Err _ _ _ _ _ H5) in H
      |by rewrite (andThen_Throw _ _ _ _ _ H5) in H].
    exists args, env, pages, imageMap, t5. split; [|done].
    exists t4. split; [|done]. exists t3. split; [|done].
    exists t2. split; [|done]. by exists t1.
  - intros (args & env & pages & imageMap & t5
            & (t4 & (t3 & (t2 & (t1 & H1 & H2) & H3) & H4) & H5) & H).
    unfold cliOk in *.
    rewrite (andThen_Ok _ _ _ _ _ H1), (andThen_Ok _ _ _ _ _ H2),
      (andThen_Ok _ _ _ _ _ H3), (andThen_Ok _ _ _ _ _ H4),
      (andThen_Ok _ _ _ _ _ H5). done.
Qed.

(** C4.  [main] is the short-circuiting composition of the six stages in
    the order: command line, configuration, output directory, OCR, image
    publisher, Markdown assembler.  It returns an error exactly when some
    stage, started on what the successes of all the stages before it have
    left, returns that error; the error is returned as it is and the trace
    is the one that stage left, so no later stage has run.  It succeeds
    exactly when all six stages do.  The calls of a run appear in the order
    of the stages.  At the process boundary an error is printed and the exit
    code is 1, a run without error ends with code 0, and an exception that
    nothing catches ends the process with code 1 as well. *)
Theorem orchestrator_short_circuits h :
  (∀ t, main h t = pipeline h t) ∧
  (∀ e t, main h [] = (Return (Err e), t) ↔ stoppedBy h e t) ∧
  (∀ t, main h [] = (Return (Ok ()), t) ↔ markdownOk h t) ∧
  inStageOrder (main h []).2 ∧
  (∀ e t, main h [] = (Return (Err e), t) →
          run h = (1, (t ++ [EvConsoleError e; EvExit 1])%list)) ∧
  (∀ t, main h [] = (Return (Ok ()), t) → run h = (0, t)) ∧
  (∀ e t, main h [] = (Throw e, t) →
          run h = (1, (t ++ [EvUncaught e])%list)).
Proof.
  split; [apply main_pipeline|]. split; [apply main_Err_stoppedBy|].
  split; [apply main_Ok_markdownOk|]. split; [apply main_inStageOrder|].
  split; [|split].
  - intros e t Hmain. unfold run. by rewrite Hmain.
  - intros t Hmain. unfold run. by rewrite Hmain.
  - intros e t Hmain. unfold run. by rewrite Hmain.
Qed.

Lemma orchestrator_short_circuits_witness :
  run keylessWorld
  = (1, [EvStatSync "in.pdf"; EvStatSync "out";
         EvEnvGet "MISTRAL_OCR_API_KEY"; EvEnvGet "R2_S3_URL";
         EvEnvGet "R2_ACCESS_KEY_ID"; EvEnvGet "R2_SECRET_ACCESS_KEY";
         EvEnvGet "R2_BUCKET_NAME"; EvEnvGet "R2_PUBLIC_URL";
         EvConsoleError (ValidationError "MISTRAL_OCR_API_KEY が見つかりません");
         EvExit 1]) ∧
  (run demoWorld).1 = 0.
Proof.
  destruct (orchestrator_short_circuits keylessWorld)
    as (_ & _ & _ & _ & Herr & _).
  destruct (orchestrator_short_circuits demoWorld)
    as (_ & _ & _ & _ & _ & Hok & _).
  split.
  - exact (Herr _ _ eq_refl).
  - by rewrite (Hok _ eq_refl).
Defined.

(** ** Failures before the first network call *)

Lemma early_stage_no_network evs s :
  Forall (λ ev, stage_of ev = s) evs →
  s = StCli ∨ s = StEnv ∨ s = StDir ∨ s = StBoundary →
  no_network evs.
Proof.
  intros Hs Hearly. eapply Forall_impl; [exact Hs|].
  intros [] Hev; simpl in *; try done; subst s;
    by destruct Hearly as [|[|[|]]].
Qed.

Lemma getCliArgs_no_network h r t1 :
  getCliArgs h [] = (r, t1) → no_network t1.
Proof.
  intros H. destruct (getCliArgs_footprint h []) as (evs & Ht & Hs).
  rewrite H in Ht. simpl in Ht. subst t1.
  eapply early_stage_no_network; [exact Hs|by left].
Qed.

Lemma main_fails_at_cli h r t1 :
  getCliArgs h [] = (r, t1) → (∀ args, r ≠ Return (Ok args)) →
  main h [] = (sameFailure r, t1).
Proof.
  intros H Hfail. rewrite main_pipeline. unfold pipeline.
  destruct r as [[args|e]|e].
  - by destruct (Hfail args).
  - by apply andThen_Err.
  - by apply andThen_Throw.
Qed.

Lemma run_fails_at_cli h r t1 :
  getCliArgs h [] = (r, t1) → (∀ args, r ≠ Return (Ok args)) →
  (run h).1 = 1 ∧ no_network (run h).2.
Proof.
  intros H Hfail. unfold run. rewrite (main_fails_at_cli h r t1 H Hfail).
  pose proof (getCliArgs_no_network h r t1 H) as Hnet.
  destruct r as [[args|e]|e]; simpl.
  - by destruct (Hfail args).
  - split; [done|]. apply Forall_app. split; [done|]. by repeat constructor.
  - split; [done|]. apply Forall_app. split; [done|]. by repeat constructor.
Qed.

Lemma find_missing h key :
  key ∈ requiredKeys → missing h key = true →
  ∃ first, List.find (missing h) requiredKeys = Some first ∧
           first ∈ requiredKeys ∧ missing h first = true.
Proof.
  intros Hin Hmiss.
  destruct (List.find (missing h) requiredKeys) as [first|] eqn:Hfind.
  - apply find_some in Hfind as [Hf Hm]. exists first.
    split; [done|]. split; [by apply list_elem_of_In|done].
  - apply list_elem_of_In in Hin.
    pose proof (find_none _ _ Hfind key Hin) as Hn. congruence.
Qed.

Lemma main_fails_at_env h args t1 first :
  getCliArgs h [] = (Return (Ok args), t1) →
  List.find (missing h) requiredKeys = Some first →
  main h [] = (Return (Err (ValidationError (first +:+ " が見つかりません"))),
               (t1 ++ (EvEnvGet <$> requiredKeys))%list).
Proof.
  intros H1 Hfind. rewrite main_pipeline. unfold pipeline.
  rewrite (andThen_Ok _ _ _ _ _ H1). apply andThen_Err.
  rewrite getEnvs_run. by rewrite Hfind.
Qed.

(** C6.  The configuration loader reads the six values and returns either
    all of them, as the environment has them, or a ValidationError that
    names the first one, in the order of [requiredKeys], that is unset or
    empty.  When a value is missing the run fails, with exit code 1, and
    neither the run nor the process boundary makes a network call; if the
    command line was accepted the failure is that ValidationError. *)
Theorem config_loader_all_or_first_missing h :
  (∀ t,
     getEnvs h t
     = (match List.find (missing h) requiredKeys with
        | Some key =>
            Return (Err (ValidationError (key +:+ " が見つかりません")))
        | None =>
            Return (Ok (mkEnv
                          (default "" (Deno_env h !! "MISTRAL_OCR_API_KEY"))
                          (default "" (Deno_env h !! "R2_S3_URL"))
                          (default "" (Deno_env h !! "R2_ACCESS_KEY_ID"))
                          (default "" (Deno_env h !! "R2_SECRET_ACCESS_KEY"))
                          (default "" (Deno_env h !! "R2_BUCKET_NAME"))
                          (default "" (Deno_env h !! "R2_PUBLIC_URL"))))
        end, (t ++ (EvEnvGet <$> requiredKeys))%list)) ∧
  (∀ t env t',
     getEnvs h t = (Return (Ok env), t') →
     Deno_env h !! "MISTRAL_OCR_API_KEY" = Some (MISTRAL_OCR_API_KEY env) ∧
     Deno_env h !! "R2_S3_URL" = Some (R2_S3_URL env) ∧
     Deno_env h !! "R2_ACCESS_KEY_ID" = Some (R2_ACCESS_KEY_ID env) ∧
     Deno_env h !! "R2_SECRET_ACCESS_KEY" = Some (R2_SECRET_ACCESS_KEY env) ∧
     Deno_env h !! "R2_BUCKET_NAME" = Some (R2_BUCKET_NAME env) ∧
     Deno_env h !! "R2_PUBLIC_URL" = Some (R2_PUBLIC_URL env)) ∧
  (∀ key, key ∈ requiredKeys → missing h key = true →
     (main h []).1 ≠ Return (Ok ()) ∧
     no_network (main h []).2 ∧
     (run h).1 = 1 ∧
     no_network (run h).2 ∧
     (∀ args t1, getCliArgs h [] = (Return (Ok args), t1) →
        ∃ first, List.find (missing h) requiredKeys = Some first ∧
                 (main h []).1
                 = Return (Err (ValidationError
                                  (first +:+ " が見つかりません"))))).
Proof.
  split; [apply getEnvs_run|]. split.
  - intros t env t'. rewrite getEnvs_run.
    destruct (List.find (missing h) requiredKeys) eqn:Hfind; [done|].
    intros [= <- _]. simpl.
    assert (∀ key, key ∈ requiredKeys →
              Deno_env h !! key = Some (default "" (Deno_env h !! key))) as Hk.
    { intros key Hin. apply list_elem_of_In in Hin.
      pose proof (find_none _ _ Hfind key Hin) as Hn. unfold missing in Hn.
      by destruct (Deno_env h !! key). }
    repeat split; apply Hk; unfold requiredKeys; repeat constructor.
  - intros key Hin Hmiss.
    destruct (find_missing h key Hin Hmiss) as (first & Hfind & _ & _).
    destruct (getCliArgs h []) as [r t1] eqn:H1.
    pose proof (getCliArgs_no_network h r t1 H1) as Hnet.
    assert ((∃ args, r = Return (Ok args)) ∨ ∀ args, r ≠ Return (Ok args))
      as [[args ->]|Hfail'] by (destruct r as [[args|e]|e]; eauto).
    + pose proof (main_fails_at_env h args t1 first H1 Hfind) as Hmain.
      assert (no_network (t1 ++ (EvEnvGet <$> requiredKeys))%list) as Hnet2.
      { apply Forall_app. split; [done|]. by repeat constructor. }
      unfold run. rewrite Hmain. simpl. split; [done|]. split; [done|].
      split; [done|]. split.
      * apply Forall_app. split; [done|]. by repeat constructor.
      * intros args' t1' [= <- <-]. by exists first.
    + destruct (run_fails_at_cli h r t1 H1 Hfail') as [Hcode Hrun].
      rewrite (main_fails_at_cli h r t1 H1 Hfail'). simpl.
      split; [|split; [done|split; [done|split; [done|]]]].
      * destruct r as [[args|e]|e]; [by destruct (Hfail' args)|done..].
      * intros args t1' [= -> _]. by destruct (Hfail' args).
Qed.

Lemma config_loader_all_or_first_missing_witness :
  missing keylessWorld "MISTRAL_OCR_API_KEY" = true ∧
  (main keylessWorld []).1
  = Return (Err (ValidationError "MISTRAL_OCR_API_KEY が見つかりません")) ∧
  no_network (run keylessWorld).2.
Proof.
  destruct (config_loader_all_or_first_missing keylessWorld) as (_ & _ & H).
  destruct (H "MISTRAL_OCR_API_KEY") as (_ & _ & _ & Hnet & Hmain);
    [left|reflexivity|].
  destruct (Hmain _ _ eq_refl) as (first & Hfirst & Hr).
  injection Hfirst as <-.
  split; [reflexivity|]. split; [exact Hr|exact Hnet].
Defined.

Lemma processTokens_rejected tokens : ∀ values positionals,
  Exists rejected tokens →
  ∃ e, NodeUtil.processTokens cliOptions false tokens values positionals
       = Throw e.
Proof.
  induction tokens as [|tok tokens IH]; intros values positionals Hex.
  - by apply Exists_nil in Hex.
  - destruct tok as [name rawName value|w|]; simpl.
    + destruct (NodeUtil.checkOptionUsage cliOptions name rawName value)
        as [e|] eqn:Hu; [by eauto|].
      destruct (NodeUtil.checkOptionLikeValue name rawName value)
        as [e|] eqn:Hl; [by eauto|].
      apply IH. apply Exists_cons in Hex as [Hrej|Hex]; [|done].
      exfalso. simpl in Hrej.
      unfold NodeUtil.checkOptionUsage, NodeUtil.optionConfig in Hu.
      simpl in Hu. destruct Hrej as [[Hi Ho]|Hrej].
      * rewrite bool_decide_eq_false_2 in Hu by done. simpl in Hu.
        by rewrite bool_decide_eq_false_2 in Hu by done.
      * destruct value as [[v inline]|].
        -- destruct Hrej as [-> Hv]. simpl in Hl. by rewrite Hv in Hl.
        -- repeat case_bool_decide; simpl in Hu; done.
    + by eauto.
    + apply IH. apply Exists_cons in Hex as [Hrej|Hex]; done.
Qed.

Lemma optionValue_cons key tok tokens :
  optionValue key (tok :: tokens)
  = match optionValue key tokens with
    | Some v => Some v
    | None => valueFor key tok
    end.
Proof.
  unfold optionValue.
  change (omap (valueFor key) (tok :: tokens))
    with (match valueFor key tok with
          | Some y => y :: omap (valueFor key) tokens
          | None => omap (valueFor key) tokens
          end).
  destruct (valueFor key tok) as [v|].
  - rewrite last_cons. by destruct (last _).
  - by destruct (last _).
Qed.

Lemma stringValue_insert name v (values : gmap string NodeUtil.ArgValue) key :
  stringValue (<[name := NodeUtil.VString v]> values) key
  = if bool_decide (name = key) then Some v else stringValue values key.
Proof.
  unfold stringValue. case_bool_decide as Hk.
  - subst key. by rewrite lookup_insert_eq.
  - by rewrite lookup_insert_ne.
Qed.

Lemma processTokens_accepted tokens : ∀ values positionals,
  Forall (λ tok, ¬ rejected tok) tokens →
  ∃ values',
    NodeUtil.processTokens cliOptions false tokens values positionals
    = Return (values', positionals) ∧
    ∀ key, stringValue values' key
           = match optionValue key tokens with
             | Some v => Some v
             | None => stringValue values key
             end.
Proof.
  induction tokens as [|tok tokens IH]; intros values positionals Hall.
  - exists values. done.
  - apply Forall_cons in Hall as [Hok Hall].
    destruct tok as [name rawName value|w|]; simpl in *.
    + destruct value as [[v inline]|]; [|by destruct Hok; right].
      assert (name = "input" ∨ name = "outDir") as Hname.
      { destruct (decide (name = "input")); [by left|].
        destruct (decide (name = "outDir")); [by right|].
        destruct Hok. by left. }
      assert (NodeUtil.checkOptionUsage cliOptions name rawName
                (Some (v, inline)) = None) as ->.
      { by destruct Hname as [-> | ->]. }
      assert (NodeUtil.checkOptionLikeValue name rawName (Some (v, inline))
              = None) as ->.
      { simpl. destruct inline; [done|].
        destruct (NodeUtil.isOptionLikeValue v) eqn:Hv; [|done].
        destruct Hok. by right. }
      assert (NodeUtil.storeOption name (Some (v, inline)) values
              = <[name := NodeUtil.VString v]> values) as ->.
      { by destruct Hname as [-> | ->]. }
      destruct (IH (<[name := NodeUtil.VString v]> values) positionals Hall)
        as (values' & Hrun & Hvalues).
      exists values'. split; [done|]. intros key.
      rewrite Hvalues, optionValue_cons, stringValue_insert. simpl.
      destruct (optionValue key tokens); [done|]. by case_bool_decide.
    + done.
    + destruct (IH values positionals Hall) as (values' & Hrun & Hvalues).
      exists values'. split; [done|]. intros key.
      rewrite Hvalues, optionValue_cons. simpl.
      by destruct (optionValue key tokens).
Qed.

Lemma parseArgs_accepted args :
  Forall (λ tok, ¬ rejected tok) (NodeUtil.argsToTokens cliOptions args) →
  ∃ values,
    NodeUtil.parseArgs args cliOptions false = Return (values, []) ∧
    ∀ key, stringValue values key
           = optionValue key (NodeUtil.argsToTokens cliOptions args).
Proof.
  intros Hall. unfold NodeUtil.parseArgs.
  destruct (processTokens_accepted _ ∅ [] Hall) as (values & Hrun & Hvalues).
  exists values. split; [done|]. intros key. rewrite Hvalues.
  by destruct (optionValue key _).
Qed.

(** C9, as the code has it.  The command line is parsed first.  When the
    parser refuses it, because of a positional argument, of an option that
    is neither [--input]/[-i] nor [--outDir]/[-o], of an option without a
    value or of a value taken from the next argument that looks like an
    option, it throws a TypeError that nothing catches: the run ends on that
    exception, with no call made, and not with a ValidationError, whether a
    required option is missing or not.  When the parser accepts the command
    line, the value of an option is that of its last occurrence, and the
    checks are made in this order, the first that fails giving the
    ValidationError of its condition: [--input] missing or empty, [--outDir]
    missing or empty, the input path does not exist, the input path is not a
    file, the output path does not exist, the output path is not a
    directory; when all hold the two paths are returned.  Whenever the
    command line is not accepted, [main] ends with the same failure, the
    exit code is 1, and no network call is made.  Every command line is in
    one of the two cases. *)
Theorem cli_arguments_validated h :
  let tokens := NodeUtil.argsToTokens cliOptions (Deno_args h) in
  let input := optionValue "input" tokens in
  let outDir := optionValue "outDir" tokens in
  let i := default "" input in
  let o := default "" outDir in
  let failed (message : string) (evs : list Event) (t : list Event) :=
    getCliArgs h t
    = (Return (Err (ValidationError message)), (t ++ evs)%list) in
  (Exists rejected tokens →
     ∃ e, error_name e = "TypeError" ∧
          NodeUtil.parseArgs (Deno_args h) cliOptions false = Throw e ∧
          (∀ t, getCliArgs h t = (Throw e, t)) ∧
          main h [] = (Throw e, []) ∧
          run h = (1, [EvUncaught e])) ∧
  (Forall (λ tok, ¬ rejected tok) tokens →
     (∃ values,
        NodeUtil.parseArgs (Deno_args h) cliOptions false = Return (values, []) ∧
        stringValue values "input" = input ∧
        stringValue values "outDir" = outDir) ∧
     ∀ t,
       (truthy input = false → failed "args.input が見つかりません" [] t) ∧
       (truthy input = true → truthy outDir = false →
          failed "args.outDir が見つかりません" [] t) ∧
       (truthy input = true → truthy outDir = true →
          (∀ e, Deno_statSync h i = Throw e →
             failed "args.input が存在しません" [EvStatSync i] t) ∧
          (∀ statIn, Deno_statSync h i = Return statIn →
             (isFile statIn = false →
                failed "args.input はファイルではありません" [EvStatSync i] t) ∧
             (isFile statIn = true →
                (∀ e, Deno_statSync h o = Throw e →
                   failed "args.outDir が存在しません"
                     [EvStatSync i; EvStatSync o] t) ∧
                (∀ statOut, Deno_statSync h o = Return statOut →
                   (isDirectory statOut = false →
                      failed "args.outDir はディレクトリではありません"
                        [EvStatSync i; EvStatSync o] t) ∧
                   (isDirectory statOut = true →
                      getCliArgs h t
                      = (Return (Ok (mkArgs i o)),
                         (t ++ [EvStatSync i; EvStatSync o])%list))))))) ∧
  (∀ r t1,
     getCliArgs h [] = (r, t1) → (∀ args, r ≠ Return (Ok args)) →
     main h [] = (sameFailure r, t1) ∧
     no_network t1 ∧
     (run h).1 = 1 ∧
     no_network (run h).2) ∧
  (Exists rejected tokens ∨ Forall (λ tok, ¬ rejected tok) tokens).
Proof.
  intros tokens input outDir i o failed. split; [|split; [|split]].
  - intros Hex.
    destruct (processTokens_rejected tokens ∅ [] Hex) as [e He].
    fold (NodeUtil.parseArgs (Deno_args h) cliOptions false) in He.
    pose proof (getCliArgs_throw h [] e He) as Hcli.
    exists e. split; [by eapply processTokens_TypeError|]. split; [done|].
    split; [intros t; by apply getCliArgs_throw|].
    assert (main h [] = (Throw e, [])) as Hmain.
    { by rewrite (main_fails_at_cli h (Throw e) [] Hcli). }
    split; [done|]. unfold run. by rewrite Hmain.
  - intros Hall.
    destruct (parseArgs_accepted (Deno_args h) Hall) as (values & Hp & Hvalues).
    pose proof (Hvalues "input") as Hin. pose proof (Hvalues "outDir") as Hout.
    fold tokens in Hin, Hout. fold input in Hin. fold outDir in Hout.
    split; [by exists values|]. intros t. unfold failed.
    rewrite (getCliArgs_parsed h t values [] Hp). rewrite Hin, Hout.
    fold i o. split; [|split].
    + intros ->. simpl. by rewrite app_nil_r.
    + intros -> ->. simpl. by rewrite app_nil_r.
    + intros -> ->. simpl. split.
      * by intros e ->.
      * intros statIn ->. split; [by intros ->|]. intros ->. simpl. split.
        -- by intros e ->.
        -- intros statOut ->. split; by intros ->.
  - intros r t1 H Hfail. split; [by apply main_fails_at_cli|].
    split; [by eapply getCliArgs_no_network|].
    by eapply run_fails_at_cli.
  - destruct (decide (Exists rejected tokens)) as [Hex|Hno]; [by left|right].
    apply Forall_forall. intros tok Hin Hrej. apply Hno.
    apply Exists_exists. by exists tok.
Qed.

Lemma cli_arguments_validated_witness :
  run unknownOptionWorld
  = (1, [EvUncaught (NodeUtil.ERR_PARSE_ARGS_UNKNOWN_OPTION "-x")]) ∧
  getCliArgs noInputWorld []
  = (Return (Err (ValidationError "args.input が見つかりません")), []) ∧
  no_network (run noInputWorld).2.
Proof.
  destruct (cli_arguments_validated unknownOptionWorld) as (Hrej & _ & _).
  destruct (cli_arguments_validated noInputWorld) as (_ & Hacc & Hfail & _).
  split; [|split].
  - destruct Hrej as (e & _ & Hp & _ & _ & Hrun).
    { apply (bool_decide_unpack _). by vm_compute. }
    injection Hp as <-. exact Hrun.
  - destruct Hacc as (_ & Hchecks).
    { apply (bool_decide_unpack _). by vm_compute. }
    destruct (Hchecks []) as (Hmissing & _). rewrite Hmissing; reflexivity.
  - destruct (Hfail _ _ eq_refl) as (_ & _ & _ & Hnet); [discriminate|].
    exact Hnet.
Defined.

(** C9 as stated fails: a command line the parser refuses does not end in a
    ValidationError.  With a positional argument after two valid options,
    and with an undeclared option on a command line that has no [--input],
    the parser throws a TypeError, nothing catches it, and the process ends
    on the uncaught exception; the missing [--input] is never reported. *)
Lemma parser_rejection_is_not_a_validation_error :
  Deno_args positionalWorld = ["-i"; "in.pdf"; "-o"; "out"; "notes.txt"] ∧
  main positionalWorld []
  = (Throw (NodeUtil.ERR_PARSE_ARGS_UNEXPECTED_POSITIONAL "notes.txt"), []) ∧
  (∀ e, (main positionalWorld []).1 ≠ Return (Err e)) ∧
  run positionalWorld
  = (1, [EvUncaught
           (NodeUtil.ERR_PARSE_ARGS_UNEXPECTED_POSITIONAL "notes.txt")]) ∧
  Deno_args unknownOptionWorld = ["-o"; "out"; "-x"] ∧
  optionValue "input"
    (NodeUtil.argsToTokens cliOptions (Deno_args unknownOptionWorld)) = None ∧
  main unknownOptionWorld []
  = (Throw (NodeUtil.ERR_PARSE_ARGS_UNKNOWN_OPTION "-x"), []) ∧
  (∀ e, (main unknownOptionWorld []).1 ≠ Return (Err e)) ∧
  run unknownOptionWorld
  = (1, [EvUncaught (NodeUtil.ERR_PARSE_ARGS_UNKNOWN_OPTION "-x")]).
Proof. repeat split; try reflexivity; intros e; discriminate. Qed.

Lemma find_ext_in {A} (f g : A → bool) (l : list A) :
  (∀ x, x ∈ l → f x = g x) → List.find f l = List.find g l.
Proof.
  induction l as [|x l IH]; intros H; [done|]. simpl.
  rewrite <- (H x) by left. destruct (f x); [done|].
  apply IH. intros y Hy. apply H. by right.
Qed.

(** C10.  A required variable set to the empty string is treated as an
    unset one: the loader counts it as missing, and returns exactly what it
    returns when the variable is removed from the environment, a
    ValidationError that names the first missing variable, which is this one
    when none before it is missing.  No loader result ever carries an empty
    value to a later stage. *)
Theorem empty_value_is_missing h key :
  key ∈ requiredKeys → Deno_env h !! key = Some "" →
  missing h key = true ∧
  (∀ t, getEnvs h t = getEnvs (withEnv h (delete key (Deno_env h))) t) ∧
  (∀ t, ∃ first,
     List.find (missing h) requiredKeys = Some first ∧
     getEnvs h t
     = (Return (Err (ValidationError (first +:+ " が見つかりません"))),
        (t ++ (EvEnvGet <$> requiredKeys))%list)) ∧
  (List.find (missing h) requiredKeys = Some key →
   ∀ t, getEnvs h t
        = (Return (Err (ValidationError (key +:+ " が見つかりません"))),
           (t ++ (EvEnvGet <$> requiredKeys))%list)) ∧
  (∀ (h' : Host) t env t',
     getEnvs h' t = (Return (Ok env), t') →
     MISTRAL_OCR_API_KEY env ≠ "" ∧ R2_S3_URL env ≠ "" ∧
     R2_ACCESS_KEY_ID env ≠ "" ∧ R2_SECRET_ACCESS_KEY env ≠ "" ∧
     R2_BUCKET_NAME env ≠ "" ∧ R2_PUBLIC_URL env ≠ "").
Proof.
  intros Hin Hempty.
  assert (missing h key = true) as Hmiss by (unfold missing; by rewrite Hempty).
  split; [done|]. split; [|split; [|split]].
  - intros t. rewrite !getEnvs_run.
    assert (∀ k, missing (withEnv h (delete key (Deno_env h))) k = missing h k)
      as Hsame.
    { intros k. unfold missing. simpl. destruct (decide (k = key)) as [->|Hne].
      - by rewrite lookup_delete_eq, Hempty.
      - by rewrite lookup_delete_ne. }
    rewrite (find_ext_in (missing (withEnv h (delete key (Deno_env h))))
               (missing h)) by (intros; apply Hsame).
    destruct (find_missing h key Hin Hmiss) as (first & -> & _). done.
  - intros t. destruct (find_missing h key Hin Hmiss) as (first & Hfind & _).
    exists first. split; [done|]. rewrite getEnvs_run. by rewrite Hfind.
  - intros Hfind t. rewrite getEnvs_run. by rewrite Hfind.
  - intros h' t env t'. rewrite getEnvs_run.
    destruct (List.find (missing h') requiredKeys) eqn:Hfind; [done|].
    intros [= <- _]. simpl.
    assert (∀ k, k ∈ requiredKeys → default "" (Deno_env h' !! k) ≠ "") as Hk.
    { intros k Hk. apply list_elem_of_In in Hk.
      pose proof (find_none _ _ Hfind k Hk) as Hn. unfold missing in Hn.
      by destruct (Deno_env h' !! k) as [[|]|]. }
    repeat split; apply Hk; unfold requiredKeys; repeat constructor.
Qed.

Lemma empty_value_is_missing_witness :
  Deno_env emptyBucketWorld !! "R2_BUCKET_NAME" = Some "" ∧
  getEnvs emptyBucketWorld []
  = (Return (Err (ValidationError "R2_BUCKET_NAME が見つかりません")),
     EvEnvGet <$> requiredKeys) ∧
  getEnvs (withEnv emptyBucketWorld
             (delete "R2_BUCKET_NAME" (Deno_env emptyBucketWorld))) []
  = getEnvs emptyBucketWorld [].
Proof.
  destruct (empty_value_is_missing emptyBucketWorld "R2_BUCKET_NAME")
    as (_ & Hsame & _ & Hnamed & _);
    [unfold requiredKeys; repeat constructor|reflexivity|].
  split; [reflexivity|]. split.
  - exact (Hnamed eq_refl []).
  - symmetry. exact (Hsame []).
Defined.

(* ===================================================================== *)
(** * Further properties of the program *)
(* ===================================================================== *)

(** ** [uploadImages]: where a failure leaves the bucket *)

Section upload_failure.
Context (h : Host) (client : S3Client) (bucketName publicUrl ymd : string).

Lemma uploadLoop_failure imgs : ∀ acc t e t',
  uploadLoop h client bucketName publicUrl ymd imgs acc t = (Throw e, t') →
  ∃ before img after sends,
    filter hasBytes imgs = (before ++ img :: after)%list ∧
    Forall2 (uploadOf client bucketName ymd) before sends ∧
    ((decodeBase64 (cleaned img) = Throw e ∧ t' = (t ++ sends)%list)
     ∨ (∃ body,
          decodeBase64 (cleaned img) = Return body ∧
          client_send h (t ++ sends)%list client
            (commandOf bucketName ymd img body) = Throw e ∧
          t' = (t ++ sends
                  ++ [EvS3Send client (commandOf bucketName ymd img body)])%list)).
Proof.
  induction imgs as [|img imgs IH]; intros acc t e t'; [done|].
  destruct (decide (hasBytes img)) as [Hb|Hb].
  2:{ rewrite uploadLoop_skip by done. rewrite filter_cons_False by done.
      apply IH. }
  rewrite filter_cons_True by done. rewrite uploadLoop_bytes by done.
  destruct (decodeBase64 (cleaned img)) as [body|e0] eqn:Hdec.
  2:{ intros [= <- <-]. exists [], img, (filter hasBytes imgs), [].
      split; [done|]. split; [constructor|]. left. by rewrite app_nil_r. }
  destruct (client_send h t client _) as [[]|e0] eqn:Hsend.
  2:{ intros [= <- <-]. exists [], img, (filter hasBytes imgs), [].
      split; [done|]. split; [constructor|]. right. exists body.
      rewrite app_nil_r. done. }
  intros Hrun. apply IH in Hrun
    as (before & img' & after & sends & Hf & Hup & Hr).
  exists (img :: before), img', after,
    (EvS3Send client (commandOf bucketName ymd img body) :: sends).
  split; [by rewrite Hf|]. split.
  { constructor; [by exists body|done]. }
  destruct Hr as [[Hd ->]|(body' & Hd & Hs & ->)]; [left|right].
  - split; [done|]. by rewrite <- app_assoc.
  - exists body'. split; [done|]. rewrite <- !app_assoc in *. done.
Qed.

Lemma uploadLoop_filter imgs : ∀ acc t,
  uploadLoop h client bucketName publicUrl ymd imgs acc t
  = uploadLoop h client bucketName publicUrl ymd (filter hasBytes imgs) acc t.
Proof.
  induction imgs as [|img imgs IH]; intros acc t; [done|].
  destruct (decide (hasBytes img)) as [Hb|Hb].
  - rewrite filter_cons_True by done. rewrite !uploadLoop_bytes by done.
    destruct (decodeBase64 (cleaned img)) as [body|e0]; [|done].
    destruct (client_send h t client _) as [[]|e0]; [|done]. apply IH.
  - rewrite uploadLoop_skip by done. rewrite filter_cons_False by done.
    apply IH.
Qed.
End upload_failure.

Lemma uploadImages_filter h bucketName s3Url accessKeyId secretAccessKey
    publicUrl imgs t :
  uploadImages h bucketName s3Url accessKeyId secretAccessKey publicUrl imgs t
  = uploadImages h bucketName s3Url accessKeyId secretAccessKey publicUrl
      (filter hasBytes imgs) t.
Proof.
  unfold uploadImages, fromPromise, bind, call.
  by rewrite uploadLoop_filter.
Qed.

(** X1.  When the image publisher fails, it has stopped at the first image
    with bytes that could not be stored: the images with bytes before it
    have been uploaded, in order, and stay in the bucket; the failing image
    either could not be decoded, and then nothing was sent for it, or was
    refused by the bucket; nothing is sent for the images after it, and the
    error carries the cause of that one failure. *)
Theorem uploadImages_stops_at_first_failure
    h bucketName s3Url accessKeyId secretAccessKey publicUrl imgs t e t' :
  uploadImages h bucketName s3Url accessKeyId secretAccessKey publicUrl imgs t
    = (Return (Err e), t') →
  let client := mkS3Client "auto" s3Url accessKeyId secretAccessKey in
  let ymd := ymd_of (new_Date h t) in
  ∃ before img after sends cause,
    filter hasBytes imgs = (before ++ img :: after)%list ∧
    Forall2 (uploadOf client bucketName ymd) before sends ∧
    e = SystemError ("画像のアップロードに失敗しました: "
                     +:+ Error_toString cause) ∧
    ((decodeBase64 (cleaned img) = Throw cause ∧
      t' = (t ++ EvNewDate :: sends)%list)
     ∨ (∃ body,
          decodeBase64 (cleaned img) = Return body ∧
          client_send h (t ++ EvNewDate :: sends)%list client
            (commandOf bucketName ymd img body) = Throw cause ∧
          t' = (t ++ EvNewDate :: sends
                  ++ [EvS3Send client (commandOf bucketName ymd img body)])%list)).
Proof.
  intros Hrun client ymd. unfold uploadImages, fromPromise, bind, call in Hrun.
  fold client ymd in Hrun.
  destruct (uploadLoop h client bucketName publicUrl ymd imgs []
              (t ++ [EvNewDate])%list) as [[m|cause] t''] eqn:Hloop; [done|].
  injection Hrun as <- <-.
  apply uploadLoop_failure in Hloop
    as (before & img & after & sends & Hf & Hup & Hr).
  exists before, img, after, sends, cause.
  split; [done|]. split; [done|]. split; [done|].
  destruct Hr as [[Hd ->]|(body & Hd & Hs & ->)]; [left|right].
  - split; [done|]. by rewrite <- app_assoc.
  - exists body. rewrite <- !app_assoc in *. done.
Qed.

Lemma uploadImages_stops_at_first_failure_witness :
  ∃ before img after sends cause,
    filter hasBytes [demoImage1; demoImage2; demoImage3; demoImage5]
    = (before ++ img :: after)%list ∧
    Forall2 (uploadOf (mkS3Client "auto" "https://s3.example" "ak" "sk")
               "bucket" (ymd_of (new_Date quotaWorld [])))
      before sends ∧
    SystemError "画像のアップロードに失敗しました: Error: quota exceeded"
    = SystemError ("画像のアップロードに失敗しました: "
                   +:+ Error_toString cause) ∧
    ((decodeBase64 (cleaned img) = Throw cause ∧
      [EvNewDate;
       EvS3Send (mkS3Client "auto" "https://s3.example" "ak" "sk")
         (mkPutObject "bucket" "paper/2025-01-05/img-1.png"
            [Byte.x41; Byte.x42; Byte.x43] "image/png" "public-read");
       EvS3Send (mkS3Client "auto" "https://s3.example" "ak" "sk")
         (mkPutObject "bucket" "paper/2025-01-05/img-3.png"
            [Byte.x41; Byte.x42; Byte.x43] "image/png" "public-read")]
      = ([] ++ EvNewDate :: sends)%list)
     ∨ (∃ body,
          decodeBase64 (cleaned img) = Return body ∧
          client_send quotaWorld ([] ++ EvNewDate :: sends)%list
            (mkS3Client "auto" "https://s3.example" "ak" "sk")
            (commandOf "bucket" (ymd_of (new_Date quotaWorld [])) img body)
          = Throw cause ∧
          [EvNewDate;
           EvS3Send (mkS3Client "auto" "https://s3.example" "ak" "sk")
             (mkPutObject "bucket" "paper/2025-01-05/img-1.png"
                [Byte.x41; Byte.x42; Byte.x43] "image/png" "public-read");
           EvS3Send (mkS3Client "auto" "https://s3.example" "ak" "sk")
             (mkPutObject "bucket" "paper/2025-01-05/img-3.png"
                [Byte.x41; Byte.x42; Byte.x43] "image/png" "public-read")]
          = ([] ++ EvNewDate :: sends
               ++ [EvS3Send (mkS3Client "auto" "https://s3.example" "ak" "sk")
                     (commandOf "bucket" (ymd_of (new_Date quotaWorld []))
                        img body)])%list)).
Proof.
  apply (uploadImages_stops_at_first_failure quotaWorld "bucket"
           "https://s3.example" "ak" "sk" "https://pub.example"
           [demoImage1; demoImage2; demoImage3; demoImage5] []).
  reflexivity.
Defined.

(** X2.  The images without bytes are invisible to the image publisher: a
    run on a list of images is the run on its images with bytes, result and
    calls alike.  So when no image has bytes, and in particular when there
    is no image at all, the publisher reads the clock, makes no call to the
    bucket, whatever state the bucket is in, and returns the empty
    mapping. *)
Theorem uploadImages_ignores_images_without_bytes
    h bucketName s3Url accessKeyId secretAccessKey publicUrl imgs t :
  uploadImages h bucketName s3Url accessKeyId secretAccessKey publicUrl imgs t
  = uploadImages h bucketName s3Url accessKeyId secretAccessKey publicUrl
      (filter hasBytes imgs) t
  ∧ (Forall (λ img, ¬ hasBytes img) imgs →
     uploadImages h bucketName s3Url accessKeyId secretAccessKey publicUrl
       imgs t
     = (Return (Ok []), (t ++ [EvNewDate])%list)).
Proof.
  split; [apply uploadImages_filter|].
  intros Hnone. rewrite uploadImages_filter.
  rewrite filter_none; [done|].
  intros img Hin. rewrite Forall_forall in Hnone. by apply Hnone.
Qed.

Lemma uploadImages_ignores_images_without_bytes_witness :
  uploadImages (refusingWorld "down") "bucket" "https://s3.example" "ak" "sk"
    "https://pub.example" [demoImage2; demoImage2] []
  = (Return (Ok []), [EvNewDate]).
Proof.
  apply (uploadImages_ignores_images_without_bytes (refusingWorld "down")
           "bucket" "https://s3.example" "ak" "sk" "https://pub.example"
           [demoImage2; demoImage2] []).
  repeat constructor; by vm_compute.
Defined.

(** ** Keys, urls and the date *)

(** X3.  Under one date, two images are stored under the same key, and
    published under the same url, exactly when they have the same id: images
    with different ids never overwrite each other, and a second image with
    the same id overwrites the first.  For one image, the keys of two dates
    differ.  The url is the public base url, a slash, and the key. *)
Theorem storage_key_identifies_the_image ymd ymd' publicUrl img1 img2 :
  (keyOf ymd img1 = keyOf ymd img2 ↔ id img1 = id img2) ∧
  (urlOf publicUrl ymd img1 = urlOf publicUrl ymd img2 ↔ id img1 = id img2) ∧
  (keyOf ymd img1 = keyOf ymd' img1 ↔ ymd = ymd') ∧
  urlOf publicUrl ymd img1 = publicUrl +:+ "/" +:+ keyOf ymd img1.
Proof.
  unfold keyOf, urlOf. split; [|split; [|split]].
  - split; [|by intros ->]. intros H.
    apply (String.app_inj "paper/") in H. apply String.app_inj in H.
    apply (String.app_inj "/") in H. by apply append_inj_r in H.
  - split; [|by intros ->]. intros H.
    apply String.app_inj in H.
    apply (String.app_inj "/paper/") in H. apply String.app_inj in H.
    apply (String.app_inj "/") in H. by apply append_inj_r in H.
  - split; [|by intros ->]. intros H.
    apply (String.app_inj "paper/") in H.
    rewrite <- !append_assoc in H. apply append_inj_r in H.
    apply append_inj_r in H. by apply append_inj_r in H.
  - done.
Qed.

Lemma storage_key_identifies_the_image_witness :
  keyOf "2025-01-05" demoImage1 ≠ keyOf "2025-01-05" demoImage3 ∧
  keyOf "2025-01-05" demoImage1 = keyOf "2025-01-05" demoImage6.
Proof.
  destruct (storage_key_identifies_the_image "2025-01-05" "2025-01-05"
              "https://pub.example" demoImage1 demoImage3) as ([H13 _] & _).
  destruct (storage_key_identifies_the_image "2025-01-05" "2025-01-05"
              "https://pub.example" demoImage1 demoImage6) as ([_ H16] & _).
  split.
  - intros H. apply H13 in H. discriminate H.
  - apply H16. reflexivity.
Defined.

Lemma padStart_twoDigits n :
  0 ≤ n ≤ 99 → padStart 2 "0" (String_of_number n) = twoDigits n.
Proof.
  intros Hn.
  assert (Forall (λ n, padStart 2 "0" (String_of_number n) = twoDigits n)
            (seqZ 0 100)) as Hall.
  { apply (bool_decide_unpack _). by vm_compute. }
  rewrite Forall_forall in Hall. apply Hall. apply elem_of_seqZ. lia.
Qed.

Lemma ymd_of_twoDigits today :
  0 ≤ getMonth today ≤ 11 → 1 ≤ getDate today ≤ 31 →
  ymd_of today
  = String_of_number (getFullYear today) +:+ "-"
      +:+ twoDigits (getMonth today + 1) +:+ "-" +:+ twoDigits (getDate today).
Proof.
  intros Hm Hd. unfold ymd_of.
  rewrite !padStart_twoDigits by lia. done.
Qed.

Lemma length_pretty_four y :
  1000 ≤ y ≤ 9999 → String.length (String_of_number y) = 4%nat.
Proof.
  intros Hy.
  assert (Forall (λ y, String.length (String_of_number y) = 4%nat)
            (seqZ 1000 9000)) as Hall.
  { apply (bool_decide_unpack _). by vm_compute. }
  rewrite Forall_forall in Hall. apply Hall. apply elem_of_seqZ. lia.
Qed.

Lemma length_append (a b : string) :
  String.length (a +:+ b) = (String.length a + String.length b)%nat.
Proof. induction a as [|x a IH]; [done|]. rewrite append_cons. simpl. by rewrite IH. Qed.

(** X4.  For the calendar fields of a date (month 0 to 11, day 1 to 31) the
    date part of the keys is the year, the month counted from 1 and the day,
    the last two written with exactly two digits and joined by hyphens; for
    a year of four digits it is ten characters long. *)
Theorem ymd_of_format today :
  0 ≤ getMonth today ≤ 11 → 1 ≤ getDate today ≤ 31 →
  ymd_of today
  = String_of_number (getFullYear today) +:+ "-"
      +:+ twoDigits (getMonth today + 1) +:+ "-" +:+ twoDigits (getDate today)
  ∧ (1000 ≤ getFullYear today ≤ 9999 → String.length (ymd_of today) = 10%nat).
Proof.
  intros Hm Hd. split; [by apply ymd_of_twoDigits|].
  intros Hy. rewrite ymd_of_twoDigits by done.
  rewrite !length_append, length_pretty_four by done. done.
Qed.

Lemma ymd_of_format_witness :
  ymd_of (mkDate 2025 11 9) = "2025-12-09" ∧
  String.length (ymd_of (mkDate 2025 11 9)) = 10%nat.
Proof.
  destruct (ymd_of_format (mkDate 2025 11 9)) as [Hf Hl];
    [simpl; lia|simpl; lia|].
  split.
  - rewrite Hf. reflexivity.
  - apply Hl. simpl. lia.
Defined.

Lemma digitChar_inj a b :
  0 ≤ a ≤ 9 → 0 ≤ b ≤ 9 → digitChar a = digitChar b → a = b.
Proof.
  intros Ha Hb H. unfold digitChar in H.
  apply (f_equal N_of_ascii) in H.
  rewrite !N_ascii_embedding in H by lia. lia.
Qed.

Lemma twoDigits_inj a b :
  0 ≤ a ≤ 99 → 0 ≤ b ≤ 99 → twoDigits a = twoDigits b → a = b.
Proof.
  intros Ha Hb [= H1 H2].
  assert (∀ n, 0 ≤ n ≤ 99 → 0 ≤ n / 10 ≤ 9) as Hdiv.
  { intros n Hn. split; [apply Z.div_pos; lia|].
    apply Z.lt_succ_r, Z.div_lt_upper_bound; lia. }
  assert (∀ n, 0 ≤ n `mod` 10 ≤ 9) as Hmod.
  { intros n. pose proof (Z.mod_pos_bound n 10). lia. }
  apply digitChar_inj in H1; [|by auto..].
  apply digitChar_inj in H2; [|by auto..].
  rewrite (Z.div_mod a 10), (Z.div_mod b 10) by lia. lia.
Qed.

Lemma append_inj_length (a b c d : string) :
  a +:+ b = c +:+ d → String.length b = String.length d → a = c ∧ b = d.
Proof.
  revert c. induction a as [|x a IH]; intros [|y c] H Hlen.
  - done.
  - change ("" +:+ b) with b in H. subst b. rewrite append_cons in Hlen.
    simpl in Hlen. rewrite length_append in Hlen. lia.
  - change ("" +:+ d) with d in H. subst d. rewrite append_cons in Hlen.
    simpl in Hlen. rewrite length_append in Hlen. lia.
  - rewrite !append_cons in H. injection H as -> H.
    destruct (IH c H Hlen) as [-> ->]. done.
Qed.

(** X5.  The date part is different for different dates: two calendar
    dates with the same date part are the same date, so the keys of two days
    never collide. *)
Theorem ymd_of_inj d1 d2 :
  0 ≤ getMonth d1 ≤ 11 → 1 ≤ getDate d1 ≤ 31 →
  0 ≤ getMonth d2 ≤ 11 → 1 ≤ getDate d2 ≤ 31 →
  ymd_of d1 = ymd_of d2 → d1 = d2.
Proof.
  intros Hm1 Hd1 Hm2 Hd2 H.
  rewrite !ymd_of_twoDigits in H by done.
  apply append_inj_length in H as [Hy H]; [|done].
  apply (inj pretty) in Hy.
  injection H as Hm Hd.
  assert (twoDigits (getMonth d1 + 1) = twoDigits (getMonth d2 + 1)) as Hm'
    by (unfold twoDigits; congruence).
  assert (twoDigits (getDate d1) = twoDigits (getDate d2)) as Hd'
    by (unfold twoDigits; congruence).
  apply twoDigits_inj in Hm'; [|lia..].
  apply twoDigits_inj in Hd'; [|lia..].
  destruct d1, d2. simpl in *. f_equal; lia.
Qed.

Lemma ymd_of_inj_witness :
  ymd_of (mkDate 2025 0 11) ≠ ymd_of (mkDate 2025 10 1).
Proof.
  intros H.
  pose proof (ymd_of_inj (mkDate 2025 0 11) (mkDate 2025 10 1)) as Hinj.
  simpl in Hinj. specialize (Hinj ltac:(lia) ltac:(lia) ltac:(lia) ltac:(lia) H).
  discriminate Hinj.
Defined.

(** ** Which images get a reference *)




(** ** The text of a page file *)

Lemma Array_join_blocks x (refs : list string) :
  Array_join LF (flat_map (λ l, [l; ""]) (x :: refs))
  = x +:+ LF +:+ refBlocks refs.
Proof.
  revert x. induction refs as [|r refs IH]; intros x; [done|].
  change (flat_map (λ l, [l; ""]) (x :: r :: refs))
    with (x :: "" :: flat_map (λ l, [l; ""]) (r :: refs)).
  change (flat_map (λ l, [l; ""]) (r :: refs))
    with (r :: "" :: flat_map (λ l, [l; ""]) refs).
  rewrite 2!Array_join_cons.
  change (r :: "" :: flat_map (λ l, [l; ""]) refs)
    with (flat_map (λ l, [l; ""]) (r :: refs)).
  rewrite IH. reflexivity.
Qed.

Lemma refBlocks_ends (refs : list string) : ∀ a,
  ∃ text, a +:+ LF +:+ refBlocks refs = text +:+ LF.
Proof.
  induction refs as [|r refs IH]; intros a.
  - exists a. simpl. by rewrite append_nil_r.
  - destruct (IH (a +:+ LF +:+ LF +:+ r)) as [text H]. exists text.
    rewrite <- H. simpl. by rewrite !append_assoc.
Qed.

Lemma pageContent_refBlocks imageMap object :
  pageContent imageMap object
  = "# Page " +:+ String_of_number (index object + 1) +:+ LF +:+ LF
      +:+ markdown object +:+ LF
      +:+ refBlocks (imageRefs imageMap (images object)).
Proof.
  unfold pageContent. rewrite pageLines_eq.
  change (flat_map (λ l, [l; ""])
            (("# Page " +:+ String_of_number (index object + 1))
               :: markdown object :: imageRefs imageMap (images object)))
    with (("# Page " +:+ String_of_number (index object + 1)) :: ""
            :: flat_map (λ l, [l; ""])
                 (markdown object :: imageRefs imageMap (images object))).
  destruct (flat_map (λ l, [l; ""])
              (markdown object :: imageRefs imageMap (images object)))
    as [|y l] eqn:Hl; [done|].
  rewrite 2!Array_join_cons. rewrite <- Hl.
  rewrite Array_join_blocks. by rewrite !append_assoc.
Qed.

(** X7.  The text of the file of a page is the heading [# Page <index+1>],
    an empty line, the OCR text of the page as it is and a line break,
    followed, for every reference of the page, by an empty line and the
    reference on a line of its own.  A page without references is the
    heading, an empty line and the text; the file always ends with a line
    break. *)
Theorem pageContent_text imageMap object :
  pageContent imageMap object
  = "# Page " +:+ String_of_number (index object + 1) +:+ LF +:+ LF
      +:+ markdown object +:+ LF
      +:+ refBlocks (imageRefs imageMap (images object))
  ∧ (imageRefs imageMap (images object) = [] →
     pageContent imageMap object
     = "# Page " +:+ String_of_number (index object + 1) +:+ LF +:+ LF
         +:+ markdown object +:+ LF)
  ∧ ∃ text, pageContent imageMap object = text +:+ LF.
Proof.
  pose proof (pageContent_refBlocks imageMap object) as Htext.
  split; [done|]. split.
  - intros Hnone. rewrite Htext, Hnone. simpl. by rewrite append_nil_r.
  - rewrite Htext.
    destruct (refBlocks_ends (imageRefs imageMap (images object))
                ("# Page " +:+ String_of_number (index object + 1) +:+ LF
                   +:+ LF +:+ markdown object)) as [text H].
    exists text. rewrite <- H. by rewrite !append_assoc.
Qed.

Lemma pageContent_text_witness :
  pageContent [mkUploaded "img-1" "https://pub.example/a.png"]
    (mkPage 0 "hello" [demoImage2] None)
  = "# Page 1" +:+ LF +:+ LF +:+ "hello" +:+ LF.
Proof.
  destruct (pageContent_text [mkUploaded "img-1" "https://pub.example/a.png"]
              (mkPage 0 "hello" [demoImage2] None)) as (_ & Hnone & _).
  apply Hnone. reflexivity.
Defined.

(** ** A payload the decoder refuses *)







(** ** [processOcr] *)

Lemma processOcr_steps h apiKey pdfPath t :
  let failed : Completion (Result (list OCRPageObject) AppError) :=
    Return (Err (SystemError "OCR 処理に失敗しました")) in
  processOcr h apiKey pdfPath t
  = match Deno_readFile h pdfPath with
    | Throw _ => (failed, (t ++ [EvReadFile pdfPath])%list)
    | Return pdfBytes =>
        match files_upload h apiKey (basename h pdfPath) pdfBytes with
        | Throw _ =>
            (failed, (t ++ take 2 (ocrCalls h apiKey pdfPath pdfBytes "" ""))%list)
        | Return fileId =>
            match files_getSignedUrl h apiKey fileId with
            | Throw _ =>
                (failed,
                 (t ++ take 3 (ocrCalls h apiKey pdfPath pdfBytes fileId ""))%list)
            | Return signedUrl =>
                (match ocr_process h apiKey signedUrl with
                 | Throw _ => failed
                 | Return pages => Return (Ok pages)
                 end,
                 (t ++ ocrCalls h apiKey pdfPath pdfBytes fileId signedUrl)%list)
            end
        end
    end.
Proof.
  intros failed. unfold processOcr, fromPromise, bind, call, ocrCalls.
  destruct (Deno_readFile h pdfPath) as [bytes|e1]; [|done].
  destruct (files_upload h apiKey _ bytes) as [fileId|e2];
    [|by rewrite <- app_assoc].
  destruct (files_getSignedUrl h apiKey fileId) as [signed|e3];
    [|by rewrite <- !app_assoc].
  destruct (ocr_process h apiKey signed) as [pages|e4];
    by rewrite <- !app_assoc.
Qed.

(** X9.  The OCR stage succeeds exactly when the file can be read, the
    upload is accepted, a signed url is obtained for the uploaded file and
    the OCR request on that url answers; its result is then the pages of
    that answer, unchanged, and its calls are these four, in this order,
    each fed with what the one before returned.  It stops at the first call
    that fails: whatever happens it makes at most four calls, the first of
    which reads the file, and when the file cannot be read it makes no
    network call. *)
Theorem processOcr_chain h apiKey pdfPath t :
  (∀ pages t',
     processOcr h apiKey pdfPath t = (Return (Ok pages), t') ↔
     ∃ pdfBytes fileId signedUrl,
       Deno_readFile h pdfPath = Return pdfBytes ∧
       files_upload h apiKey (basename h pdfPath) pdfBytes = Return fileId ∧
       files_getSignedUrl h apiKey fileId = Return signedUrl ∧
       ocr_process h apiKey signedUrl = Return pages ∧
       t' = (t ++ ocrCalls h apiKey pdfPath pdfBytes fileId signedUrl)%list) ∧
  (∃ n pdfBytes fileId signedUrl,
     (1 ≤ n ≤ 4)%nat ∧
     (processOcr h apiKey pdfPath t).2
     = (t ++ take n (ocrCalls h apiKey pdfPath pdfBytes fileId signedUrl))%list) ∧
  (∀ e, Deno_readFile h pdfPath = Throw e →
     processOcr h apiKey pdfPath t
     = (Return (Err (SystemError "OCR 処理に失敗しました")),
        (t ++ [EvReadFile pdfPath])%list)).
Proof.
  pose proof (processOcr_steps h apiKey pdfPath t) as Hsteps. simpl in Hsteps.
  split; [|split].
  - intros pages t'. rewrite Hsteps. split.
    + destruct (Deno_readFile h pdfPath) as [bytes|e1]; [|done].
      destruct (files_upload h apiKey _ bytes) as [fileId|e2] eqn:Hup; [|done].
      destruct (files_getSignedUrl h apiKey fileId) as [signed|e3] eqn:Hsig;
        [|done].
      destruct (ocr_process h apiKey signed) as [pages'|e4] eqn:Hocr; [|done].
      intros [= <- <-]. by exists bytes, fileId, signed.
    + intros (bytes & fileId & signed & -> & -> & -> & -> & ->). done.
  - rewrite Hsteps.
    destruct (Deno_readFile h pdfPath) as [bytes|e1].
    2:{ exists 1%nat, [], "", "". split; [lia|done]. }
    destruct (files_upload h apiKey _ bytes) as [fileId|e2].
    2:{ exists 2%nat, bytes, "", "". split; [lia|done]. }
    destruct (files_getSignedUrl h apiKey fileId) as [signed|e3].
    2:{ exists 3%nat, bytes, fileId, "". split; [lia|done]. }
    exists 4%nat, bytes, fileId, signed. split; [lia|done].
  - intros e He. rewrite Hsteps. by rewrite He.
Qed.

Lemma processOcr_chain_witness :
  processOcr demoWorld "key" "in.pdf" []
  = (Return (Ok demoPages),
     [ EvReadFile "in.pdf";
       EvFilesUpload "key" "in.pdf" "application/pdf" [] "ocr";
       EvGetSignedUrl "key" "file-1";
       EvOcrProcess "key" "mistral-ocr-latest" "https://signed.example" true ])
  ∧ processOcr unreadableWorld "key" "in.pdf" []
    = (Return (Err (SystemError "OCR 処理に失敗しました")), [EvReadFile "in.pdf"]).
Proof.
  destruct (processOcr_chain demoWorld "key" "in.pdf" []) as (Hok & _ & _).
  destruct (processOcr_chain unreadableWorld "key" "in.pdf" [])
    as (_ & _ & Hread).
  split.
  - apply Hok. exists [], "file-1", "https://signed.example". done.
  - exact (Hread _ eq_refl).
Defined.

(** ** [generateMarkdown]: where a failure leaves the directory *)

Lemma pagesLoop_failure h imageMap outDir objects : ∀ acc t e t',
  pagesLoop h imageMap outDir objects acc t = (Throw e, t') →
  ∃ before object after,
    objects = (before ++ object :: after)%list ∧
    Deno_writeTextFile h (t ++ (pageWrite imageMap outDir <$> before))%list
      (pageFile outDir object) (pageContent imageMap object) = Throw e ∧
    t' = (t ++ (pageWrite imageMap outDir <$> before)
            ++ [pageWrite imageMap outDir object])%list.
Proof.
  induction objects as [|o objects IH]; intros acc t e t'; [done|].
  rewrite pagesLoop_cons.
  destruct (Deno_writeTextFile h t _ _) as [[]|e0] eqn:Hw.
  - intros Hrun. apply IH in Hrun as (before & object & after & -> & Hthrow & ->).
    exists (o :: before), object, after. rewrite fmap_cons.
    rewrite <- !app_assoc in *. done.
  - intros [= <- <-]. exists [], o, objects. simpl. by rewrite app_nil_r.
Qed.

Lemma allPages_not_pageFile imageMap outDir (objects : list OCRPageObject) :
  join outDir "all-pages.md"
    ∉ filesWritten (pageWrite imageMap outDir <$> objects).
Proof.
  rewrite filesWritten_pageWrites. intros (o & Ho & _)%list_elem_of_fmap.
  pose proof (isPageFile_pageFile outDir o) as Hp. rewrite <- Ho in Hp.
  by vm_compute in Hp.
Qed.

(** X10.  When the Markdown assembler fails, it has stopped at the first
    write that failed, and nothing is undone.  Either that write is the one
    of a page: the files of the pages before it are written, the files of
    the pages after it are not, and [all-pages.md] is not written; or all
    the page files are written and the failed write is that of
    [all-pages.md].  The error carries the cause of that one failure. *)
Theorem generateMarkdown_stops_at_first_failure
    h objects imageMap outDir t e t' :
  generateMarkdown h objects imageMap outDir t = (Return (Err e), t') →
  ∃ cause,
    e = SystemError ("マークダウンの生成に失敗しました: "
                     +:+ Error_toString cause) ∧
    ((∃ before object after,
        objects = (before ++ object :: after)%list ∧
        Deno_writeTextFile h (t ++ (pageWrite imageMap outDir <$> before))%list
          (pageFile outDir object) (pageContent imageMap object) = Throw cause ∧
        t' = (t ++ (pageWrite imageMap outDir <$> (before ++ [object])%list))%list ∧
        join outDir "all-pages.md"
          ∉ filesWritten (pageWrite imageMap outDir <$> (before ++ [object])%list))
     ∨ (Deno_writeTextFile h (t ++ (pageWrite imageMap outDir <$> objects))%list
          (join outDir "all-pages.md")
          (combinedContent (pageContent imageMap <$> objects)) = Throw cause ∧
        t' = (t ++ (pageWrite imageMap outDir <$> objects)
                ++ [EvWriteTextFile (join outDir "all-pages.md")
                      (combinedContent (pageContent imageMap <$> objects))])%list)).
Proof.
  unfold generateMarkdown, fromPromise, bind. intros Hrun.
  pose proof (pagesLoop_run h imageMap outDir objects [] t) as Hok.
  destruct (pagesLoop h imageMap outDir objects [] t) as [[c|cause] t1] eqn:Hloop.
  - destruct Hok as [-> ->]. unfold writeTextFile, call in Hrun. simpl in Hrun.
    rewrite combinedLines_content in Hrun.
    destruct (Deno_writeTextFile h _ _ _) as [[]|cause] eqn:Hw; [done|].
    injection Hrun as <- <-. exists cause. split; [done|]. right.
    split; [done|]. by rewrite <- app_assoc.
  - injection Hrun as <- <-. exists cause. split; [done|]. left.
    apply pagesLoop_failure in Hloop as (before & object & after & -> & Hw & ->).
    exists before, object, after. split; [done|]. split; [done|].
    split; [by rewrite fmap_app|]. apply allPages_not_pageFile.
Qed.

Lemma generateMarkdown_stops_at_first_failure_witness :
  ∃ cause,
    SystemError "マークダウンの生成に失敗しました: Error: No space left on device"
    = SystemError ("マークダウンの生成に失敗しました: "
                   +:+ Error_toString cause) ∧
    ((∃ before object after,
        demoPages = (before ++ object :: after)%list ∧
        Deno_writeTextFile fullDiskWorld
          ([] ++ (pageWrite [] "out" <$> before))%list
          (pageFile "out" object) (pageContent [] object) = Throw cause ∧
        [ EvWriteTextFile (join "out" "page-1.md")
            (pageContent [] (mkPage 0 "hello" [demoImage1] None));
          EvWriteTextFile (join "out" "page-2.md")
            (pageContent [] (mkPage 1 "world" [demoImage2] None)) ]
        = ([] ++ (pageWrite [] "out" <$> (before ++ [object])%list))%list ∧
        join "out" "all-pages.md"
          ∉ filesWritten (pageWrite [] "out" <$> (before ++ [object])%list))
     ∨ (Deno_writeTextFile fullDiskWorld
          ([] ++ (pageWrite [] "out" <$> demoPages))%list
          (join "out" "all-pages.md")
          (combinedContent (pageContent [] <$> demoPages)) = Throw cause ∧
        [ EvWriteTextFile (join "out" "page-1.md")
            (pageContent [] (mkPage 0 "hello" [demoImage1] None));
          EvWriteTextFile (join "out" "page-2.md")
            (pageContent [] (mkPage 1 "world" [demoImage2] None)) ]
        = ([] ++ (pageWrite [] "out" <$> demoPages)
             ++ [EvWriteTextFile (join "out" "all-pages.md")
                   (combinedContent (pageContent [] <$> demoPages))])%list)).
Proof.
  apply (generateMarkdown_stops_at_first_failure fullDiskWorld demoPages []
           "out" []).
  reflexivity.
Defined.

(** ** What [getCliArgs] has checked when it returns *)

Lemma truthy_default (x : option string) :
  truthy x = true → x = Some (default "" x) ∧ default "" x ≠ "".
Proof. by destruct x as [[|c s]|]. Qed.

Lemma cliChecks_Ok h values t args t' :
  cliChecks h values t = (Return (Ok args), t') →
  args = argsOf values ∧ validPaths h args ∧
  stringValue values "input" = Some (input args) ∧
  stringValue values "outDir" = Some (outDir args) ∧
  t' = (t ++ [EvStatSync (input args); EvStatSync (outDir args)])%list.
Proof.
  unfold cliChecks, argsOf, validPaths.
  destruct (truthy (stringValue values "input")) eqn:Hi; simpl; [|done].
  destruct (truthy (stringValue values "outDir")) eqn:Ho; simpl; [|done].
  apply truthy_default in Hi as [Hi Hi'], Ho as [Ho Ho'].
  destruct (Deno_statSync h (default "" (stringValue values "input")))
    as [statIn|e1] eqn:H1; [|done].
  destruct (isFile statIn) eqn:Hf; simpl; [|done].
  destruct (Deno_statSync h (default "" (stringValue values "outDir")))
    as [statOut|e2] eqn:H2; [|done].
  destruct (isDirectory statOut) eqn:Hd; simpl; [|done].
  intros [= <- <-]. simpl. rewrite H1, H2.
  split; [done|]. split; [by eauto 10|]. done.
Qed.

Lemma cliChecks_Err h values t e t' :
  cliChecks h values t = (Return (Err e), t') →
  class e = ValidationErrorC ∧
  ∃ evs, t' = (t ++ evs)%list ∧
         Forall (λ ev, ev = EvStatSync (input (argsOf values))
                       ∨ ev = EvStatSync (outDir (argsOf values))) evs.
Proof.
  unfold cliChecks, argsOf. simpl.
  repeat match goal with
         | |- context [if ?b then _ else _] => destruct b
         | |- context [match ?c with Return _ => _ | Throw _ => _ end] =>
             destruct c
         end; simpl; intros [= <- <-]; (split; [done|]);
    first [ by exists []; rewrite app_nil_r
          | eexists; split; [reflexivity|]; repeat constructor; by auto ].
Qed.

Lemma cliChecks_no_Throw h values t e t' :
  cliChecks h values t ≠ (Throw e, t').
Proof.
  unfold cliChecks.
  repeat match goal with
         | |- context [if ?b then _ else _] => destruct b
         | |- context [match ?c with Return _ => _ | Throw _ => _ end] =>
             destruct c
         end; done.
Qed.

Lemma getCliArgs_cliChecks h t values positionals :
  NodeUtil.parseArgs (Deno_args h) cliOptions false
    = Return (values, positionals) →
  getCliArgs h t = cliChecks h values t.
Proof. intros Hp. by rewrite (getCliArgs_parsed h t values positionals Hp). Qed.

Lemma getCliArgs_Ok h t args t' :
  getCliArgs h t = (Return (Ok args), t') →
  validPaths h args ∧
  t' = (t ++ [EvStatSync (input args); EvStatSync (outDir args)])%list.
Proof.
  destruct (NodeUtil.parseArgs (Deno_args h) cliOptions false)
    as [[values positionals]|e] eqn:Hp.
  - rewrite (getCliArgs_cliChecks h t values positionals Hp).
    intros H. by apply cliChecks_Ok in H as (_ & ? & _ & _ & ?).
  - by rewrite (getCliArgs_throw h t e Hp).
Qed.


Lemma processOcr_Ok h apiKey pdfPath t pages t' :
  processOcr h apiKey pdfPath t = (Return (Ok pages), t') →
  ∃ pdfBytes fileId signedUrl,
    Deno_readFile h pdfPath = Return pdfBytes ∧
    files_upload h apiKey (basename h pdfPath) pdfBytes = Return fileId ∧
    files_getSignedUrl h apiKey fileId = Return signedUrl ∧
    ocr_process h apiKey signedUrl = Return pages ∧
    t' = (t ++ ocrCalls h apiKey pdfPath pdfBytes fileId signedUrl)%list.
Proof.
  pose proof (processOcr_steps h apiKey pdfPath t) as Hsteps. simpl in Hsteps.
  rewrite Hsteps.
  destruct (Deno_readFile h pdfPath) as [bytes|e1]; [|done].
  destruct (files_upload h apiKey _ bytes) as [fileId|e2] eqn:Hup; [|done].
  destruct (files_getSignedUrl h apiKey fileId) as [signed|e3] eqn:Hsig;
    [|done].
  destruct (ocr_process h apiKey signed) as [pages'|e4] eqn:Hocr; [|done].
  intros [= <- <-]. by exists bytes, fileId, signed.
Qed.

(** ** A successful run, call by call *)

Lemma ocrOk_trace h args env pages t4 :
  ocrOk h args env pages t4 →
  validPaths h args ∧
  (∀ t, getEnvs h t = (Return (Ok env), (t ++ (EvEnvGet <$> requiredKeys))%list)) ∧
  ensureDir h (outDir args) = Return () ∧
  ∃ pdfBytes fileId signedUrl,
    Deno_readFile h (input args) = Return pdfBytes ∧
    files_upload h (MISTRAL_OCR_API_KEY env) (basename h (input args)) pdfBytes
      = Return fileId ∧
    files_getSignedUrl h (MISTRAL_OCR_API_KEY env) fileId = Return signedUrl ∧
    ocr_process h (MISTRAL_OCR_API_KEY env) signedUrl = Return pages ∧
    t4 = (validationCalls args ++ [EvEnsureDir (outDir args)]
            ++ ocrCalls h (MISTRAL_OCR_API_KEY env) (input args) pdfBytes
                 fileId signedUrl)%list.
Proof.
  intros (t3 & (t2 & (t1 & Hcli & Henv) & Hdir) & Hocr).
  apply getCliArgs_Ok in Hcli as [Hvalid ->].
  assert (∀ t, getEnvs h t
               = (Return (Ok env), (t ++ (EvEnvGet <$> requiredKeys))%list))
    as Henvs.
  { intros t. rewrite getEnvs_run in Henv |- *.
    destruct (List.find (missing h) requiredKeys); [done|].
    by injection Henv as -> _. }
  rewrite Henvs in Henv. injection Henv as <-.
  rewrite ensureOutDir_run in Hdir.
  destruct (ensureDir h (outDir args)) as [[]|e]; [|done].
  injection Hdir as <-.
  apply processOcr_Ok in Hocr
    as (bytes & fileId & signed & Hr & Hu & Hs & Ho & ->).
  split; [done|]. split; [done|]. split; [done|].
  exists bytes, fileId, signed. repeat (split; [done|]).
  unfold validationCalls. by rewrite <- !app_assoc.
Qed.

(** X11.  A run that succeeds has made exactly these calls, in this order:
    the two path checks on the input and the output path, the six reads of
    the environment, the creation of the output directory, the four calls of
    the OCR stage with the API key of the environment, one reading of the
    clock, one upload for every image with bytes of the pages the OCR
    returned, in the order of the pages, with the client, the bucket and the
    date of the run, one write for every page, and the write of
    [all-pages.md]; the Markdown is built with the mapping of these
    uploads.  The paths have been found to be a file and a directory. *)
Theorem successful_run_calls h t :
  main h [] = (Return (Ok ()), t) →
  ∃ args env pdfBytes fileId signedUrl pages sends,
    let before :=
      (validationCalls args ++ [EvEnsureDir (outDir args)]
         ++ ocrCalls h (MISTRAL_OCR_API_KEY env) (input args) pdfBytes fileId
              signedUrl)%list in
    let client :=
      mkS3Client "auto" (R2_S3_URL env) (R2_ACCESS_KEY_ID env)
        (R2_SECRET_ACCESS_KEY env) in
    let ymd := ymd_of (new_Date h before) in
    let withBytes := filter hasBytes (flat_map images pages) in
    let imageMap := published (R2_PUBLIC_URL env) ymd <$> withBytes in
    validPaths h args ∧
    (getEnvs h []).1 = Return (Ok env) ∧
    ocr_process h (MISTRAL_OCR_API_KEY env) signedUrl = Return pages ∧
    Forall2 (uploadOf client (R2_BUCKET_NAME env) ymd) withBytes sends ∧
    t = (before ++ EvNewDate :: sends
           ++ (pageWrite imageMap (outDir args) <$> pages)
           ++ [EvWriteTextFile (join (outDir args) "all-pages.md")
                 (combinedContent (pageContent imageMap <$> pages))])%list ∧
    length t = (15 + length withBytes + length pages)%nat.
Proof.
  intros Hmain. apply main_Ok_markdownOk in Hmain
    as (args & env & pages & imageMap & t5 & (t4 & Hocr & Hup) & Hmd).
  apply ocrOk_trace in Hocr
    as (Hvalid & Henv & _ & bytes & fileId & signed & _ & _ & _ & Ho & ->).
  exists args, env, bytes, fileId, signed, pages.
  unfold publish in Hup.
  set (before := (validationCalls args ++ [EvEnsureDir (outDir args)]
                    ++ ocrCalls h (MISTRAL_OCR_API_KEY env) (input args) bytes
                         fileId signed)%list) in *.
  destruct (uploadImages_run h (R2_BUCKET_NAME env) (R2_S3_URL env)
              (R2_ACCESS_KEY_ID env) (R2_SECRET_ACCESS_KEY env)
              (R2_PUBLIC_URL env) (flat_map images pages) before)
    as (sends & Ht & _ & Hr).
  rewrite Hup in Ht, Hr. cbn [fst snd] in Ht, Hr. destruct Hr as [-> Hsends].
  subst t5. exists sends.
  pose proof (generateMarkdown_run h pages
                (published (R2_PUBLIC_URL env) (ymd_of (new_Date h before))
                   <$> filter hasBytes (flat_map images pages))
                (outDir args) (before ++ EvNewDate :: sends)%list) as Hwrites.
  rewrite Hmd in Hwrites. subst t.
  split; [done|]. split; [by rewrite Henv|]. split; [done|].
  split; [done|]. split.
  - by rewrite <- !app_assoc.
  - rewrite length_app. cbn [length]. rewrite !length_app, !length_fmap.
    rewrite (Forall2_length _ _ _ Hsends). subst before.
    unfold validationCalls, ocrCalls. simpl. lia.
Qed.

Lemma successful_run_calls_witness :
  ∃ args env pdfBytes fileId signedUrl pages sends,
    validPaths demoWorld args ∧
    (getEnvs demoWorld []).1 = Return (Ok env) ∧
    ocr_process demoWorld (MISTRAL_OCR_API_KEY env) signedUrl = Return pages ∧
    Forall2
      (uploadOf
         (mkS3Client "auto" (R2_S3_URL env) (R2_ACCESS_KEY_ID env)
            (R2_SECRET_ACCESS_KEY env))
         (R2_BUCKET_NAME env)
         (ymd_of (new_Date demoWorld
            (validationCalls args ++ [EvEnsureDir (outDir args)]
               ++ ocrCalls demoWorld (MISTRAL_OCR_API_KEY env) (input args)
                    pdfBytes fileId signedUrl)%list)))
      (filter hasBytes (flat_map images pages)) sends ∧
    (main demoWorld []).2
    = ((validationCalls args ++ [EvEnsureDir (outDir args)]
          ++ ocrCalls demoWorld (MISTRAL_OCR_API_KEY env) (input args)
               pdfBytes fileId signedUrl)
         ++ EvNewDate :: sends
         ++ (pageWrite
               (published (R2_PUBLIC_URL env)
                  (ymd_of (new_Date demoWorld
                     (validationCalls args ++ [EvEnsureDir (outDir args)]
                        ++ ocrCalls demoWorld (MISTRAL_OCR_API_KEY env)
                             (input args) pdfBytes fileId signedUrl)%list))
                  <$> filter hasBytes (flat_map images pages))
               (outDir args) <$> pages)
         ++ [EvWriteTextFile (join (outDir args) "all-pages.md")
               (combinedContent
                  (pageContent
                     (published (R2_PUBLIC_URL env)
                        (ymd_of (new_Date demoWorld
                           (validationCalls args ++ [EvEnsureDir (outDir args)]
                              ++ ocrCalls demoWorld (MISTRAL_OCR_API_KEY env)
                                   (input args) pdfBytes fileId signedUrl)%list))
                        <$> filter hasBytes (flat_map images pages))
                     <$> pages))])%list ∧
    length (main demoWorld []).2
    = (15 + length (filter hasBytes (flat_map images pages)) + length pages)%nat.
Proof.
  apply (successful_run_calls demoWorld (main demoWorld []).2).
  reflexivity.
Defined.

(** ** A document without image bytes *)

Lemma main_after_ocr h args env pages t4 :
  ocrOk h args env pages t4 →
  main h []
  = andThen (publish h env pages)
      (λ imageMap, generateMarkdown h pages imageMap (outDir args)) t4.
Proof.
  intros (t3 & (t2 & (t1 & Hcli & Henv) & Hdir) & Hocr).
  rewrite main_pipeline. unfold pipeline.
  rewrite (andThen_Ok _ _ _ _ _ Hcli), (andThen_Ok _ _ _ _ _ Henv).
  rewrite (andThen_Ok _ _ _ _ _ Hdir), (andThen_Ok _ _ _ _ _ Hocr). done.
Qed.

Lemma imageRefs_nil (imgs : list OCRImage) : imageRefs [] imgs = [].
Proof. unfold imageRefs. by induction imgs. Qed.

(** X12.  When no image of the document the OCR returned has bytes, the
    run makes no upload: after the OCR stage it reads the clock and goes on
    to the Markdown assembler with the empty mapping, so every page file is
    the heading, an empty line and the text.  For a document without pages
    the run writes one file, an empty [all-pages.md], and succeeds if that
    write does. *)
Theorem document_without_image_bytes h args env pages t4 :
  ocrOk h args env pages t4 →
  Forall (λ img, ¬ hasBytes img) (flat_map images pages) →
  main h [] = generateMarkdown h pages [] (outDir args) (t4 ++ [EvNewDate])%list
  ∧ (∀ page,
       pageContent [] page
       = "# Page " +:+ String_of_number (index page + 1) +:+ LF +:+ LF
           +:+ markdown page +:+ LF)
  ∧ (pages = [] →
     main h []
     = (match Deno_writeTextFile h (t4 ++ [EvNewDate])%list
                (join (outDir args) "all-pages.md") "" with
        | Return _ => Return (Ok ())
        | Throw cause =>
            Return (Err (SystemError ("マークダウンの生成に失敗しました: "
                                      +:+ Error_toString cause)))
        end,
        (t4 ++ [EvNewDate;
                EvWriteTextFile (join (outDir args) "all-pages.md") ""])%list)).
Proof.
  intros Hocr Hnone.
  assert (main h []
          = generateMarkdown h pages [] (outDir args) (t4 ++ [EvNewDate])%list)
    as Hmain.
  { rewrite (main_after_ocr h args env pages t4 Hocr).
    rewrite (andThen_Ok _ _ _ [] (t4 ++ [EvNewDate])%list); [done|].
    unfold publish. rewrite uploadImages_filter.
    rewrite filter_none; [done|].
    intros img Hin. rewrite Forall_forall in Hnone. by apply Hnone. }
  split; [done|]. split.
  - intros page. rewrite pageContent_refBlocks, imageRefs_nil. simpl.
    by rewrite append_nil_r.
  - intros ->. rewrite Hmain.
    unfold generateMarkdown, fromPromise, bind, writeTextFile, call. simpl.
    rewrite <- app_assoc. simpl.
    by destruct (Deno_writeTextFile h _ _ _) as [[]|cause].
Qed.

Lemma document_without_image_bytes_witness :
  main emptyDocumentWorld []
  = (Return (Ok ()),
     (validationCalls (mkArgs "in.pdf" "out") ++ [EvEnsureDir "out"]
        ++ ocrCalls emptyDocumentWorld "key" "in.pdf" [] "file-1"
             "https://signed.example"
        ++ [EvNewDate; EvWriteTextFile (join "out" "all-pages.md") ""])%list).
Proof.
  destruct (document_without_image_bytes emptyDocumentWorld
              (mkArgs "in.pdf" "out")
              (mkEnv "key" "https://s3.example" "ak" "sk" "bucket"
                 "https://pub.example")
              []
              (validationCalls (mkArgs "in.pdf" "out") ++ [EvEnsureDir "out"]
                 ++ ocrCalls emptyDocumentWorld "key" "in.pdf" [] "file-1"
                      "https://signed.example")%list)
    as (_ & _ & Hempty).
  - exists (validationCalls (mkArgs "in.pdf" "out") ++ [EvEnsureDir "out"])%list.
    split; [|reflexivity].
    exists (validationCalls (mkArgs "in.pdf" "out")). split; [|reflexivity].
    exists [EvStatSync "in.pdf"; EvStatSync "out"]. split; reflexivity.
  - constructor.
  - rewrite (Hempty eq_refl). reflexivity.
Defined.

(** ** What a run touches *)

Lemma emits_emitsOnly {A} (m : Eff A) s (P : Event → Prop) :
  emits m s → (∀ ev, stage_of ev = s → P ev) → emitsOnly m P.
Proof.
  intros Hm HP t. destruct (Hm t) as (evs & Ht & Hs). exists evs.
  split; [done|]. eapply Forall_impl; [exact Hs|]. done.
Qed.

Lemma andThen_emitsOnly {A B E} (m : Eff (Result A E))
    (k : A → Eff (Result B E)) (P : Event → Prop) :
  emitsOnly m P → (∀ a, emitsOnly (k a) P) → emitsOnly (andThen m k) P.
Proof.
  intros Hm Hk t. destruct (Hm t) as (evs & Ht & Hs).
  unfold andThen, bind.
  destruct (m t) as [[[a|e]|e] t1]; simpl in Ht; subst t1;
    try (by exists evs).
  destruct (Hk a (t ++ evs)%list) as (evs2 & Ht2 & Hs2).
  exists (evs ++ evs2)%list. rewrite Ht2, <- app_assoc. split; [done|].
  by apply Forall_app.
Qed.

Lemma processOcr_emitsOnly h apiKey pdfPath :
  emitsOnly (processOcr h apiKey pdfPath)
    (λ ev, ev = EvReadFile pdfPath ∨ is_network ev = true).
Proof.
  intros t. pose proof (processOcr_steps h apiKey pdfPath t) as Hsteps.
  simpl in Hsteps. rewrite Hsteps. unfold ocrCalls.
  destruct (Deno_readFile h pdfPath) as [bytes|e1].
  2:{ eexists. split; [done|]. repeat constructor. }
  destruct (files_upload h apiKey _ bytes) as [fileId|e2].
  2:{ eexists. split; [done|]. simpl. repeat constructor; by auto. }
  destruct (files_getSignedUrl h apiKey fileId) as [signed|e3].
  2:{ eexists. split; [done|]. simpl. repeat constructor; by auto. }
  eexists. split; [done|]. repeat constructor; by auto.
Qed.

Lemma generateMarkdown_emitsOnly h objects imageMap outDir :
  emitsOnly (generateMarkdown h objects imageMap outDir)
    (λ ev, ∃ p c, ev = EvWriteTextFile p c ∧ path_dir p = outDir ∧
                  (path_name p = "all-pages.md" ∨ isPageFile p)).
Proof.
  intros t. unfold generateMarkdown, fromPromise, bind.
  pose proof (pagesLoop_run h imageMap outDir objects [] t) as Hloop.
  assert (∀ l : list OCRPageObject,
            Forall (λ ev, ∃ p c, ev = EvWriteTextFile p c ∧ path_dir p = outDir ∧
                                 (path_name p = "all-pages.md" ∨ isPageFile p))
              (pageWrite imageMap outDir <$> l)) as Hpages.
  { intros l. apply Forall_fmap, Forall_forall. intros o _. simpl.
    eexists _, _. split; [done|]. split; [done|]. right.
    apply isPageFile_pageFile. }
  destruct (pagesLoop h imageMap outDir objects [] t) as [[c|e] t'].
  - destruct Hloop as [_ ->]. unfold writeTextFile, call.
    exists ((pageWrite imageMap outDir <$> objects)
              ++ [EvWriteTextFile (join outDir "all-pages.md")
                    (Array_join LF c)])%list.
    split.
    + destruct (Deno_writeTextFile h _ _ _) as [[]|e]; simpl;
        by rewrite <- app_assoc.
    + apply Forall_app. split; [done|]. repeat constructor.
      eexists _, _. split; [done|]. split; [done|]. by left.
  - destruct Hloop as [[n ->] _]. eexists. split; [done|]. apply Hpages.
Qed.

Lemma afterCli_emitsOnly h args :
  emitsOnly (afterCli h args)
    (λ ev, touches args ev ∧ stage_of ev ≠ StCli ∧ stage_of ev ≠ StBoundary).
Proof.
  unfold afterCli.
  apply andThen_emitsOnly.
  { apply (emits_emitsOnly _ StEnv); [apply getEnvs_emits|].
    by intros [] Hev. }
  intros env. apply andThen_emitsOnly.
  { intros t. rewrite ensureOutDir_run. eexists. split; [done|].
    by repeat constructor. }
  intros _. apply andThen_emitsOnly.
  { intros t.
    destruct (processOcr_emitsOnly h (MISTRAL_OCR_API_KEY env) (input args) t)
      as (evs & Ht & Hs).
    exists evs. split; [done|]. eapply Forall_impl; [exact Hs|].
    intros ev [->|Hnet]; [done|]. by destruct ev. }
  intros pages. apply andThen_emitsOnly.
  { apply (emits_emitsOnly _ StUpload); [apply uploadImages_emits|].
    by intros [] Hev. }
  intros imageMap t.
  destruct (generateMarkdown_emitsOnly h pages imageMap (outDir args) t)
    as (evs & Ht & Hs).
  exists evs. split; [done|]. eapply Forall_impl; [exact Hs|].
  by intros ev (p & c & -> & Hd & Hn).
Qed.

Lemma main_afterCli h args t1 :
  getCliArgs h [] = (Return (Ok args), t1) → main h [] = afterCli h args t1.
Proof.
  intros Hcli. rewrite main_pipeline. unfold pipeline.
  by rewrite (andThen_Ok _ _ _ _ _ Hcli).
Qed.

Lemma run_trace h :
  ∃ evs, (run h).2 = ((main h []).2 ++ evs)%list ∧
         Forall (λ ev, stage_of ev = StBoundary) evs.
Proof.
  unfold run. destruct (main h []) as [[[[]|e]|e] t]; simpl.
  - exists []. by rewrite app_nil_r.
  - eexists. split; [done|]. by repeat constructor.
  - eexists. split; [done|]. by repeat constructor.
Qed.

(** X13.  Whatever the outcome of a run whose command line parses, the
    program examines no path but the input and the output path, reads no
    file but the input, creates no directory but the output directory, and
    writes files in the output directory only, named [page-...] or
    [all-pages.md].  Any call beyond the two path checks (a read of the
    environment, the creation of the directory, the read of the file, a
    network call, a write) is made only after the input path has been found
    to be a regular file and the output path a directory. *)
Theorem calls_stay_within_the_given_paths h values positionals :
  NodeUtil.parseArgs (Deno_args h) cliOptions false
    = Return (values, positionals) →
  Forall (touches (argsOf values)) (run h).2 ∧
  (∀ ev, ev ∈ (run h).2 → stage_of ev ≠ StCli → stage_of ev ≠ StBoundary →
         validPaths h (argsOf values)).
Proof.
  intros Hp. destruct (run_trace h) as (bevs & -> & Hb).
  pose proof (getCliArgs_cliChecks h [] values positionals Hp) as Hcli.
  destruct (cliChecks h values []) as [[[args|e]|e] t1] eqn:Hchecks.
  - apply cliChecks_Ok in Hchecks as (-> & Hvalid & _ & _ & ->).
    rewrite (main_afterCli h _ _ Hcli).
    destruct (afterCli_emitsOnly h (argsOf values)
                ([] ++ [EvStatSync (input (argsOf values));
                        EvStatSync (outDir (argsOf values))])%list)
      as (evs & -> & Hevs).
    split; [|done]. apply Forall_app_2; [apply Forall_app_2|].
    + simpl. repeat constructor; simpl; by auto.
    + eapply Forall_impl; [exact Hevs|]. by intros ev [? _].
    + eapply Forall_impl; [exact Hb|]. by intros [] Hev.
  - apply cliChecks_Err in Hchecks as (_ & evs & -> & Hevs).
    rewrite main_pipeline. unfold pipeline.
    rewrite (andThen_Err _ _ _ _ _ Hcli). simpl. split.
    + apply Forall_app_2.
      * eapply Forall_impl; [exact Hevs|]. intros ev [->| ->]; simpl; by auto.
      * eapply Forall_impl; [exact Hb|]. by intros [] Hev.
    + intros ev [Hin|Hin]%elem_of_app Hcli' Hbound.
      * rewrite Forall_forall in Hevs. by destruct (Hevs ev Hin) as [->| ->].
      * rewrite Forall_forall in Hb. by specialize (Hb ev Hin).
  - by apply cliChecks_no_Throw in Hchecks.
Qed.

Lemma calls_stay_within_the_given_paths_witness :
  Forall (touches (mkArgs "in.pdf" "out")) (run demoWorld).2 ∧
  validPaths demoWorld (mkArgs "in.pdf" "out").
Proof.
  destruct (calls_stay_within_the_given_paths demoWorld
              (<["outDir" := NodeUtil.VString "out"]>
                 (<["input" := NodeUtil.VString "in.pdf"]> ∅)) [] eq_refl)
    as [Htouch Hvalid].
  split; [exact Htouch|].
  apply (Hvalid EvNewDate); [|discriminate|discriminate].
  vm_compute. repeat constructor.
Defined.

(** ** The two kinds of failure *)

Lemma pipeline_emitsOnly h :
  emitsOnly (pipeline h) (λ ev, stage_of ev ≠ StBoundary).
Proof.
  unfold pipeline. apply andThen_emitsOnly.
  - intros t. destruct (getCliArgs_footprint h t) as (evs & Ht & Hs).
    exists evs. split; [done|]. eapply Forall_impl; [exact Hs|].
    by intros ev ->.
  - intros args t. destruct (afterCli_emitsOnly h args t) as (evs & Ht & Hs).
    exists evs. split; [exact Ht|]. eapply Forall_impl; [exact Hs|].
    by intros ev (_ & _ & ?).
Qed.

Lemma main_no_boundary h :
  Forall (λ ev, stage_of ev ≠ StBoundary) (main h []).2.
Proof.
  rewrite main_pipeline. by destruct (pipeline_emitsOnly h []) as (evs & -> & ?).
Qed.





(** X15.  The process ends with code 0 exactly when [main] returns without
    error, and with code 1 otherwise.  A run that ends with code 0 has
    printed nothing and has not called [Deno.exit].  An error is printed
    exactly when [main] has returned it, and [Deno.exit] is called, with
    code 1, exactly when [main] has returned an error. *)
Theorem run_reports_what_main_returns h :
  ((run h).1 = 0 ↔ ∃ t, main h [] = (Return (Ok ()), t)) ∧
  ((run h).1 = 0 ∨ (run h).1 = 1) ∧
  ((run h).1 = 0 →
     (run h).2 = (main h []).2 ∧
     Forall (λ ev, stage_of ev ≠ StBoundary) (run h).2) ∧
  (∀ e, EvConsoleError e ∈ (run h).2 ↔ ∃ t, main h [] = (Return (Err e), t)) ∧
  (∀ code, EvExit code ∈ (run h).2 ↔
           code = 1 ∧ ∃ e t, main h [] = (Return (Err e), t)).
Proof.
  pose proof (main_no_boundary h) as Hnb. unfold run.
  rewrite Forall_forall in Hnb.
  assert (∀ ev, ev ∈ (main h []).2 → stage_of ev = StBoundary → False) as Hno.
  { intros ev Hin Hev. by apply (Hnb ev Hin). }
  clear Hnb.
  destruct (main h []) as [[[[]|e]|e] t]; cbn [fst snd] in *.
  - split; [split; [by eauto|done]|]. split; [by left|]. split.
    { intros _. split; [done|]. apply Forall_forall. intros ev Hin Hev.
      by apply (Hno ev Hin). }
    split.
    + intros e. split; [|by intros (? & [=])]. intros Hin.
      by destruct (Hno _ Hin).
    + intros code. split; [|by intros (_ & ? & ? & [=])]. intros Hin.
      by destruct (Hno _ Hin).
  - split; [split; [done|by intros (? & [=])]|]. split; [by right|].
    split; [done|]. split.
    + intros e'. split.
      * intros [Hin|Hin]%elem_of_app; [by destruct (Hno _ Hin)|].
        apply elem_of_cons in Hin as [[= <-]|Hin]; [by eauto|].
        by apply list_elem_of_singleton in Hin.
      * intros (? & [= <- _]). apply elem_of_app. right. by left.
    + intros code. split.
      * intros [Hin|Hin]%elem_of_app; [by destruct (Hno _ Hin)|].
        apply elem_of_cons in Hin as [?|Hin]; [done|].
        apply list_elem_of_singleton in Hin as [= ->]. by eauto.
      * intros (-> & _). apply elem_of_app. right. right. by left.
  - split; [split; [done|by intros (? & [=])]|]. split; [by right|].
    split; [done|]. split.
    + intros e'. split; [|by intros (? & [=])].
      intros [Hin|Hin]%elem_of_app; [by destruct (Hno _ Hin)|].
      by apply list_elem_of_singleton in Hin.
    + intros code. split; [|by intros (_ & ? & ? & [=])].
      intros [Hin|Hin]%elem_of_app; [by destruct (Hno _ Hin)|].
      by apply list_elem_of_singleton in Hin.
Qed.

Lemma run_reports_what_main_returns_witness :
  (run demoWorld).2 = (main demoWorld []).2 ∧
  EvConsoleError (ValidationError "MISTRAL_OCR_API_KEY が見つかりません")
    ∈ (run keylessWorld).2.
Proof.
  destruct (run_reports_what_main_returns demoWorld) as (_ & _ & Hok & _).
  destruct (run_reports_what_main_returns keylessWorld)
    as (_ & _ & _ & Hprint & _).
  split.
  - apply Hok. reflexivity.
  - apply Hprint. eexists. reflexivity.
Defined.

(** ** The forms of the command line *)

Lemma processTokens_two n1 r1 a n2 r2 b :
  NodeUtil.checkOptionUsage cliOptions n1 r1 (Some (a, false)) = None →
  NodeUtil.checkOptionUsage cliOptions n2 r2 (Some (b, false)) = None →
  NodeUtil.isOptionLikeValue a = false →
  NodeUtil.isOptionLikeValue b = false →
  NodeUtil.processTokens cliOptions false
    [NodeUtil.TokOption n1 r1 (Some (a, false));
     NodeUtil.TokOption n2 r2 (Some (b, false))] ∅ []
  = Return (NodeUtil.storeOption n2 (Some (b, false))
              (NodeUtil.storeOption n1 (Some (a, false)) ∅), []).
Proof.
  intros H1 H2 Ha Hb. simpl. rewrite H1, H2.
  unfold NodeUtil.checkOptionLikeValue. by rewrite Ha, Hb.
Qed.

Lemma parseArgs_forms a b :
  NodeUtil.isOptionLikeValue a = false →
  NodeUtil.isOptionLikeValue b = false →
  NodeUtil.parseArgs ["-i"; a; "-o"; b] cliOptions false
    = Return (valuesOf a b, []) ∧
  NodeUtil.parseArgs ["-o"; b; "-i"; a] cliOptions false
    = Return (valuesOf a b, []) ∧
  NodeUtil.parseArgs ["--input"; a; "--outDir"; b] cliOptions false
    = Return (valuesOf a b, []) ∧
  NodeUtil.parseArgs ["--outDir"; b; "--input"; a] cliOptions false
    = Return (valuesOf a b, []).
Proof.
  intros Ha Hb. unfold NodeUtil.parseArgs, valuesOf.
  assert (<["input" := NodeUtil.VString a]>
            (<["outDir" := NodeUtil.VString b]> (∅ : gmap string NodeUtil.ArgValue))
          = <["outDir" := NodeUtil.VString b]>
              (<["input" := NodeUtil.VString a]> ∅)) as Hswap.
  { by apply insert_insert_ne. }
  split; [|split; [|split]].
  - change (NodeUtil.argsToTokens cliOptions ["-i"; a; "-o"; b])
      with [NodeUtil.TokOption "input" "-i" (Some (a, false));
            NodeUtil.TokOption "outDir" "-o" (Some (b, false))].
    by rewrite processTokens_two.
  - change (NodeUtil.argsToTokens cliOptions ["-o"; b; "-i"; a])
      with [NodeUtil.TokOption "outDir" "-o" (Some (b, false));
            NodeUtil.TokOption "input" "-i" (Some (a, false))].
    rewrite processTokens_two by done. by rewrite <- Hswap.
  - change (NodeUtil.argsToTokens cliOptions ["--input"; a; "--outDir"; b])
      with [NodeUtil.TokOption "input" "--input" (Some (a, false));
            NodeUtil.TokOption "outDir" "--outDir" (Some (b, false))].
    by rewrite processTokens_two.
  - change (NodeUtil.argsToTokens cliOptions ["--outDir"; b; "--input"; a])
      with [NodeUtil.TokOption "outDir" "--outDir" (Some (b, false));
            NodeUtil.TokOption "input" "--input" (Some (a, false))].
    rewrite processTokens_two by done. by rewrite <- Hswap.
Qed.

(** X16.  The short and the long form of the two options, in either order,
    are read alike: for an input path and an output path that do not look
    like an option (no leading dash, or the dash alone), [-i a -o b],
    [-o b -i a], [--input a --outDir b] and [--outDir b --input a] all lead
    to the same checks on the same two paths, and so to the same result and
    the same calls. *)
Theorem option_forms_are_read_alike h a b t :
  NodeUtil.isOptionLikeValue a = false →
  NodeUtil.isOptionLikeValue b = false →
  Deno_args h = ["-i"; a; "-o"; b] ∨ Deno_args h = ["-o"; b; "-i"; a]
  ∨ Deno_args h = ["--input"; a; "--outDir"; b]
  ∨ Deno_args h = ["--outDir"; b; "--input"; a] →
  getCliArgs h t = cliChecks h (valuesOf a b) t ∧
  argsOf (valuesOf a b) = mkArgs a b ∧
  (validPaths h (mkArgs a b) →
   getCliArgs h t
   = (Return (Ok (mkArgs a b)), (t ++ [EvStatSync a; EvStatSync b])%list)).
Proof.
  intros Ha Hb Hargs.
  destruct (parseArgs_forms a b Ha Hb) as (H1 & H2 & H3 & H4).
  assert (NodeUtil.parseArgs (Deno_args h) cliOptions false
          = Return (valuesOf a b, [])) as Hp.
  { by destruct Hargs as [->|[->|[->| ->]]]. }
  pose proof (getCliArgs_cliChecks h t _ _ Hp) as Hcli.
  split; [done|]. split; [done|].
  intros (Hia & Hib & (statIn & Hin & Hfile) & (statOut & Hout & Hdir)).
  rewrite Hcli. unfold cliChecks. simpl in *.
  assert (stringValue (valuesOf a b) "input" = Some a) as -> by done.
  assert (stringValue (valuesOf a b) "outDir" = Some b) as -> by done.
  destruct a as [|ca a']; [done|]. destruct b as [|cb b']; [done|].
  simpl. rewrite Hin, Hfile. simpl. by rewrite Hout, Hdir.
Qed.

Lemma option_forms_are_read_alike_witness :
  getCliArgs longOptionsWorld []
  = (Return (Ok (mkArgs "in.pdf" "out")),
     [EvStatSync "in.pdf"; EvStatSync "out"]).
Proof.
  destruct (option_forms_are_read_alike longOptionsWorld "in.pdf" "out" [])
    as (_ & _ & Hok); [reflexivity|reflexivity|by do 3 right|].
  apply Hok. repeat split; try discriminate; by eexists.
Defined.

(** ** The environment beyond the six values *)





